(** * Meridian / Jasper: publish queue and index synchronisation

    A shallow embedding of the index store, the status resolvers, the
    balance probe, the two publish orchestrators
    ([jasper_arweave.py], [jasper_atproto.py]) and the selection tracker
    of [jasper.py], with the properties of the specification stated and
    settled against them.

    Conventions of the embedding.
    - A Python [str] is a [string]; file texts are handled as lists of
      characters inside the JSON codec.  The alphabet is the 8-bit one.
    - A value read from or written to an index file is a [json] value:
      the Python objects [None], [bool], [int], [str], [list], [dict].
      A [dict] is its list of items in insertion order.
    - Code that can raise returns a [result]; code that touches the file
      system, the logger, the notification callback or a subprocess runs
      in the monad [M] over a [world]. *)

From Stdlib Require Import ZArith Ascii String List Bool Lia.
From Stdlib Require DecimalZ.
From stdpp Require Import base decidable option list gmap strings.
Import ListNotations.

Local Open Scope string_scope.
Local Open Scope list_scope.

(** ** Exceptions and results *)

Inductive exn_kind : Type :=
| AttributeError
| TypeError
| ValueError
| KeyError
| IndexError
| JSONDecodeError
| UnicodeDecodeError
| FileNotFoundError
| OSError.

(** An exception: its class and the text [str(e)] gives. *)
Record exn : Type := Exn { exn_class : exn_kind; exn_text : string }.

Inductive result (A : Type) : Type :=
| Ok (a : A)
| Raise (e : exn).
Arguments Ok {A} a.
Arguments Raise {A} e.

(** ** Python values of an index document *)

#[local] Unset Elimination Schemes.
Inductive json : Type :=
| JNull
| JBool (b : bool)
| JInt (n : Z)
| JStr (s : string)
| JArr (xs : list json)
| JObj (kvs : list (string * json)).
#[local] Set Elimination Schemes.

(** A [dict] with [str] keys, items in insertion order. *)
Definition pydict (V : Type) : Type := list (string * V).

(** [d.get(k)]: the value of the first (only) item with key [k]. *)
Fixpoint dict_get {V} (k : string) (d : pydict V) : option V :=
  match d with
  | [] => None
  | (k', v) :: d' => if String.eqb k' k then Some v else dict_get k d'
  end.

(** [d[k] = v]: replaces the value in place, or appends a new item. *)
Fixpoint dict_set {V} (k : string) (v : V) (d : pydict V) : pydict V :=
  match d with
  | [] => [(k, v)]
  | (k', v') :: d' =>
      if String.eqb k' k then (k', v) :: d' else (k', v') :: dict_set k v d'
  end.

Definition dict_keys {V} (d : pydict V) : list string := map fst d.

(** [item.get(k)] on an arbitrary value: only a [dict] has [get]. *)
Definition py_get (item : json) (k : string) : result (option json) :=
  match item with
  | JObj d => Ok (dict_get k d)
  | _ => Raise (Exn AttributeError "object has no attribute 'get'")
  end.

(** [x == s] for a value [x] that [get] gave (or [None]) and a [str] [s]. *)
Definition py_eq_str (x : option json) (s : string) : bool :=
  match x with
  | Some (JStr s') => String.eqb s' s
  | _ => false
  end.

(** [len(x)]. *)
Definition py_len (x : json) : result nat :=
  match x with
  | JStr s => Ok (String.length s)
  | JArr xs => Ok (length xs)
  | JObj d => Ok (length d)
  | _ => Raise (Exn TypeError "object has no len()")
  end.

(** Truth value of [x] as [if x] tests it ([None] when [get] found nothing). *)
Definition py_truthy (x : option json) : bool :=
  match x with
  | None | Some JNull => false
  | Some (JBool b) => b
  | Some (JInt n) => negb (Z.eqb n 0)
  | Some (JStr s) => negb (String.eqb s "")
  | Some (JArr xs) => match xs with [] => false | _ => true end
  | Some (JObj d) => match d with [] => false | _ => true end
  end.

(** ** Characters and text *)

Definition text : Type := list ascii.

Definition chr (n : nat) : ascii := ascii_of_nat n.
Definition ord (c : ascii) : nat := nat_of_ascii c.

Definition dquote : ascii := "034"%char.
Definition backslash : ascii := "092"%char.
Definition newline : ascii := "010"%char.

Definition T (s : string) : text := list_ascii_of_string s.
Definition S_ (t : text) : string := string_of_list_ascii t.

(** The whitespace of the JSON grammar: [' \t\n\r']. *)
Definition json_ws (c : ascii) : bool :=
  (ord c =? 32)%nat || (ord c =? 9)%nat || (ord c =? 10)%nat || (ord c =? 13)%nat.

(** What [\s] matches in a [str] pattern, among the 8-bit code points:
    [str.isspace] holds of 9-13, 28-32, 0x85 and 0xa0. *)
Definition re_space (c : ascii) : bool :=
  let n := ord c in
  ((9 <=? n) && (n <=? 13))%nat || ((28 <=? n) && (n <=? 32))%nat
  || (n =? 133)%nat || (n =? 160)%nat.

Definition is_digit (c : ascii) : bool :=
  let n := ord c in ((48 <=? n) && (n <=? 57))%nat.

Fixpoint skip_ws (t : text) : text :=
  match t with
  | c :: t' => if json_ws c then skip_ws t' else t
  | [] => []
  end.

(** ** The JSON codec: [json.dump(obj, f, indent=2)] and [json.loads]

    The encoder is the standard one with [ensure_ascii] on, the item
    separator [,] and the key separator [: ]; the decoder is the strict
    scanner.  Numbers with a fraction or an exponent, the literals [NaN]
    and [Infinity], and a [\u] escape above [00ff] lie outside the
    8-bit, integer-only value space of this model: the decoder of the
    model gives up on them. *)

Definition hex_digit (n : nat) : ascii :=
  if (n <? 10)%nat then chr (48 + n) else chr (87 + n).

(** One character of a [str] as [py_encode_basestring_ascii] writes it. *)
Definition escape_char (c : ascii) : text :=
  let n := ord c in
  if (n =? 34)%nat then [backslash; dquote]
  else if (n =? 92)%nat then [backslash; backslash]
  else if (n =? 10)%nat then [backslash; "n"%char]
  else if (n =? 13)%nat then [backslash; "r"%char]
  else if (n =? 9)%nat then [backslash; "t"%char]
  else if (n =? 8)%nat then [backslash; "b"%char]
  else if (n =? 12)%nat then [backslash; "f"%char]
  else if ((32 <=? n) && (n <=? 126))%nat then [c]
  else [backslash; "u"%char; "0"%char; "0"%char;
        hex_digit (n / 16); hex_digit (n mod 16)].

Definition encode_str (s : string) : text :=
  dquote :: flat_map escape_char (T s) ++ [dquote].

Fixpoint uint_text (d : Decimal.uint) : text :=
  match d with
  | Decimal.Nil => []
  | Decimal.D0 u => "0"%char :: uint_text u
  | Decimal.D1 u => "1"%char :: uint_text u
  | Decimal.D2 u => "2"%char :: uint_text u
  | Decimal.D3 u => "3"%char :: uint_text u
  | Decimal.D4 u => "4"%char :: uint_text u
  | Decimal.D5 u => "5"%char :: uint_text u
  | Decimal.D6 u => "6"%char :: uint_text u
  | Decimal.D7 u => "7"%char :: uint_text u
  | Decimal.D8 u => "8"%char :: uint_text u
  | Decimal.D9 u => "9"%char :: uint_text u
  end.

(** [int.__repr__]. *)
Definition encode_int (n : Z) : text :=
  match Z.to_int n with
  | Decimal.Pos u => uint_text u
  | Decimal.Neg u => "-"%char :: uint_text u
  end.

(** [a.join(parts)]. *)
Fixpoint join (sep : text) (parts : list text) : text :=
  match parts with
  | [] => []
  | [p] => p
  | p :: ps => p ++ sep ++ join sep ps
  end.

(** A line break followed by the indentation of nesting level [lvl]. *)
Definition newline_indent (lvl : nat) : text :=
  newline :: repeat " "%char (2 * lvl).

(** [_iterencode] of the pure-Python encoder, at nesting level [lvl]. *)
Fixpoint encode (lvl : nat) (v : json) : text :=
  match v with
  | JNull => T "null"
  | JBool true => T "true"
  | JBool false => T "false"
  | JInt n => encode_int n
  | JStr s => encode_str s
  | JArr [] => T "[]"
  | JArr xs =>
      "["%char :: newline_indent (S lvl)
      ++ join (","%char :: newline_indent (S lvl)) (map (encode (S lvl)) xs)
      ++ newline_indent lvl ++ ["]"%char]
  | JObj [] => T "{}"
  | JObj kvs =>
      "{"%char :: newline_indent (S lvl)
      ++ join (","%char :: newline_indent (S lvl))
           (map (fun kv => encode_str (fst kv) ++ T ": " ++ encode (S lvl) (snd kv)) kvs)
      ++ newline_indent lvl ++ ["}"%char]
  end.

(** [json.dumps(v, indent=2)], the text [json.dump(v, f, indent=2)] writes. *)
Definition dumps (v : json) : string := S_ (encode 0 v).

Definition hex_val (c : ascii) : option nat :=
  let n := ord c in
  if ((48 <=? n) && (n <=? 57))%nat then Some (n - 48)
  else if ((97 <=? n) && (n <=? 102))%nat then Some (n - 87)
  else if ((65 <=? n) && (n <=? 70))%nat then Some (n - 55)
  else None.

(** The character a two-character escape stands for. *)
Definition unescape (e : ascii) : option ascii :=
  let n := ord e in
  if (n =? 34)%nat then Some dquote
  else if (n =? 92)%nat then Some backslash
  else if (n =? 47)%nat then Some "/"%char
  else if (n =? 98)%nat then Some (chr 8)
  else if (n =? 102)%nat then Some (chr 12)
  else if (n =? 110)%nat then Some (chr 10)
  else if (n =? 114)%nat then Some (chr 13)
  else if (n =? 116)%nat then Some (chr 9)
  else None.

Definition prepend (c : ascii) (r : option (string * text)) : option (string * text) :=
  match r with
  | Some (s, t) => Some (String c s, t)
  | None => None
  end.

(** [scanstring] in strict mode, from just after the opening quote. *)
Fixpoint scanstring (t : text) : option (string * text) :=
  match t with
  | [] => None
  | c :: r =>
      if Ascii.eqb c dquote then Some ("", r)
      else if Ascii.eqb c backslash then
        match r with
        | [] => None
        | e :: r1 =>
            if Ascii.eqb e "u"%char then
              match r1 with
              | h1 :: h2 :: h3 :: h4 :: r2 =>
                  match hex_val h1, hex_val h2, hex_val h3, hex_val h4 with
                  | Some a, Some b, Some c', Some d =>
                      let n := (((a * 16 + b) * 16 + c') * 16 + d)%nat in
                      if (n <? 256)%nat then prepend (chr n) (scanstring r2)
                      else None
                  | _, _, _, _ => None
                  end
              | _ => None
              end
            else
              match unescape e with
              | Some ch => prepend ch (scanstring r1)
              | None => None
              end
        end
      else if (ord c <? 32)%nat then None
      else prepend c (scanstring r)
  end.

Definition digit_of (c : ascii) : option (Decimal.uint -> Decimal.uint) :=
  let n := ord c in
  if (n =? 48)%nat then Some Decimal.D0
  else if (n =? 49)%nat then Some Decimal.D1
  else if (n =? 50)%nat then Some Decimal.D2
  else if (n =? 51)%nat then Some Decimal.D3
  else if (n =? 52)%nat then Some Decimal.D4
  else if (n =? 53)%nat then Some Decimal.D5
  else if (n =? 54)%nat then Some Decimal.D6
  else if (n =? 55)%nat then Some Decimal.D7
  else if (n =? 56)%nat then Some Decimal.D8
  else if (n =? 57)%nat then Some Decimal.D9
  else None.

Fixpoint read_digits (t : text) : Decimal.uint * text :=
  match t with
  | [] => (Decimal.Nil, [])
  | c :: t' =>
      match digit_of c with
      | Some d => let (u, r) := read_digits t' in (d u, r)
      | None => (Decimal.Nil, t)
      end
  end.

(** Does a fraction [\.[0-9]+] or an exponent [[eE][-+]?[0-9]+] follow? *)
Definition float_follows (t : text) : bool :=
  match t with
  | c :: d :: t' =>
      if Ascii.eqb c "."%char then is_digit d
      else if Ascii.eqb c "e"%char || Ascii.eqb c "E"%char then
        if is_digit d then true
        else if Ascii.eqb d "+"%char || Ascii.eqb d "-"%char then
          match t' with
          | d' :: _ => is_digit d'
          | [] => false
          end
        else false
      else false
  | _ => false
  end.

(** [NUMBER_RE] at the head of [t]; only an integer is taken. *)
Definition scan_number (t : text) : option (json * text) :=
  let (neg, t1) :=
    match t with
    | c :: r => if Ascii.eqb c "-"%char then (true, r) else (false, t)
    | [] => (false, t)
    end in
  match t1 with
  | [] => None
  | c :: r =>
      if negb (is_digit c) then None
      else
        let (u, r') :=
          if Ascii.eqb c "0"%char then (Decimal.D0 Decimal.Nil, r)
          else read_digits t1 in
        if float_follows r' then None
        else Some (JInt (Z.of_int (if neg then Decimal.Neg u else Decimal.Pos u)), r')
  end.

(** Is [lit] a prefix of [t]?  Then the rest. *)
Fixpoint strip_prefix (lit t : text) : option text :=
  match lit, t with
  | [], _ => Some t
  | a :: lit', b :: t' => if Ascii.eqb a b then strip_prefix lit' t' else None
  | _ :: _, [] => None
  end.

(** The scanner: [scan_once], with the loops of [JSONArray] and
    [JSONObject].  [fuel] bounds the number of values and items read. *)
Fixpoint scan_once (fuel : nat) (t : text) {struct fuel} : option (json * text) :=
  match fuel with
  | O => None
  | S f =>
      match t with
      | [] => None
      | c :: r =>
          if Ascii.eqb c dquote then
            match scanstring r with
            | Some (s, r') => Some (JStr s, r')
            | None => None
            end
          else if Ascii.eqb c "{"%char then
            match skip_ws r with
            | c1 :: r1 =>
                if Ascii.eqb c1 "}"%char then Some (JObj [], r1)
                else if Ascii.eqb c1 dquote then JSONObject f r1 []
                else None
            | [] => None
            end
          else if Ascii.eqb c "["%char then
            match skip_ws r with
            | c1 :: r1 =>
                if Ascii.eqb c1 "]"%char then Some (JArr [], r1)
                else JSONArray f (c1 :: r1) []
            | [] => None
            end
          else
            match strip_prefix (T "null") t with
            | Some r' => Some (JNull, r')
            | None =>
                match strip_prefix (T "true") t with
                | Some r' => Some (JBool true, r')
                | None =>
                    match strip_prefix (T "false") t with
                    | Some r' => Some (JBool false, r')
                    | None => scan_number t
                    end
                end
            end
      end
  end
with JSONArray (fuel : nat) (t : text) (acc : list json) {struct fuel}
  : option (json * text) :=
  match fuel with
  | O => None
  | S f =>
      match scan_once f t with
      | None => None
      | Some (v, r) =>
          match skip_ws r with
          | c :: r' =>
              if Ascii.eqb c "]"%char then Some (JArr (acc ++ [v]), r')
              else if Ascii.eqb c ","%char then JSONArray f (skip_ws r') (acc ++ [v])
              else None
          | [] => None
          end
      end
  end
with JSONObject (fuel : nat) (t : text) (acc : pydict json) {struct fuel}
  : option (json * text) :=
  match fuel with
  | O => None
  | S f =>
      match scanstring t with
      | None => None
      | Some (k, r) =>
          match skip_ws r with
          | c :: r1 =>
              if Ascii.eqb c ":"%char then
                match scan_once f (skip_ws r1) with
                | None => None
                | Some (v, r2) =>
                    match skip_ws r2 with
                    | c2 :: r3 =>
                        if Ascii.eqb c2 "}"%char then Some (JObj (dict_set k v acc), r3)
                        else if Ascii.eqb c2 ","%char then
                          match skip_ws r3 with
                          | c3 :: r4 =>
                              if Ascii.eqb c3 dquote
                              then JSONObject f r4 (dict_set k v acc)
                              else None
                          | [] => None
                          end
                        else None
                    | [] => None
                    end
                end
              else None
          | [] => None
          end
      end
  end.

(** [JSONDecoder.decode] on a text: one value, white space around it,
    nothing else. *)
Definition decode (t : text) : option json :=
  match scan_once (S (length t)) (skip_ws t) with
  | Some (v, r) => match skip_ws r with [] => Some v | _ => None end
  | None => None
  end.

(** [json.loads(s)]; a text the decoder rejects raises [JSONDecodeError]. *)
Definition loads (s : string) : result json :=
  match decode (T s) with
  | Some v => Ok v
  | None => Raise (Exn JSONDecodeError "Expecting value")
  end.

(** [str(n)] for an [int]. *)
Definition str_int (n : Z) : string := S_ (encode_int n).
Definition str_nat (n : nat) : string := str_int (Z.of_nat n).

(** ** Regular expressions of the source, as scanners

    [re.sub(r",\s*}", "}", s)] and [re.sub(r",\s*]", "]", s)]: every
    leftmost, non-overlapping match of a comma, white space and the
    closing character [c] is replaced by [c]. *)

(** Length of the match of [\s*c] at the head of [t], if there is one. *)
Fixpoint match_ws_then (c : ascii) (t : text) : option nat :=
  match t with
  | [] => None
  | a :: t' =>
      if re_space a then
        match match_ws_then c t' with
        | Some n => Some (S n)
        | None => if Ascii.eqb a c then Some 1%nat else None
        end
      else if Ascii.eqb a c then Some 1%nat else None
  end.

(** The scan of [re.sub]; [skip] characters of a match are still to be
    passed over. *)
Fixpoint sub_go (c : ascii) (skip : nat) (t : text) : text :=
  match t with
  | [] => []
  | a :: t' =>
      match skip with
      | S k => sub_go c k t'
      | O =>
          if Ascii.eqb a ","%char then
            match match_ws_then c t' with
            | Some n => c :: sub_go c n t'
            | None => a :: sub_go c 0 t'
            end
          else a :: sub_go c 0 t'
      end
  end.

Definition re_sub_trailing (c : ascii) (s : string) : string :=
  S_ (sub_go c 0 (T s)).

(** ** Paths

    A [Path] is its string; the functions below are [PurePath.name],
    [.suffix], [.with_suffix] and [.parent] on a path in normal form. *)

Fixpoint rfind_go (c : ascii) (t : text) (i : nat) (found : option nat) : option nat :=
  match t with
  | [] => found
  | a :: t' => rfind_go c t' (S i) (if Ascii.eqb a c then Some i else found)
  end.

(** [t.rfind(c)]. *)
Definition rfind (c : ascii) (t : text) : option nat := rfind_go c t 0 None.

Definition name_text (p : text) : text :=
  match rfind "/"%char p with
  | Some i => drop (S i) p
  | None => p
  end.

Definition path_name (p : string) : string := S_ (name_text (T p)).

Definition suffix_text (name : text) : text :=
  match rfind "."%char name with
  | Some i =>
      if ((0 <? i) && (i <? length name - 1))%nat then drop i name else []
  | None => []
  end.

Definition path_suffix (p : string) : string := S_ (suffix_text (name_text (T p))).

(** [p.with_suffix(suffix)] for one of the two constant suffixes of the
    source; a path with an empty name raises [ValueError]. *)
Definition with_suffix (p : string) (suffix : string) : result string :=
  let t := T p in
  let name := name_text t in
  match name with
  | [] => Raise (Exn ValueError "path has an empty name")
  | _ =>
      let old := suffix_text name in
      Ok (S_ (take (length t - length old) t ++ T suffix))
  end.

Definition path_parent (p : string) : string :=
  match rfind "/"%char (T p) with
  | Some O => "/"
  | Some i => S_ (take i (T p))
  | None => "."
  end.

(** ** The world: files, log, notifications, subprocess calls *)

Inductive level : Type := DEBUG | INFO | WARNING | ERROR.

(** What the next fallible system call does: it passes, or it raises
    [OSError]; a failing write has put [written] characters on disk. *)
Inductive fault : Type :=
| Pass
| Fail (written : nat).

Record world : Type := World {
  files : gmap string string;
  (** every state of [files] a concurrent reader could have seen, latest first *)
  seen : list (gmap string string);
  log : list (level * string);
  (** the arguments the notification callback was called with, in order *)
  notes : list string;
  (** the argument vectors of the subprocesses started, in order *)
  calls : list (list string);
  faults : list fault
}.

(** Code with effects: a state of type [S] is threaded through, and a
    call either returns or raises. *)
Definition St (S A : Type) : Type := S -> result A * S.

Definition M (A : Type) : Type := St world A.

Definition ret {S A} (a : A) : St S A := fun w => (Ok a, w).

Definition bind {S A B} (m : St S A) (k : A -> St S B) : St S B :=
  fun w =>
    match m w with
    | (Ok a, w') => k a w'
    | (Raise e, w') => (Raise e, w')
    end.

Definition raise {S A} (e : exn) : St S A := fun w => (Raise e, w).

Definition lift {S A} (r : result A) : St S A := fun w => (r, w).

(** [try: m except Exception as e: h e]. *)
Definition try_except {S A} (m : St S A) (h : exn -> St S A) : St S A :=
  fun w =>
    match m w with
    | (Ok a, w') => (Ok a, w')
    | (Raise e, w') => h e w'
    end.

Declare Scope py_scope.
Delimit Scope py_scope with py.
Notation "x <- m ;; k" := (bind m (fun x => k))
  (at level 100, m at next level, right associativity) : py_scope.
Notation "m ;;; k" := (bind m (fun _ => k))
  (at level 100, right associativity) : py_scope.
Local Open Scope py_scope.

Definition set_files (fs : gmap string string) : M unit :=
  fun w => (Ok tt, World fs (fs :: seen w) (log w) (notes w) (calls w) (faults w)).

Definition get_files : M (gmap string string) := fun w => (Ok (files w), w).

(** The outcome the environment has in store for the next system call. *)
Definition next_fault : M fault :=
  fun w =>
    match faults w with
    | [] => (Ok Pass, w)
    | f :: fs => (Ok f, World (files w) (seen w) (log w) (notes w) (calls w) fs)
    end.

Definition logger (l : level) (msg : string) : M unit :=
  fun w => (Ok tt, World (files w) (seen w) (log w ++ [(l, msg)]) (notes w) (calls w) (faults w)).

(** [if app_notify_callback: app_notify_callback(msg)]; [cb] tells
    whether a callback was passed. *)
Definition app_notify (cb : bool) (msg : string) : M unit :=
  fun w =>
    if cb then (Ok tt, World (files w) (seen w) (log w) (notes w ++ [msg]) (calls w) (faults w))
    else (Ok tt, w).

Definition os_error : exn := Exn OSError "system call failed".
Definition not_found (p : string) : exn :=
  Exn FileNotFoundError ("No such file or directory: " +:+ p).

(** [p.exists()]. *)
Definition path_exists (p : string) : M bool :=
  fs <- get_files ;; ret (bool_decide (is_Some (fs !! p))).

(** [with open(p, "r") as f: f.read()]. *)
Definition read_text (p : string) : M string :=
  f <- next_fault ;;
  match f with
  | Fail _ => raise os_error
  | Pass =>
      fs <- get_files ;;
      match fs !! p with
      | Some s => ret s
      | None => raise (not_found p)
      end
  end.

(** [with open(p, "w") as f: f.write(s)]: opening truncates the file,
    then the text goes to disk, wholly or, when the write fails, in part. *)
Definition write_text (p : string) (s : string) : M unit :=
  f <- next_fault ;;
  match f with
  | Fail _ => raise os_error
  | Pass =>
      fs <- get_files ;;
      set_files (<[p := ""]> fs) ;;;
      g <- next_fault ;;
      match g with
      | Fail k => set_files (<[p := S_ (take k (T s))]> fs) ;;; raise os_error
      | Pass => set_files (<[p := s]> fs)
      end
  end.

(** [shutil.copy2(src, dst)]. *)
Definition copy2 (src dst : string) : M unit :=
  f <- next_fault ;;
  match f with
  | Fail _ => raise os_error
  | Pass =>
      fs <- get_files ;;
      match fs !! src with
      | Some s => set_files (<[dst := s]> fs)
      | None => raise (not_found src)
      end
  end.

(** [os.replace(src, dst)]: one atomic step. *)
Definition os_replace (src dst : string) : M unit :=
  f <- next_fault ;;
  match f with
  | Fail _ => raise os_error
  | Pass =>
      fs <- get_files ;;
      match fs !! src with
      | Some s => set_files (<[dst := s]> (delete src fs))
      | None => raise (not_found src)
      end
  end.

(** [p.mkdir(parents=True, exist_ok=True)]; directories are not part of
    the file map, the call can only fail. *)
Definition mkdir_parents (p : string) : M unit :=
  f <- next_fault ;;
  match f with
  | Fail _ => raise os_error
  | Pass => ret tt
  end.

(** ** Index store of the content-addressed network ([jasper_arweave.py]) *)

Definition load_arweave_index (index_file : string) : M (list json) :=
  try_except
    (ex <- path_exists index_file ;;
     if negb ex then
       logger WARNING ("Archive file not found at " +:+ index_file +:+ ", returning empty list.") ;;;
       ret []
     else
       archive_content <- read_text index_file ;;
       let archive_content := re_sub_trailing "}" archive_content in
       let archive_content := re_sub_trailing "]" archive_content in
       data <- lift (loads archive_content) ;;
       match data with
       | JObj d =>
           match dict_get "files" d with
           | None =>
               logger WARNING ("Archive " +:+ index_file +:+ " has invalid structure, returning empty list.") ;;;
               ret []
           | Some (JArr entries) =>
               logger INFO ("Loaded " +:+ str_nat (length entries) +:+ " entries from " +:+ index_file) ;;;
               ret entries
           | Some _ =>
               logger ERROR ("Archive " +:+ index_file +:+ " 'files' key is not a list.") ;;;
               ret []
           end
       | _ =>
           logger WARNING ("Archive " +:+ index_file +:+ " has invalid structure, returning empty list.") ;;;
           ret []
       end)
    (fun e =>
       logger ERROR ("Error loading archive file " +:+ index_file +:+ ": " +:+ exn_text e) ;;;
       ret []).

Definition save_arweave_index (index_data : list json) (index_file : string) : M bool :=
  let archive_data := JObj [("files", JArr index_data)] in
  mkdir_parents (path_parent index_file) ;;;
  backup_file <- lift (with_suffix index_file ".json.bak") ;;
  ex <- path_exists index_file ;;
  (if ex then
     try_except
       (copy2 index_file backup_file ;;;
        logger INFO ("Created backup of archive at " +:+ backup_file))
       (fun e => logger WARNING ("Failed to create archive backup: " +:+ exn_text e))
   else ret tt) ;;;
  try_except
    (temp_file <- lift (with_suffix index_file ".tmp") ;;
     write_text temp_file (dumps archive_data) ;;;
     os_replace temp_file index_file ;;;
     logger INFO ("Successfully saved " +:+ str_nat (length index_data) +:+ " entries to " +:+ index_file) ;;;
     ret true)
    (fun e =>
       logger ERROR ("Error saving archive file " +:+ index_file +:+ ": " +:+ exn_text e) ;;;
       bex <- path_exists backup_file ;;
       (if bex then
          try_except
            (copy2 backup_file index_file ;;;
             logger INFO ("Restored archive from backup " +:+ backup_file +:+ " after save error."))
            (fun restore_error =>
               logger ERROR ("Failed to restore archive from backup: " +:+ exn_text restore_error))
        else ret tt) ;;;
       ret false).

(** [item.get(k, [])]. *)
Definition get_or_empty_list (k : string) (d : pydict json) : json :=
  match dict_get k d with
  | Some v => v
  | None => JArr []
  end.

(** The [for item in index_data] loop of [get_arweave_status]. *)
Fixpoint arweave_status_loop (uuid_value : string) (items : list json) : result string :=
  match items with
  | [] => Ok "Not uploaded"
  | item :: rest =>
      match item with
      | JObj d =>
          if py_eq_str (dict_get "uuid" d) uuid_value then
            match py_len (get_or_empty_list "arweave_hashes" d) with
            | Ok hash_count =>
                if (0 <? hash_count)%nat then
                  Ok ("Uploaded (" +:+ str_nat hash_count +:+ " version"
                      +:+ (if (hash_count =? 1)%nat then "" else "s") +:+ ")")
                else Ok "Tracked in archive, but no uploads recorded"
            | Raise e => Raise e
            end
          else arweave_status_loop uuid_value rest
      | _ => Raise (Exn AttributeError "object has no attribute 'get'")
      end
  end.

Definition get_arweave_status
  (uuid_value : string) (index_data : option (list json)) (index_file : string) : M string :=
  if String.eqb uuid_value "N/A" || String.eqb uuid_value "" then ret "No UUID found"
  else
    index_data <- match index_data with
                  | None => load_arweave_index index_file
                  | Some d => ret d
                  end ;;
    match index_data with
    | [] => ret "Not uploaded (archive not found or empty)"
    | _ => lift (arweave_status_loop uuid_value index_data)
    end.

(** ** Index store of the social network ([jasper_atproto.py]) *)

Definition atproto_default_index : string := "data/atproto_posts.json".

Definition load_atproto_posts_index (index_file : string) : M (list json) :=
  ex <- path_exists index_file ;;
  if negb ex then
    logger WARNING ("Posts index file not found at " +:+ index_file +:+ ", returning empty list.") ;;;
    ret []
  else
    try_except
      (content <- read_text index_file ;;
       data <- lift (loads content) ;;
       match data with
       | JObj d =>
           match dict_get "posts" d with
           | None =>
               logger WARNING ("Posts index " +:+ index_file +:+ " has invalid structure, returning empty list.") ;;;
               ret []
           | Some (JArr posts) =>
               logger INFO ("Loaded " +:+ str_nat (length posts) +:+ " posts from " +:+ index_file) ;;;
               ret posts
           | Some _ =>
               logger ERROR ("Posts index " +:+ index_file +:+ " 'posts' key is not a list.") ;;;
               ret []
           end
       | _ =>
           logger WARNING ("Posts index " +:+ index_file +:+ " has invalid structure, returning empty list.") ;;;
           ret []
       end)
      (fun e =>
         logger ERROR ("Error loading posts index file " +:+ index_file +:+ ": " +:+ exn_text e) ;;;
         ret []).

Definition save_atproto_posts_index (posts_data : list json) (index_file : string) : M bool :=
  try_except
    (mkdir_parents (path_parent index_file) ;;;
     write_text index_file (dumps (JObj [("posts", JArr posts_data)])) ;;;
     logger INFO ("Saved " +:+ str_nat (length posts_data) +:+ " posts to " +:+ index_file) ;;;
     ret true)
    (fun e =>
       logger ERROR ("Error saving posts index to " +:+ index_file +:+ ": " +:+ exn_text e) ;;;
       ret false).

(** The [for post in index_data] loop of [get_atproto_status]. *)
Fixpoint atproto_status_loop (uuid_value : string) (items : list json) : result string :=
  match items with
  | [] => Ok "Not posted"
  | post :: rest =>
      match post with
      | JObj d =>
          if py_eq_str (dict_get "uuid" d) uuid_value then
            Ok (if py_truthy (dict_get "url" d) then "Posted" else "Draft")
          else atproto_status_loop uuid_value rest
      | _ => Raise (Exn AttributeError "object has no attribute 'get'")
      end
  end.

Definition get_atproto_status (uuid_value : string) (index_data : option (list json)) : M string :=
  if String.eqb uuid_value "N/A" || String.eqb uuid_value "" then ret "No UUID found"
  else
    index_data <- match index_data with
                  | None => load_atproto_posts_index atproto_default_index
                  | Some d => ret d
                  end ;;
    match index_data with
    | [] => ret "Not posted (index not found or empty)"
    | _ => lift (atproto_status_loop uuid_value index_data)
    end.

(** ** Strings of the orchestration code *)

Fixpoint span (p : ascii -> bool) (t : text) : text * text :=
  match t with
  | [] => ([], [])
  | c :: t' => if p c then let (a, b) := span p t' in (c :: a, b) else ([], t)
  end.

Fixpoint drop_while (p : ascii -> bool) (t : text) : text :=
  match t with
  | [] => []
  | c :: t' => if p c then drop_while p t' else t
  end.

(** [s.strip()]. *)
Definition py_strip (s : string) : string :=
  S_ (rev (drop_while re_space (rev (drop_while re_space (T s))))).

Definition is_prefix (a t : text) : bool :=
  match strip_prefix a t with Some _ => true | None => false end.

(** [a in s] for two strings. *)
Fixpoint contains_text (a t : text) : bool :=
  is_prefix a t || match t with [] => false | _ :: t' => contains_text a t' end.

Definition contains (a s : string) : bool := contains_text (T a) (T s).

Definition lower_char (c : ascii) : ascii :=
  let n := ord c in
  if ((65 <=? n) && (n <=? 90))%nat
     || (((192 <=? n) && (n <=? 222))%nat && negb (n =? 215)%nat)
  then chr (n + 32) else c.

(** [s.lower()]. *)
Definition py_lower (s : string) : string := S_ (map lower_char (T s)).

(** [sep.join(parts)]. *)
Definition join_str (sep : string) (parts : list string) : string :=
  S_ (join (T sep) (map T parts)).

(** [s[:n]]. *)
Definition str_take (n : nat) (s : string) : string := String.substring 0 n s.

Fixpoint split_go (c : ascii) (t cur : text) : list text :=
  match t with
  | [] => [rev cur]
  | a :: t' => if Ascii.eqb a c then rev cur :: split_go c t' [] else split_go c t' (a :: cur)
  end.

(** [s.split(c)]. *)
Definition py_split (c : ascii) (s : string) : list string :=
  map S_ (split_go c (T s) []).

(** [xs[i]]. *)
Definition py_index {A} (xs : list A) (i : nat) : result A :=
  match xs !! i with
  | Some x => Ok x
  | None => Raise (Exn IndexError "list index out of range")
  end.

(** [re.search(r"AR\s+(\d+\.\d+)", s)]: the first group of the leftmost
    match. *)
Definition match_balance_at (t : text) : option text :=
  match strip_prefix (T "AR") t with
  | None => None
  | Some r =>
      let (ws, r1) := span re_space r in
      let (d1, r2) := span is_digit r1 in
      match ws, d1, r2 with
      | _ :: _, _ :: _, c :: r3 =>
          if Ascii.eqb c "."%char then
            match span is_digit r3 with
            | ([], _) => None
            | (d2, _) => Some (d1 ++ "."%char :: d2)
            end
          else None
      | _, _, _ => None
      end
  end.

Fixpoint search_balance_text (t : text) : option text :=
  match match_balance_at t with
  | Some g => Some g
  | None => match t with [] => None | _ :: t' => search_balance_text t' end
  end.

Definition search_balance (s : string) : option string :=
  S_ <$> search_balance_text (T s).

(** A Python [float], kept as the literal [float(lit)] was given. *)
Inductive pyfloat : Type := Float (lit : string).

Definition float_zero : pyfloat := Float "0.0".

(** ** The environment of the orchestration code *)

(** What starting a subprocess and waiting for it gives. *)
Inductive outcome : Type :=
| Missing
| Broken (e : exn)
| Exited (returncode : Z) (stdout stderr : result string).

Record env : Type := Env {
  (** [os.environ.get] *)
  environ : string -> option string;
  (** [Path.resolve] and [Path.home] *)
  resolve : string -> string;
  home : string;
  (** the module-level switches [jasper_arweave.TEST_MODE] and
      [jasper_atproto.TEST_MODE], which the application toggles *)
  arweave_TEST_MODE : bool;
  atproto_TEST_MODE : bool;
  (** the outcome of the [n]-th subprocess, started with the given argv;
      [Missing]: the executable is not found; the output streams are given
      as [bytes.decode] returns them *)
  run : nat -> list string -> outcome;
  (** [frontmatter.load] on the text of a file: the metadata, each value
      as [str] renders it *)
  frontmatter_load : string -> result (pydict string);
  (** [datetime.now(UTC).isoformat()] while the [n]-th file is processed *)
  now : nat -> string;
  (** the 43 characters [random.choices] draws for the [n]-th file *)
  random_tx_id : nat -> string;
  (** [repr] of a container and the format [.6f] of a float, for log lines *)
  py_repr : json -> string;
  format_6f : pyfloat -> string;
  (** group 1 of [re.search(r"https://arweave\.net/([a-zA-Z0-9_-]{43})", s)] *)
  search_arweave_url : string -> option string;
  (** [re.findall(r"\b([a-zA-Z0-9_-]{43})\b", s)] *)
  findall_tx_ids : string -> list string;
  (** group 0 of [re.search(r"https://bsky\.app/profile/[^/]+/post/[^\s]+", s)] *)
  search_bsky_url : string -> option string;
  (** group 0 of [re.search(r"at://[^\s]+", s)] *)
  search_at_uri : string -> option string
}.

(** [asyncio.create_subprocess_exec] on [argv], followed by [communicate()]. *)
Definition subprocess_exec (e : env) (argv : list string)
  : M (Z * result string * result string) :=
  fun w =>
    let w' := World (files w) (seen w) (log w) (notes w) (calls w ++ [argv]) (faults w) in
    match run e (length (calls w)) argv with
    | Missing => (Raise (Exn FileNotFoundError "No such file or directory"), w')
    | Broken x => (Raise x, w')
    | Exited rc out err => (Ok (rc, out, err), w')
    end.

Definition is_file_not_found (x : exn) : bool :=
  match exn_class x with FileNotFoundError => true | _ => false end.

(** [if not s] for an optional string. *)
Definition falsy (s : option string) : bool :=
  match s with
  | None => true
  | Some s' => String.eqb s' ""
  end.

(** ** Wallet and balance ([jasper_arweave.py]) *)

Definition env_wallet_path (e : env) : M (option string) :=
  match environ e "ARWEAVE_WALLET_PATH" with
  | Some wallet_path =>
      if String.eqb wallet_path "" then ret None
      else
        ex <- path_exists wallet_path ;;
        if ex then
          logger INFO ("Using wallet from ARWEAVE_WALLET_PATH: " +:+ wallet_path) ;;;
          ret (Some wallet_path)
        else ret None
  | None => ret None
  end.

(** The [for path in default_paths] loop of [_find_wallet_path]. *)
Fixpoint default_wallet_loop (e : env) (default_paths : list string) : M (option string) :=
  match default_paths with
  | [] =>
      logger WARNING "No Arweave wallet file found in environment variable or default locations." ;;;
      ret None
  | path :: rest =>
      let abs_path := resolve e path in
      ex <- path_exists abs_path ;;
      if ex then
        logger INFO ("Found wallet at: " +:+ abs_path) ;;;
        ret (Some abs_path)
      else
        logger DEBUG ("Tried wallet path (not found): " +:+ abs_path) ;;;
        default_wallet_loop e rest
  end.

Definition _find_wallet_path (e : env) : M (option string) :=
  found <- env_wallet_path e ;;
  match found with
  | Some wallet_path => ret (Some wallet_path)
  | None =>
      default_wallet_loop e
        [".wallet.json"; "jasper/.wallet.json"; home e +:+ "/.config/arkb/wallet.json"]
  end.

Definition arkb_not_found : string :=
  "'arkb' command not found. Please ensure Arweave Wallet Kit is installed and in PATH.".

Definition get_wallet_balance (e : env) (wallet_path : option string) : M pyfloat :=
  wallet_path <- match wallet_path with
                 | None => _find_wallet_path e
                 | Some p => ret (Some p)
                 end ;;
  match wallet_path with
  | None =>
      logger ERROR "Cannot get balance: Arweave wallet path not found." ;;;
      ret float_zero
  | Some wallet_path =>
      if String.eqb wallet_path "" then
        logger ERROR "Cannot get balance: Arweave wallet path not found." ;;;
        ret float_zero
      else
        try_except
          (proc <- subprocess_exec e ["arkb"; "balance"; "--wallet"; wallet_path] ;;
           let '(returncode, stdout, stderr) := proc in
           if negb (returncode =? 0)%Z then
             stderr_text <- lift stderr ;;
             logger ERROR ("'arkb balance' failed (code " +:+ str_int returncode +:+ "): "
                           +:+ py_strip stderr_text) ;;;
             ret float_zero
           else
             stdout_text <- lift stdout ;;
             let balance_str := py_strip stdout_text in
             match search_balance balance_str with
             | Some group1 =>
                 let balance := Float group1 in
                 logger INFO ("Wallet balance: " +:+ format_6f e balance +:+ " AR") ;;;
                 ret balance
             | None =>
                 logger ERROR ("Could not parse balance from 'arkb balance' output: " +:+ balance_str) ;;;
                 ret float_zero
             end)
          (fun x =>
             if is_file_not_found x then
               logger ERROR arkb_not_found ;;;
               ret float_zero
             else
               logger ERROR ("Error checking wallet balance: " +:+ exn_text x) ;;;
               ret float_zero)
  end.

(** ** Local variables of a batch *)

(** The two local variables a batch mutates while it runs: the index
    list that was loaded, and the result dictionary. *)
Record locals : Type := Locals {
  index_data : list json;
  results : pydict (option string)
}.

Definition L (A : Type) : Type := St (world * locals) A.

(** Code of the world run where the locals are in scope. *)
Definition zoom {A} (m : M A) : L A :=
  fun s => let (r, w') := m (fst s) in (r, (w', snd s)).

Definition get_index : L (list json) := fun s => (Ok (index_data (snd s)), s).

Definition set_index (idx : list json) : L unit :=
  fun s => (Ok tt, (fst s, Locals idx (results (snd s)))).

(** [results[file_path] = v]. *)
Definition set_result (file_path : string) (v : option string) : L unit :=
  fun s => (Ok tt, (fst s, Locals (index_data (snd s)) (dict_set file_path v (results (snd s))))).

(** Runs code with locals from their initial values. *)
Definition with_locals {A} (m : L A) (l : locals) : M (A * locals) :=
  fun w =>
    match m (w, l) with
    | (Ok a, (w', l')) => (Ok (a, l'), w')
    | (Raise x, (w', _)) => (Raise x, w')
    end.

Definition or_default (d : string) (x : option string) : string :=
  match x with Some s => s | None => d end.

Definition truthy_count (d : pydict (option string)) : nat :=
  length (filter (fun kv => negb (falsy (snd kv))) d).

Definition falsy_count (d : pydict (option string)) : nat :=
  length (filter (fun kv => falsy (snd kv)) d).

(** ** Publishing to the content-addressed network ([jasper_arweave.py]) *)

Definition DEFAULT_TAGS : list (string * string) :=
  [("Content-Type", "text/markdown"); ("App-Name", "Quartz-Notes")].

Definition tag_json (tag : string * string) : json :=
  JObj [("name", JStr (fst tag)); ("value", JStr (snd tag))].

Definition _execute_arkb_deploy (e : env) (file_path : string)
  (tags : list (string * string)) (wallet_path : string) : M (option string) :=
  let tag_args := flat_map (fun tag => ["--tag"; fst tag +:+ ":" +:+ snd tag]) tags in
  let cmd := ["arkb"; "deploy"; file_path; "--wallet"; wallet_path] ++ tag_args
             ++ ["--no-bundle"; "--auto-confirm"] in
  let name := path_name file_path in
  let done (tx_id : string) : M (option string) :=
    logger INFO ("Successfully deployed " +:+ name +:+ ", TX ID: " +:+ tx_id) ;;;
    logger INFO ("View at: https://www.arweave.net/" +:+ tx_id) ;;;
    ret (Some tx_id) in
  logger INFO ("Executing command: " +:+ join_str " " cmd) ;;;
  try_except
    (proc <- subprocess_exec e cmd ;;
     let '(returncode, stdout, stderr) := proc in
     stdout_text <- lift stdout ;;
     stderr_text <- lift stderr ;;
     logger DEBUG ("arkb deploy stdout for " +:+ name +:+ ":" +:+ S_ [newline] +:+ stdout_text) ;;;
     (if String.eqb (py_strip stderr_text) "" then ret tt
      else logger (if negb (returncode =? 0)%Z then ERROR else WARNING)
             ("arkb deploy stderr for " +:+ name +:+ ":" +:+ S_ [newline] +:+ stderr_text)) ;;;
     if negb (returncode =? 0)%Z then
       logger ERROR ("'arkb deploy' for " +:+ name +:+ " failed (code " +:+ str_int returncode +:+ ").") ;;;
       (if contains "insufficient funds" (py_lower stderr_text)
        then logger ERROR "Reason likely insufficient funds." else ret tt) ;;;
       ret None
     else
       match search_arweave_url e stdout_text with
       | Some tx_id =>
           logger INFO ("Extracted TX ID (URL): " +:+ tx_id) ;;;
           done tx_id
       | None =>
           match last (findall_tx_ids e stdout_text) with
           | Some tx_id =>
               logger INFO ("Extracted TX ID (43-char pattern): " +:+ tx_id) ;;;
               done tx_id
           | None =>
               logger ERROR ("Could not extract Arweave TX ID from 'arkb deploy' output for "
                             +:+ name +:+ ".") ;;;
               ret None
           end
       end)
    (fun x =>
       if is_file_not_found x then
         logger ERROR arkb_not_found ;;;
         ret None
       else
         logger ERROR ("Error executing 'arkb deploy' for " +:+ name +:+ ": " +:+ exn_text x) ;;;
         ret None).

Definition upload_to_arweave (e : env) (file_path : string)
  (tags : list (string * string)) (wallet_path : option string) (i : nat) : M (option string) :=
  let name := path_name file_path in
  if arweave_TEST_MODE e then
    logger INFO ("TEST MODE: Simulating Arweave upload for " +:+ name) ;;;
    let fake_tx_id := random_tx_id e i in
    logger INFO ("TEST MODE: Simulated TX ID: " +:+ fake_tx_id) ;;;
    ret (Some fake_tx_id)
  else
    wallet_path <- match wallet_path with
                   | None => _find_wallet_path e
                   | Some p => ret (Some p)
                   end ;;
    match wallet_path with
    | Some wallet =>
        if String.eqb wallet "" then
          logger ERROR ("Cannot upload " +:+ name +:+ ": Arweave wallet path not found.") ;;;
          ret None
        else
          logger INFO ("Attempting Arweave upload for " +:+ file_path +:+ " with tags: "
                       +:+ py_repr e (JArr (map tag_json tags))) ;;;
          _execute_arkb_deploy e file_path tags wallet
    | None =>
        logger ERROR ("Cannot upload " +:+ name +:+ ": Arweave wallet path not found.") ;;;
        ret None
    end.

(** The history entry of one upload. *)
Definition arweave_hash_entry (tx_id timestamp : string) : json :=
  JObj [("hash", JStr tx_id); ("timestamp", JStr timestamp);
        ("link", JStr ("https://www.arweave.net/" +:+ tx_id))].

(** The body of the [if item.get("uuid") == file_uuid] branch: the
    history is reset when it is missing or not a list, the entry is
    appended to it and the title is overwritten. *)
Definition arweave_update_item (title : string) (entry : json) (d : pydict json) : pydict json :=
  let history :=
    match dict_get "arweave_hashes" d with
    | Some (JArr hs) => hs
    | _ => []
    end in
  dict_set "title" (JStr title) (dict_set "arweave_hashes" (JArr (history ++ [entry])) d).

(** The [for item in index_data] loop of [upload_files_to_arweave]: the
    index with its first entry for [file_uuid] updated, or [None] when
    the loop ends with [found_entry] still false. *)
Fixpoint arweave_find_update (file_uuid title : string) (entry : json) (items : list json)
  : result (option (list json)) :=
  match items with
  | [] => Ok None
  | item :: rest =>
      match item with
      | JObj d =>
          if py_eq_str (dict_get "uuid" d) file_uuid then
            Ok (Some (JObj (arweave_update_item title entry d) :: rest))
          else
            match arweave_find_update file_uuid title entry rest with
            | Ok (Some rest') => Ok (Some (item :: rest'))
            | Ok None => Ok None
            | Raise x => Raise x
            end
      | _ => Raise (Exn AttributeError "object has no attribute 'get'")
      end
  end.

Definition arweave_new_item (file_uuid title : string) (entry : json) : json :=
  JObj [("uuid", JStr file_uuid); ("title", JStr title); ("arweave_hashes", JArr [entry])].

(** Find-or-append of the content-addressed index, as one function of
    the index. *)
Definition arweave_record (file_uuid title : string) (entry : json) (items : list json)
  : result (list json) :=
  match arweave_find_update file_uuid title entry items with
  | Ok (Some items') => Ok items'
  | Ok None => Ok (items ++ [arweave_new_item file_uuid title entry])
  | Raise x => Raise x
  end.

(** One turn of the [for file_path in files_to_upload] loop; [i] counts
    the turns. *)
Definition upload_one (e : env) (cb : bool) (index_file : string)
  (wallet_path : option string) (i : nat) (file_path : string) : L unit :=
  let name := path_name file_path in
  set_result file_path None ;;;
  try_except
    (zoom (logger INFO ("Processing for Arweave upload: " +:+ name)) ;;;
     content <- zoom (read_text file_path) ;;
     post <- lift (frontmatter_load e content) ;;
     let file_uuid := or_default "" (dict_get "uuid" post) in
     let title := or_default "Untitled" (dict_get "title" post) in
     let file_type := or_default "" (dict_get "type" post) in
     if String.eqb file_uuid "" then
       let error_msg := "Skipping " +:+ name +:+ ": No UUID found in frontmatter." in
       zoom (logger ERROR error_msg) ;;;
       zoom (app_notify cb error_msg)
     else
       let tags := DEFAULT_TAGS ++ [("UUID", file_uuid)]
                   ++ (if String.eqb file_type "" then [] else [("Type", file_type)]) in
       tx <- zoom (upload_to_arweave e file_path tags wallet_path i) ;;
       match tx with
       | Some tx_id =>
           if String.eqb tx_id "" then
             let error_msg := "Failed to upload " +:+ name +:+ " to Arweave." in
             zoom (logger ERROR error_msg) ;;;
             zoom (app_notify cb error_msg)
           else
             set_result file_path (Some tx_id) ;;;
             let timestamp := now e i in
             let entry := arweave_hash_entry tx_id timestamp in
             idx <- get_index ;;
             found <- lift (arweave_find_update file_uuid title entry idx) ;;
             match found with
             | Some idx' =>
                 set_index idx' ;;;
                 zoom (logger INFO ("Updated existing Arweave index entry for " +:+ file_uuid))
             | None =>
                 set_index (idx ++ [arweave_new_item file_uuid title entry]) ;;;
                 zoom (logger INFO ("Created new Arweave index entry for " +:+ file_uuid))
             end ;;;
             idx2 <- get_index ;;
             saved <- zoom (save_arweave_index idx2 index_file) ;;
             (if saved then ret tt
              else
                let error_msg := "Critical: Failed to save updated Arweave index after uploading "
                                 +:+ name +:+ "!" in
                zoom (logger ERROR error_msg) ;;;
                zoom (app_notify cb error_msg)) ;;;
             zoom (app_notify cb ("Uploaded " +:+ name +:+ ": " +:+ str_take 10 tx_id +:+ "..."))
       | None =>
           let error_msg := "Failed to upload " +:+ name +:+ " to Arweave." in
           zoom (logger ERROR error_msg) ;;;
           zoom (app_notify cb error_msg)
       end)
    (fun x =>
       zoom (logger ERROR ("Error processing " +:+ name +:+ ": " +:+ exn_text x)) ;;;
       zoom (app_notify cb ("Error uploading " +:+ name))).

Fixpoint upload_loop (e : env) (cb : bool) (index_file : string)
  (wallet_path : option string) (i : nat) (files_to_upload : list string) : L unit :=
  match files_to_upload with
  | [] => ret tt
  | file_path :: rest =>
      upload_one e cb index_file wallet_path i file_path ;;;
      upload_loop e cb index_file wallet_path (S i) rest
  end.

(** [{file_path: None for file_path in files}]. *)
Definition all_failed (files : list string) : pydict (option string) :=
  fold_left (fun d f => dict_set f None d) files [].

(** The dictionary whose [repr] the closing log line shows. *)
Definition results_summary (res : pydict (option string)) : json :=
  JObj (fold_left
          (fun d kv =>
             dict_set (path_name (fst kv))
               (JStr (match snd kv with
                      | Some txid => if String.eqb txid "" then "Failed" else str_take 6 txid +:+ "..."
                      | None => "Failed"
                      end)) d)
          res []).

Definition upload_files_to_arweave (e : env) (files_to_upload : list string)
  (cb : bool) (index_file : string) : M (pydict (option string)) :=
  match files_to_upload with
  | [] =>
      logger INFO "No files provided for Arweave upload." ;;;
      ret []
  | _ =>
      wallet_path <- _find_wallet_path e ;;
      if falsy wallet_path && negb (arweave_TEST_MODE e) then
        let error_msg := "Arweave upload cannot proceed: Wallet path not found." in
        logger ERROR error_msg ;;;
        app_notify cb error_msg ;;;
        ret (all_failed files_to_upload)
      else
        let n := str_nat (length files_to_upload) in
        logger INFO ("Starting Arweave upload process for " +:+ n +:+ " files.") ;;;
        app_notify cb ("Starting Arweave upload for " +:+ n +:+ " files...") ;;;
        loaded <- load_arweave_index index_file ;;
        out <- with_locals (upload_loop e cb index_file wallet_path 0 files_to_upload)
                 (Locals loaded []) ;;
        let upload_results := results (snd out) in
        logger INFO ("Arweave upload process completed. Results: "
                     +:+ py_repr e (results_summary upload_results)) ;;;
        let success_count := truthy_count upload_results in
        let fail_count := (Z.of_nat (length files_to_upload) - Z.of_nat success_count)%Z in
        app_notify cb ("Arweave upload finished: " +:+ str_nat success_count +:+ " succeeded, "
                       +:+ str_int fail_count +:+ " failed.") ;;;
        ret upload_results
  end.

(** ** Publishing to the social network ([jasper_atproto.py]) *)

Record ATProtoCredentials : Type := Credentials {
  handle : json;
  email : json;
  password : json
}.

Definition atproto_default_creds : string := "data/atproto_credentials.json".

(** [field in data]. *)
Definition py_in (field : string) (data : json) : result bool :=
  match data with
  | JObj d => Ok (bool_decide (is_Some (dict_get field d)))
  | JArr xs => Ok (existsb (fun x => py_eq_str (Some x) field) xs)
  | JStr s => Ok (contains field s)
  | _ => Raise (Exn TypeError "argument is not iterable")
  end.

(** [all(field in data for field in fields)]. *)
Fixpoint py_all_in (fields : list string) (data : json) : result bool :=
  match fields with
  | [] => Ok true
  | f :: rest =>
      match py_in f data with
      | Ok true => py_all_in rest data
      | Ok false => Ok false
      | Raise x => Raise x
      end
  end.

(** [data[k]] for a string [k]. *)
Definition py_getitem (data : json) (k : string) : result json :=
  match data with
  | JObj d =>
      match dict_get k d with
      | Some v => Ok v
      | None => Raise (Exn KeyError k)
      end
  | _ => Raise (Exn TypeError "indices must be integers")
  end.

Definition load_atproto_credentials (e : env) (creds_file : string)
  : M (option ATProtoCredentials) :=
  let bsky_user := environ e "BSKY_USER" in
  let bsky_password := environ e "BSKY_PASSWORD" in
  if negb (falsy bsky_user) && negb (falsy bsky_password) then
    let user := or_default "" bsky_user in
    logger INFO ("Using AT Protocol credentials from environment variables for " +:+ user) ;;;
    ret (Some (Credentials (JStr user) (JStr user) (JStr (or_default "" bsky_password))))
  else
    ex <- path_exists creds_file ;;
    if negb ex then
      logger WARNING ("Credentials file not found at " +:+ creds_file
                      +:+ " and no environment variables set") ;;;
      ret None
    else
      try_except
        (content <- read_text creds_file ;;
         data <- lift (loads content) ;;
         complete <- lift (py_all_in ["handle"; "email"; "password"] data) ;;
         if negb complete then
           logger WARNING "Credentials file missing required fields: ['handle', 'email', 'password']" ;;;
           ret None
         else
           h <- lift (py_getitem data "handle") ;;
           m <- lift (py_getitem data "email") ;;
           p <- lift (py_getitem data "password") ;;
           ret (Some (Credentials h m p)))
        (fun x =>
           logger ERROR ("Error loading credentials from " +:+ creds_file +:+ ": " +:+ exn_text x) ;;;
           ret None).

(** [f"{v}"] for a value read from a document: a string as it is, any
    other value as [repr] shows it. *)
Definition py_format (e : env) (v : json) : string :=
  match v with
  | JStr s => s
  | _ => py_repr e v
  end.

(** The dictionary of the three fields, in the order they are set. *)
Definition credentials_json (c : ATProtoCredentials) : json :=
  JObj [("handle", handle c); ("email", email c); ("password", password c)].

Definition save_atproto_credentials (e : env) (credentials : ATProtoCredentials)
  (creds_file : string) : M bool :=
  try_except
    (mkdir_parents (path_parent creds_file) ;;;
     write_text creds_file (dumps (credentials_json credentials)) ;;;
     logger INFO ("Saved AT Protocol credentials for " +:+ py_format e (handle credentials)) ;;;
     ret true)
    (fun x =>
       logger ERROR ("Error saving credentials to " +:+ creds_file +:+ ": " +:+ exn_text x) ;;;
       ret false).

(** [check_atproto_connection]; the pauses are not modelled. *)
Definition check_atproto_connection (e : env) (credentials : option ATProtoCredentials)
  : M bool :=
  if atproto_TEST_MODE e then
    logger INFO "TEST MODE: Simulating successful AT Protocol connection" ;;;
    ret true
  else
    credentials <- match credentials with
                   | None => load_atproto_credentials e atproto_default_creds
                   | Some c => ret (Some c)
                   end ;;
    match credentials with
    | None =>
        logger ERROR "No AT Protocol credentials found" ;;;
        ret false
    | Some c =>
        logger INFO ("Checking connection for " +:+ py_format e (handle c)
                     +:+ " (no actual check implemented yet)") ;;;
        ret true
    end.

Definition save_env_credentials_to_file (e : env) (creds_file : string) : M bool :=
  let bsky_user := environ e "BSKY_USER" in
  let bsky_password := environ e "BSKY_PASSWORD" in
  if falsy bsky_user || falsy bsky_password then
    logger WARNING "Cannot save credentials: BSKY_USER and BSKY_PASSWORD environment variables not set" ;;;
    ret false
  else
    let user := or_default "" bsky_user in
    save_atproto_credentials e
      (Credentials (JStr user) (JStr user) (JStr (or_default "" bsky_password))) creds_file.

Definition installation_guide : string :=
  "
bsky CLI not found. To install:

1. Install Node.js (https://nodejs.org)
2. Run: npm install -g @atproto/cli
3. Run: bsky login
4. Follow the prompts to authenticate with your Bluesky account
".

Definition check_bsky_cli_installed (e : env) : M (bool * string) :=
  try_except
    (proc <- subprocess_exec e ["bsky"; "--version"] ;;
     let '(returncode, stdout, stderr) := proc in
     if (returncode =? 0)%Z then
       version <- lift stdout ;;
       ret (true, "bsky CLI is installed: " +:+ py_strip version)
     else ret (false, "bsky CLI is installed but returned an error"))
    (fun x =>
       if is_file_not_found x then ret (false, installation_guide)
       else ret (false, "Error checking bsky CLI: " +:+ exn_text x)).

(** [str(b)] for a [bool]. *)
Definition str_bool (b : bool) : string := if b then "True" else "False".

Definition post_to_atproto (e : env) (file_path : string)
  (credentials : option ATProtoCredentials) (cb : bool) (user_text : string)
  : M (option string) :=
  let name := path_name file_path in
  let fail (error_msg : string) : M (option string) :=
    logger ERROR error_msg ;;;
    app_notify cb error_msg ;;;
    ret None in
  logger INFO ("DEBUGGING: post_to_atproto called with TEST_MODE=" +:+ str_bool (atproto_TEST_MODE e)) ;;;
  if atproto_TEST_MODE e then
    logger INFO ("TEST MODE: Simulating AT Protocol post for " +:+ name) ;;;
    (if String.eqb user_text ""
     then logger INFO "TEST MODE: No user text provided, post would be empty"
     else logger INFO ("TEST MODE: User text: " +:+ user_text)) ;;;
    ret (Some "https://bsky.app/profile/test.bsky.social/post/fake123")
  else
    credentials <- match credentials with
                   | None => load_atproto_credentials e atproto_default_creds
                   | Some c => ret (Some c)
                   end ;;
    match credentials with
    | None => fail "Cannot post: No AT Protocol credentials found"
    | Some _ =>
        try_except
          (let post_content := user_text in
           logger INFO ("DEBUGGING: Actual post content: '" +:+ post_content +:+ "'") ;;;
           if String.eqb post_content "" then fail "Cannot post: Empty post content"
           else
             cli <- check_bsky_cli_installed e ;;
             let '(is_cli_installed, cli_message) := cli in
             logger INFO ("DEBUGGING: bsky CLI installed: " +:+ str_bool is_cli_installed
                          +:+ ", message: " +:+ cli_message) ;;;
             if negb is_cli_installed then fail ("Cannot post: " +:+ cli_message)
             else
               logger INFO "Checking if user is authenticated with Bluesky..." ;;;
               check_proc <- subprocess_exec e ["bsky"; "show-session"] ;;
               let '(check_code, check_out, check_err) := check_proc in
               stdout_str <- lift check_out ;;
               stderr_str <- lift check_err ;;
               logger INFO ("DEBUGGING: bsky show-session result: code=" +:+ str_int check_code
                            +:+ ", stdout=" +:+ stdout_str) ;;;
               if negb (check_code =? 0)%Z then
                 fail "Cannot post: Not authenticated with Bluesky. Please run 'bsky login' in terminal"
               else
                 logger INFO ("DEBUGGING: About to execute bsky post command with content: '"
                              +:+ post_content +:+ "'") ;;;
                 app_notify cb "Posting to Bluesky..." ;;;
                 post_proc <- subprocess_exec e ["bsky"; "post"; post_content] ;;
                 let '(post_code, post_out, post_err) := post_proc in
                 logger INFO "DEBUGGING: bsky post command executed, waiting for result..." ;;;
                 stdout_str <- lift post_out ;;
                 stderr_str <- lift post_err ;;
                 logger INFO ("DEBUGGING: bsky post command completed with return code: "
                              +:+ str_int post_code) ;;;
                 logger INFO ("bsky post stdout: " +:+ stdout_str) ;;;
                 (if String.eqb stderr_str "" then ret tt
                  else logger INFO ("bsky post stderr: " +:+ stderr_str)) ;;;
                 if negb (post_code =? 0)%Z then
                   fail ("Failed to post to Bluesky. Error: " +:+ stderr_str)
                 else
                   let url_match := search_bsky_url e stdout_str in
                   let at_uri_match := search_at_uri e stdout_str in
                   logger INFO ("DEBUGGING: URL match found: "
                                +:+ str_bool (bool_decide (is_Some url_match))
                                +:+ ", AT URI match found: "
                                +:+ str_bool (bool_decide (is_Some at_uri_match))) ;;;
                   logger INFO ("DEBUGGING: Full stdout: '" +:+ stdout_str +:+ "'") ;;;
                   match url_match, at_uri_match with
                   | Some post_url, _ =>
                       logger INFO ("Successfully posted to Bluesky: " +:+ post_url) ;;;
                       app_notify cb ("Successfully posted to Bluesky: " +:+ post_url) ;;;
                       ret (Some post_url)
                   | None, Some at_uri =>
                       let parts := py_split "/" at_uri in
                       if (4 <=? length parts)%nat then
                         hdl <- lift (py_index parts 2) ;;
                         post_id <- lift (py_index parts 4) ;;
                         let post_url := "https://bsky.app/profile/" +:+ hdl +:+ "/post/" +:+ post_id in
                         logger INFO ("Successfully posted to Bluesky: " +:+ post_url) ;;;
                         app_notify cb ("Successfully posted to Bluesky: " +:+ post_url) ;;;
                         ret (Some post_url)
                       else
                         logger INFO ("Posted to Bluesky with AT URI: " +:+ at_uri) ;;;
                         app_notify cb ("Posted to Bluesky (URI: " +:+ at_uri +:+ ")") ;;;
                         ret (Some at_uri)
                   | None, None =>
                       logger INFO "DEBUGGING: Posted to Bluesky successfully, but couldn't extract URL from output" ;;;
                       app_notify cb "Posted to Bluesky successfully" ;;;
                       logger INFO "DEBUGGING: Instead of generic URL, returning command output as success indication" ;;;
                       ret (Some ("Command succeeded but couldn't extract URL. Output: "
                                  +:+ str_take 100 stdout_str))
                   end)
          (fun x => fail ("Error posting to AT Protocol: " +:+ exn_text x))
    end.

(** The body of the [if item.get("uuid") == file_uuid] branch: the three
    fields are overwritten. *)
Definition atproto_update_item (title post_url timestamp : string) (d : pydict json)
  : pydict json :=
  dict_set "posted_at" (JStr timestamp)
    (dict_set "title" (JStr title) (dict_set "url" (JStr post_url) d)).

(** The [for item in posts_index] loop of [post_files_to_atproto]. *)
Fixpoint atproto_find_update (file_uuid title post_url timestamp : string) (items : list json)
  : result (option (list json)) :=
  match items with
  | [] => Ok None
  | item :: rest =>
      match item with
      | JObj d =>
          if py_eq_str (dict_get "uuid" d) file_uuid then
            Ok (Some (JObj (atproto_update_item title post_url timestamp d) :: rest))
          else
            match atproto_find_update file_uuid title post_url timestamp rest with
            | Ok (Some rest') => Ok (Some (item :: rest'))
            | Ok None => Ok None
            | Raise x => Raise x
            end
      | _ => Raise (Exn AttributeError "object has no attribute 'get'")
      end
  end.

Definition atproto_new_item (file_uuid title post_url timestamp : string) : json :=
  JObj [("uuid", JStr file_uuid); ("title", JStr title);
        ("url", JStr post_url); ("posted_at", JStr timestamp)].


(** One turn of the [for file_path in files_to_post] loop. *)
Definition post_one (e : env) (cb : bool) (index_file : string)
  (credentials : option ATProtoCredentials) (user_text : string)
  (i : nat) (file_path : string) : L unit :=
  let name := path_name file_path in
  set_result file_path None ;;;
  try_except
    (zoom (logger INFO ("Processing for AT Protocol posting: " +:+ name)) ;;;
     meta <- try_except
               (content <- zoom (read_text file_path) ;;
                post <- lift (frontmatter_load e content) ;;
                ret (or_default "" (dict_get "uuid" post),
                     or_default "Untitled" (dict_get "title" post)))
               (fun x =>
                  zoom (logger WARNING ("Could not parse frontmatter for " +:+ name +:+ ": "
                                        +:+ exn_text x)) ;;;
                  ret ("", name)) ;;
     let '(file_uuid, title) := meta in
     zoom (logger INFO ("DEBUGGING: Sending post with user_text: '" +:+ user_text +:+ "'")) ;;;
     posted <- zoom (post_to_atproto e file_path credentials cb user_text) ;;
     (match posted with
      | Some post_url =>
          if negb (String.eqb post_url "") && contains "test" post_url then
            zoom (logger WARNING ("DEBUGGING: Returned URL contains 'test', suggesting TEST_MODE behavior: "
                                  +:+ post_url))
          else ret tt
      | None => ret tt
      end) ;;;
     match posted with
     | Some post_url =>
         if String.eqb post_url "" then
           let error_msg := "Failed to post " +:+ name +:+ " to AT Protocol." in
           zoom (logger ERROR error_msg) ;;;
           zoom (app_notify cb error_msg)
         else
           set_result file_path (Some post_url) ;;;
           (if String.eqb file_uuid "" then
              zoom (logger INFO ("No UUID found for " +:+ name +:+ ", not updating index"))
            else
              let timestamp := now e i in
              idx <- get_index ;;
              found <- lift (atproto_find_update file_uuid title post_url timestamp idx) ;;
              match found with
              | Some idx' =>
                  set_index idx' ;;;
                  zoom (logger INFO ("Updated existing AT Protocol index entry for " +:+ file_uuid))
              | None =>
                  set_index (idx ++ [atproto_new_item file_uuid title post_url timestamp]) ;;;
                  zoom (logger INFO ("Created new AT Protocol index entry for " +:+ file_uuid))
              end ;;;
              idx2 <- get_index ;;
              saved <- zoom (save_atproto_posts_index idx2 index_file) ;;
              if saved then ret tt
              else
                let error_msg := "Failed to save updated AT Protocol index after posting "
                                 +:+ name +:+ "!" in
                zoom (logger ERROR error_msg) ;;;
                zoom (app_notify cb error_msg)) ;;;
           zoom (app_notify cb ("Posted " +:+ name +:+ " to AT Protocol"))
     | None =>
         let error_msg := "Failed to post " +:+ name +:+ " to AT Protocol." in
         zoom (logger ERROR error_msg) ;;;
         zoom (app_notify cb error_msg)
     end)
    (fun x =>
       zoom (logger ERROR ("Error processing " +:+ name +:+ " for AT Protocol: " +:+ exn_text x)) ;;;
       zoom (app_notify cb ("Error posting " +:+ name))).

Fixpoint post_loop (e : env) (cb : bool) (index_file : string)
  (credentials : option ATProtoCredentials) (user_text : string)
  (i : nat) (files_to_post : list string) : L unit :=
  match files_to_post with
  | [] => ret tt
  | file_path :: rest =>
      post_one e cb index_file credentials user_text i file_path ;;;
      post_loop e cb index_file credentials user_text (S i) rest
  end.

Definition post_files_to_atproto (e : env) (files_to_post : list string)
  (cb : bool) (index_file : string) (user_text : string) : M (pydict (option string)) :=
  logger INFO ("DEBUGGING: post_files_to_atproto called with TEST_MODE="
               +:+ str_bool (atproto_TEST_MODE e)) ;;;
  match files_to_post with
  | [] =>
      logger INFO "No files provided for AT Protocol posting." ;;;
      ret []
  | _ =>
      credentials <- load_atproto_credentials e atproto_default_creds ;;
      if bool_decide (credentials = None :> option ATProtoCredentials)
         && negb (atproto_TEST_MODE e) then
        let error_msg := "AT Protocol posting cannot proceed: No credentials found." in
        logger ERROR error_msg ;;;
        app_notify cb error_msg ;;;
        ret (all_failed files_to_post)
      else
        let n := str_nat (length files_to_post) in
        logger INFO ("Starting AT Protocol posting process for " +:+ n +:+ " files.") ;;;
        app_notify cb ("Starting AT Protocol posting for " +:+ n +:+ " files...") ;;;
        posts_index <- load_atproto_posts_index index_file ;;
        out <- with_locals (post_loop e cb index_file credentials user_text 0 files_to_post)
                 (Locals posts_index []) ;;
        let post_results := results (snd out) in
        let completed_msg :=
          "AT Protocol posting process completed: " +:+ str_nat (truthy_count post_results)
          +:+ " succeeded, " +:+ str_nat (falsy_count post_results) +:+ " failed." in
        logger INFO completed_msg ;;;
        app_notify cb completed_msg ;;;
        ret post_results
  end.

(** ** Selection tracker ([ContentTree] of [jasper.py]) *)

(** A node of the tree widget: its [data] (a path, or [None] for an
    error leaf) and its children.  Labels are display state and are not
    modelled. *)
#[local] Unset Elimination Schemes.
Inductive TreeNode : Type :=
| Node (data : option string) (children : list TreeNode).
#[local] Set Elimination Schemes.

Definition node_data (n : TreeNode) : option string :=
  match n with Node d _ => d end.

Section ContentTree.

(** [Path.is_dir], a query of the file system. *)
Variable is_dir : string -> bool.

Fixpoint _find_child_file_nodes (parent_node : TreeNode) : list TreeNode :=
  match parent_node with
  | Node _ children =>
      flat_map
        (fun child =>
           match node_data child with
           | Some p => if negb (is_dir p) then [child] else _find_child_file_nodes child
           | None => []
           end)
        children
  end.

(** The paths of the file nodes under [node]. *)
Definition child_file_paths (node : TreeNode) : list string :=
  omap node_data (_find_child_file_nodes node).

(** [toggle_directory_selection]: the new value of [self.queued_files]. *)
Definition toggle_directory_selection (queued_files : gset string) (node : TreeNode)
  : gset string :=
  let child_file_nodes := _find_child_file_nodes node in
  match child_file_nodes with
  | [] => queued_files
  | _ =>
      let paths := child_file_paths node in
      let all_selected := forallb (fun p => bool_decide (p ∈ queued_files)) paths in
      if all_selected then queued_files ∖ list_to_set paths
      else queued_files ∪ list_to_set paths
  end.

(** [toggle_file_selection]: the new value of [self.queued_files]. *)
Definition toggle_file_selection (queued_files : gset string) (node : TreeNode)
  : gset string :=
  match node_data node with
  | Some path =>
      if negb (is_dir path) then
        if bool_decide (path ∈ queued_files) then queued_files ∖ {[path]}
        else queued_files ∪ {[path]}
      else queued_files
  | None => queued_files
  end.

End ContentTree.

(** * Properties *)

(** ** Status resolution *)





(** The history of a record of the content-addressed index: the list
    under [arweave_hashes], empty when there is none. *)
Definition history_of (d : pydict json) : list json :=
  match dict_get "arweave_hashes" d with
  | Some (JArr hs) => hs
  | _ => []
  end.









Definition sample_history : json :=
  JArr [JObj [("hash", JStr "h1"); ("timestamp", JStr "2024-01-01T00:00:00Z");
              ("link", JStr "https://x/h1")]].

Definition sample_snapshot : list (pydict json) :=
  [[("uuid", JStr "abc"); ("title", JStr "T"); ("arweave_hashes", sample_history)]].

Definition empty_world : world := World ∅ [] [] [] [] [].


(** C10.  The placeholder [N/A] is an absent identifier for both
    resolvers: as for the empty string the answer is the no-identifier
    text, whatever snapshot is passed (or none), and nothing is read. *)
Theorem C10_placeholder_is_no_identifier
  (index_data : option (list json)) (index_file : string) (w : world) :
  get_arweave_status "N/A" index_data index_file w = (Ok "No UUID found", w)
  /\ get_atproto_status "N/A" index_data w = (Ok "No UUID found", w)
  /\ get_arweave_status "N/A" index_data index_file w
     = get_arweave_status "" index_data index_file w
  /\ get_atproto_status "N/A" index_data w = get_atproto_status "" index_data w.
Proof. repeat split. Qed.

(** ** Find-or-append *)























Definition second_entry : json := arweave_hash_entry "h2" "2024-02-01T00:00:00+00:00".


(** The scenario of the specification: publishing [abc] again with the
    token [h2] gives a history of two entries, [h1] then [h2]. *)
Example repeat_publish_appends :
  exists d, arweave_record "abc" "T" second_entry (map JObj sample_snapshot) = Ok [JObj d]
            /\ map (fun h => match h with JObj e => dict_get "hash" e | _ => None end)
                 (history_of d) = [Some (JStr "h1"); Some (JStr "h2")].
Proof. eexists. split; reflexivity. Qed.

(** ** Directory toggle *)

Section ToggleProperties.

Variable is_dir : string -> bool.

Lemma forallb_selected (q : gset string) (paths : list string) :
  forallb (fun p => bool_decide (p ∈ q)) paths = true <-> forall p, p ∈ paths -> p ∈ q.
Proof.
  rewrite forallb_forall. split.
  - intros H p Hp. apply list_elem_of_In in Hp. apply H in Hp.
    apply bool_decide_eq_true in Hp. exact Hp.
  - intros H p Hp. apply bool_decide_eq_true. apply H. apply list_elem_of_In. exact Hp.
Qed.

(** Every file node carries a path, so the paths are as many as the nodes. *)
Lemma file_nodes_have_paths (node : TreeNode) :
  Forall (fun n => is_Some (node_data n)) (_find_child_file_nodes is_dir node).
Proof.
  revert node. fix IH 1. intros [d children]. cbn [_find_child_file_nodes].
  induction children as [|c cs IHcs]; cbn [flat_map]; [constructor|].
  apply Forall_app. split; [|exact IHcs].
  destruct (node_data c) as [p|] eqn:Ec; [|constructor].
  destruct (negb (is_dir p)).
  - constructor; [rewrite Ec; eexists; reflexivity|constructor].
  - apply IH.
Qed.

Lemma child_file_paths_nil (node : TreeNode) :
  child_file_paths is_dir node = [] <-> _find_child_file_nodes is_dir node = [].
Proof.
  unfold child_file_paths. pose proof (file_nodes_have_paths node) as H.
  destruct (_find_child_file_nodes is_dir node) as [|n ns]; [split; reflexivity|].
  apply Forall_cons in H as [[p Hp] _]. cbn. rewrite Hp. cbn. split; discriminate.
Qed.

(** One toggle, in terms of the set of files under the node. *)
Lemma toggle_directory_selection_eq (q : gset string) (node : TreeNode) :
  let paths := child_file_paths is_dir node in
  toggle_directory_selection is_dir q node
  = if forallb (fun p => bool_decide (p ∈ q)) paths then q ∖ list_to_set paths
    else q ∪ list_to_set paths.
Proof.
  intros paths. unfold toggle_directory_selection.
  destruct (_find_child_file_nodes is_dir node) as [|n ns] eqn:E; [|reflexivity].
  apply child_file_paths_nil in E. subst paths. rewrite E. cbn. set_solver.
Qed.

End ToggleProperties.

Definition two_files : TreeNode :=
  Node (Some "notes") [Node (Some "notes/a.md") []; Node (Some "notes/b.md") []].

Definition only_notes_is_dir (p : string) : bool := String.eqb p "notes".

(** C6, as stated, fails: with one of two files selected, two toggles of
    the directory leave none of them selected instead of the one. *)
Lemma C6_partial_selection_not_restored :
  let q : gset string := {[ "notes/a.md" ]} in
  let q2 := toggle_directory_selection only_notes_is_dir
              (toggle_directory_selection only_notes_is_dir q two_files) two_files in
  child_file_paths only_notes_is_dir two_files = ["notes/a.md"; "notes/b.md"]
  /\ "notes/a.md" ∈ q /\ "notes/a.md" ∉ q2.
Proof. vm_compute. repeat split. discriminate. Qed.

(** C6, amended.  For a directory with at least one file under it, one
    toggle removes all of these files from the selection when all of
    them are selected and adds all of them otherwise.  Two toggles in
    succession give back the selection when the files were all selected
    or all unselected; from any other selection they leave none of the
    files selected, the rest of the selection being untouched. *)
Theorem C6_directory_toggle
  (is_dir : string -> bool) (q : gset string) (node : TreeNode) :
  child_file_paths is_dir node <> [] ->
  let files : gset string := list_to_set (child_file_paths is_dir node) in
  let toggle := fun s => toggle_directory_selection is_dir s node in
  (files ⊆ q -> toggle q = q ∖ files)
  /\ (~ files ⊆ q -> toggle q = q ∪ files)
  /\ (files ⊆ q \/ files ## q -> toggle (toggle q) = q)
  /\ (~ files ⊆ q -> toggle (toggle q) = q ∖ files).
Proof.
  intros Hne files toggle. subst toggle. cbv beta.
  assert (forall s : gset string,
            forallb (fun p => bool_decide (p ∈ s)) (child_file_paths is_dir node) = true
            <-> files ⊆ s) as Hall.
  { intros s. rewrite forallb_selected. subst files. split.
    - intros H p Hp. apply elem_of_list_to_set in Hp. auto.
    - intros H p Hp. apply H. apply elem_of_list_to_set. exact Hp. }
  assert (exists p, p ∈ files) as [p0 Hp0].
  { destruct (child_file_paths is_dir node) as [|p ps] eqn:E; [contradiction|].
    exists p. subst files. apply elem_of_list_to_set. left. }
  assert (forall s, files ⊆ s ->
            toggle_directory_selection is_dir s node = s ∖ files) as Hoff.
  { intros s Hs. rewrite toggle_directory_selection_eq. cbv zeta.
    apply Hall in Hs. rewrite Hs. reflexivity. }
  assert (forall s, ~ files ⊆ s ->
            toggle_directory_selection is_dir s node = s ∪ files) as Hon.
  { intros s Hs. rewrite toggle_directory_selection_eq. cbv zeta.
    destruct (forallb _ _) eqn:E; [|reflexivity].
    apply Hall in E. contradiction. }
  assert (~ files ⊆ q ∖ files) as Hnone by set_solver.
  repeat split.
  - apply Hoff.
  - apply Hon.
  - intros [Hin|Hout].
    + rewrite (Hoff q Hin), (Hon _ Hnone). apply set_eq. intros x.
      destruct (decide (x ∈ files)); set_solver.
    + destruct (decide (files ⊆ q)) as [Hin|Hnin]; [set_solver|].
      rewrite (Hon q Hnin), Hoff by set_solver. set_solver.
  - intros Hnin. rewrite (Hon q Hnin), Hoff by set_solver. set_solver.
Qed.

Lemma C6_directory_toggle_witness :
  child_file_paths only_notes_is_dir two_files <> []
  /\ toggle_directory_selection only_notes_is_dir
       (toggle_directory_selection only_notes_is_dir ∅ two_files) two_files = ∅.
Proof.
  assert (child_file_paths only_notes_is_dir two_files <> []) as Hne by (vm_compute; discriminate).
  split; [exact Hne|].
  apply (proj1 (proj2 (proj2 (C6_directory_toggle only_notes_is_dir ∅ two_files Hne)))).
  right. set_solver.
Defined.

(** ** The balance probe *)

(** The world after one more log record, and after one more subprocess. *)
Definition logged (w : world) (l : level) (msg : string) : world :=
  World (files w) (seen w) (log w ++ [(l, msg)]) (notes w) (calls w) (faults w).

Definition called (w : world) (argv : list string) : world :=
  World (files w) (seen w) (log w) (notes w) (calls w ++ [argv]) (faults w).

Definition balance_argv (wallet : string) : list string :=
  ["arkb"; "balance"; "--wallet"; wallet].







Definition fixed_env (balance_outcome : outcome) : env :=
  {| environ := fun _ => None; resolve := fun p => p; home := "/home/op";
     arweave_TEST_MODE := false; atproto_TEST_MODE := false;
     run := fun _ _ => balance_outcome;
     frontmatter_load := fun _ => Ok [];
     now := fun _ => "2024-02-01T00:00:00+00:00";
     random_tx_id := fun _ => "";
     py_repr := fun _ => ""; format_6f := fun f => match f with Float lit => lit end;
     search_arweave_url := fun _ => None; findall_tx_ids := fun _ => [];
     search_bsky_url := fun _ => None; search_at_uri := fun _ => None |}.

Example balance_read :
  fst (get_wallet_balance (fixed_env (Exited 0 (Ok "Balance: AR 1.250000") (Ok "")))
         (Some "wallet.json") empty_world) = Ok (Float "1.250000").
Proof. reflexivity. Qed.

Example balance_tool_missing :
  get_wallet_balance (fixed_env Missing) (Some "wallet.json") empty_world
  = (Ok float_zero,
     World ∅ [] [(ERROR, arkb_not_found)] [] [balance_argv "wallet.json"] []).
Proof. reflexivity. Qed.

(** ** The batch drivers *)

(** The world after the callback was called with [msg]. *)
Definition noted (w : world) (cb : bool) (msg : string) : world :=
  if cb then World (files w) (seen w) (log w) (notes w ++ [msg]) (calls w) (faults w) else w.

(** The world after the environment answered one system call. *)
Definition popped (w : world) : world :=
  World (files w) (seen w) (log w) (notes w) (calls w) (tail (faults w)).


















(** *** The publishing tool is missing *)

(** Worlds that differ in their log at most. *)
Definition only_logged (w w' : world) : Prop :=
  files w' = files w /\ seen w' = seen w /\ notes w' = notes w
  /\ calls w' = calls w /\ faults w' = faults w.



Lemma only_logged_logged (w : world) (l : level) (msg : string) : only_logged w (logged w l msg).
Proof. repeat split. Qed.





















Lemma app_notify_noted (cb : bool) (msg : string) (w : world) :
  app_notify cb msg w = (Ok tt, noted w cb msg).
Proof. unfold app_notify, noted. destruct cb; reflexivity. Qed.











Definition two_notes_world : world :=
  World {[ "wallet.json" := "{}"; "notes/a.md" := "id-a"; "notes/b.md" := "id-b" ]}
    [] [] [] [] [].

Definition two_notes : list string := ["notes/a.md"; "notes/b.md"].



(** ** Saving an index *)

(** The document [save_arweave_index] writes for an index. *)
Definition archive_text (index_data : list json) : string :=
  dumps (JObj [("files", JArr index_data)]).

Definition posts_text (posts_data : list json) : string :=
  dumps (JObj [("posts", JArr posts_data)]).

(** The destination and its two siblings are three different files. *)
Definition siblings (path bak tmp : string) : Prop :=
  with_suffix path ".json.bak" = Ok bak /\ with_suffix path ".tmp" = Ok tmp
  /\ bak <> path /\ tmp <> path /\ tmp <> bak.

Definition is_pass (f : fault) : bool :=
  match f with Pass => true | Fail _ => false end.

(** The first [n] system calls go through. *)
Definition passing (n : nat) (w : world) : Prop :=
  forallb is_pass (take n (faults w)) = true.

Definition restored_msg (bak : string) : string :=
  "Restored archive from backup " +:+ bak +:+ " after save error.".

(** *** System calls, in closed form *)

(** What the environment has in store for the next system call. *)
Definition head_fault (w : world) : fault :=
  match faults w with
  | [] => Pass
  | f :: _ => f
  end.

(** The world after [files[k] = v]. *)
Definition put (w : world) (k v : string) : world :=
  World (<[k := v]> (files w)) (<[k := v]> (files w) :: seen w)
    (log w) (notes w) (calls w) (faults w).

Lemma next_fault_eq (w : world) : next_fault w = (Ok (head_fault w), popped w).
Proof. destruct w as [fs sn lg nt cl [|f ft]]; reflexivity. Qed.

Lemma mkdir_parents_eq (p : string) (w : world) :
  mkdir_parents p w
  = match head_fault w with
    | Pass => (Ok tt, popped w)
    | Fail _ => (Raise os_error, popped w)
    end.
Proof.
  unfold mkdir_parents, bind. rewrite next_fault_eq. destruct (head_fault w); reflexivity.
Qed.

Lemma read_text_eq (p : string) (w : world) :
  read_text p w
  = match head_fault w with
    | Pass =>
        match files w !! p with
        | Some s => (Ok s, popped w)
        | None => (Raise (not_found p), popped w)
        end
    | Fail _ => (Raise os_error, popped w)
    end.
Proof.
  unfold read_text, bind. rewrite next_fault_eq. destruct (head_fault w); [|reflexivity].
  unfold get_files. cbn [files popped]. destruct (files w !! p); reflexivity.
Qed.

Lemma copy2_eq (src dst : string) (w : world) :
  copy2 src dst w
  = match head_fault w with
    | Pass =>
        match files w !! src with
        | Some s => (Ok tt, put (popped w) dst s)
        | None => (Raise (not_found src), popped w)
        end
    | Fail _ => (Raise os_error, popped w)
    end.
Proof.
  unfold copy2, bind. rewrite next_fault_eq. destruct (head_fault w); [|reflexivity].
  unfold get_files. cbn [files popped]. destruct (files w !! src); reflexivity.
Qed.

Lemma os_replace_eq (src dst : string) (w : world) :
  os_replace src dst w
  = match head_fault w with
    | Pass =>
        match files w !! src with
        | Some s =>
            (Ok tt,
             World (<[dst := s]> (delete src (files w)))
               (<[dst := s]> (delete src (files w)) :: seen w)
               (log w) (notes w) (calls w) (tail (faults w)))
        | None => (Raise (not_found src), popped w)
        end
    | Fail _ => (Raise os_error, popped w)
    end.
Proof.
  unfold os_replace, bind. rewrite next_fault_eq. destruct (head_fault w); [|reflexivity].
  unfold get_files. cbn [files popped]. destruct (files w !! src); reflexivity.
Qed.

Lemma write_text_eq (p s : string) (w : world) :
  write_text p s w
  = match head_fault w with
    | Pass =>
        let w1 := put (popped w) p "" in
        match head_fault w1 with
        | Pass =>
            (Ok tt,
             World (<[p := s]> (files w)) (<[p := s]> (files w) :: seen w1)
               (log w) (notes w) (calls w) (tail (faults w1)))
        | Fail k =>
            (Raise os_error,
             World (<[p := S_ (take k (T s))]> (files w))
               (<[p := S_ (take k (T s))]> (files w) :: seen w1)
               (log w) (notes w) (calls w) (tail (faults w1)))
        end
    | Fail _ => (Raise os_error, popped w)
    end.
Proof.
  unfold write_text, bind. rewrite next_fault_eq. destruct (head_fault w); [|reflexivity].
  unfold get_files, set_files. cbn [files seen log notes calls faults popped].
  rewrite next_fault_eq. cbv zeta. unfold put. cbn [files seen log notes calls faults popped].
  unfold head_fault. cbn [faults]. destruct (tail (faults w)) as [|[|k] ft]; reflexivity.
Qed.

Lemma passing_S (n : nat) (w : world) :
  passing (S n) w <-> head_fault w = Pass /\ passing n (popped w).
Proof.
  unfold passing, head_fault, popped. cbn [faults].
  destruct (faults w) as [|[|k] ft]; cbn.
  - rewrite take_nil. cbn. tauto.
  - tauto.
  - split; [discriminate|intros [H _]; discriminate].
Qed.

Lemma passing_0 (w : world) : passing 0 w.
Proof. reflexivity. Qed.

Definition restore_failed_msg : string :=
  "Failed to restore archive from backup: " +:+ exn_text os_error.

Ltac io_norm :=
  cbv beta iota zeta delta
    [bind try_except lift ret raise path_exists get_files logger head_fault popped put logged
     tail files seen log notes calls faults fst snd negb].

Ltac io_call :=
  first [ rewrite mkdir_parents_eq | rewrite copy2_eq | rewrite write_text_eq
        | rewrite os_replace_eq | rewrite read_text_eq ].

Ltac io_case :=
  match goal with
  | |- context [ (<[?k := ?v]> ?m) !! ?k ] => rewrite (lookup_insert_eq m k v)
  | |- context [ (<[?k := ?v]> ?m) !! ?k' ] => rewrite (lookup_insert_ne m k k' v) by congruence
  | |- context [ bool_decide (is_Some (Some ?x)) ] =>
      rewrite (bool_decide_eq_true_2 (is_Some (Some x))) by eauto
  | |- context [ bool_decide (is_Some (@None ?A)) ] =>
      rewrite (bool_decide_eq_false_2 (is_Some (@None A))) by (apply is_Some_None)
  | |- context [ match ?l with [] => _ | _ :: _ => _ end ] => is_var l; destruct l as [|[|?] l]
  | |- context [ ?m !! ?k ] => is_var m; is_var k; destruct (m !! k) eqn:?
  end.

(** Runs the code of the goal on a world given by its fields, one case
    for each way the pending system calls and the files can be. *)
Ltac io_run := io_norm; repeat (first [io_call | io_case]; io_norm).

(** The save of the content-addressed index, whatever system calls
    fail. *)
Lemma save_arweave_index_contract (idx : list json) (path bak tmp : string) (w : world) :
  siblings path bak tmp ->
  let r := save_arweave_index idx path w in
  let w' := snd r in
  let doc := archive_text idx in
  (forall x, fst r = Raise x -> files w' = files w /\ ~ passing 1 w)
  /\ (fst r = Ok true -> files w' !! path = Some doc /\ files w' !! tmp = None)
  /\ (forall c, files w !! path = Some c -> passing 2 w -> files w' !! bak = Some c)
  /\ (forall fs, fs ∈ seen w' ->
        fs ∈ seen w \/ fs !! path = files w !! path \/ fs !! path = Some doc
        \/ fs !! path = files w !! bak)
  /\ (fst r = Ok false ->
        files w' !! bak = None
        \/ (last (log w') = Some (INFO, restored_msg bak)
            /\ files w' !! path = files w' !! bak)
        \/ last (log w') = Some (ERROR, restore_failed_msg))
  /\ (passing 6 w -> fst r = Ok true).
Proof.
  intros (Hb & Ht & Hbp & Htp & Htb). cbv zeta.
  destruct (save_arweave_index idx path w) as [r w'] eqn:E. cbn [fst snd].
  revert E. unfold save_arweave_index. fold (archive_text idx).
  rewrite Hb, Ht.
  destruct w as [fs sn lg nt cl ft].
  unfold passing. cbn [faults files seen log].
  io_run.
  all: fold (restored_msg bak); fold restore_failed_msg.
  all: intros [= <- <-].
  all: split; [intros x Hx; first [discriminate Hx | split; [reflexivity|cbn; discriminate]]|].
  all: split; [intros Hx; first [discriminate Hx | split; simplify_map_eq; done]|].
  all: split; [intros c Hc Hpass; first [discriminate Hpass | simplify_map_eq; done]|].
  all: split;
    [intros fs0 Hin;
     repeat (apply elem_of_cons in Hin as [->|Hin]; [right; simplify_map_eq; auto|]);
     left; exact Hin|].
  all: split;
    [intros Hx; first [discriminate Hx
                      | left; simplify_map_eq; done
                      | right; left; rewrite last_snoc; split; simplify_map_eq; done
                      | right; right; rewrite last_snoc; reflexivity]|].
  all: first [intros Hx; discriminate Hx | intros _; reflexivity].
Qed.

(** The save of the social index, whatever system calls fail. *)
Lemma save_atproto_posts_index_contract (idx : list json) (path : string) (w : world) :
  let r := save_atproto_posts_index idx path w in
  let w' := snd r in
  let doc := posts_text idx in
  (forall x, fst r <> Raise x)
  /\ (fst r = Ok true -> files w' !! path = Some doc)
  /\ (passing 3 w ->
        fst r = Ok true /\ files w' = <[path := doc]> (files w)
        /\ seen w' = <[path := doc]> (files w) :: <[path := ""]> (files w) :: seen w)
  /\ (forall k rest, faults w = Pass :: Pass :: Fail k :: rest ->
        fst r = Ok false /\ files w' = <[path := S_ (take k (T doc))]> (files w)).
Proof.
  cbv zeta.
  destruct (save_atproto_posts_index idx path w) as [r w'] eqn:E. cbn [fst snd].
  revert E. unfold save_atproto_posts_index. fold (posts_text idx).
  destruct w as [fs sn lg nt cl ft].
  unfold passing. cbn [faults files seen log].
  io_run.
  all: intros [= <- <-].
  all: split; [intros x Hx; discriminate Hx|].
  all: split; [intros Hx; first [discriminate Hx | simplify_map_eq; done]|].
  all: split; [intros Hx; first [discriminate Hx | repeat split]|].
  all: intros k rest Hk; first [discriminate Hk | injection Hk as <- <-; repeat split].
Qed.


Definition archive_path : string := "data/archive.json".
Definition posts_path : string := "data/atproto_posts.json".

Definition old_archive_world : world :=
  World {[ archive_path := "{}" ]} [] [] [] [] [].




(** ** The JSON codec *)

(** *** Strings *)

Lemma T_S (t : text) : T (S_ t) = t.
Proof. apply list_ascii_of_string_of_list_ascii. Qed.

Lemma S_T (s : string) : S_ (T s) = s.
Proof. apply string_of_list_ascii_of_string. Qed.

Lemma scanstring_escape_char (c : ascii) (r : text) :
  scanstring (escape_char c ++ r) = prepend c (scanstring r).
Proof. destruct c as [[] [] [] [] [] [] [] []]; reflexivity. Qed.

Lemma scanstring_escaped (s : string) (rest : text) :
  scanstring (flat_map escape_char (T s) ++ dquote :: rest) = Some (s, rest).
Proof.
  induction s as [|c s IH]; [reflexivity|].
  change (T (String c s)) with (c :: T s). cbn [flat_map].
  rewrite <- app_assoc, scanstring_escape_char, IH. reflexivity.
Qed.

Lemma scanstring_encode_str (s : string) (rest : text) :
  exists r, encode_str s ++ rest = dquote :: r /\ scanstring r = Some (s, rest).
Proof.
  exists (flat_map escape_char (T s) ++ dquote :: rest). split.
  - unfold encode_str. cbn [app]. rewrite <- app_assoc. reflexivity.
  - apply scanstring_escaped.
Qed.

(** *** Integers *)

(** Nothing that continues a number stands at the head of [t]. *)
Definition follow_ok (t : text) : bool :=
  match t with
  | [] => true
  | c :: _ =>
      negb (is_digit c) && negb (Ascii.eqb c "."%char)
      && negb (Ascii.eqb c "e"%char) && negb (Ascii.eqb c "E"%char)
  end.

Lemma follow_ok_digit_of (c : ascii) (r : text) :
  follow_ok (c :: r) = true -> digit_of c = None.
Proof. destruct c as [[] [] [] [] [] [] [] []]; cbn; intros; try discriminate; reflexivity. Qed.

Lemma follow_ok_float (t : text) : follow_ok t = true -> float_follows t = false.
Proof.
  destruct t as [|c [|d t]]; [reflexivity..|].
  destruct c as [[] [] [] [] [] [] [] []]; cbn; intros; try discriminate; reflexivity.
Qed.

Lemma read_digits_uint_text (u : Decimal.uint) (rest : text) :
  follow_ok rest = true -> read_digits (uint_text u ++ rest) = (u, rest).
Proof.
  intros Hr. induction u; cbn [uint_text app read_digits];
    try (rewrite IHu; reflexivity).
  destruct rest as [|c r]; [reflexivity|].
  cbn [read_digits]. rewrite (follow_ok_digit_of c r Hr). reflexivity.
Qed.

Lemma nzhead_not_D0 (u u' : Decimal.uint) : Decimal.nzhead u <> Decimal.D0 u'.
Proof. induction u; cbn; try discriminate. exact IHu. Qed.

Lemma to_int_canonical (n : Z) :
  match Z.to_int n with
  | Decimal.Pos u => u = Decimal.D0 Decimal.Nil
                     \/ (u <> Decimal.Nil /\ forall u', u <> Decimal.D0 u')
  | Decimal.Neg u => u <> Decimal.Nil /\ forall u', u <> Decimal.D0 u'
  end.
Proof.
  pose proof (DecimalZ.to_of (Z.to_int n)) as H. rewrite DecimalZ.of_to in H.
  destruct (Z.to_int n) as [u|u]; cbn in H.
  - injection H as H. unfold Decimal.unorm in H.
    destruct (Decimal.nzhead u) as [| | | | | | | | | |] eqn:E;
      try (right; split; [rewrite H; discriminate|intros u'; rewrite H; discriminate]).
    + left. exact H.
    + exfalso. exact (nzhead_not_D0 u _ E).
  - destruct (Decimal.nzhead u) as [| | | | | | | | | |] eqn:E; try discriminate;
      injection H as H; try (split; [rewrite H; discriminate|intros u'; rewrite H; discriminate]).
    exfalso. exact (nzhead_not_D0 u _ E).
Qed.

(** The head of a canonical numeral is a digit, and a zero only when
    the numeral is zero. *)
Lemma uint_text_head (u : Decimal.uint) :
  u <> Decimal.Nil ->
  exists c r, uint_text u = c :: r /\ is_digit c = true
              /\ (Ascii.eqb c "0"%char = true -> exists u', u = Decimal.D0 u').
Proof.
  destruct u; intros Hu; [contradiction|..]; cbn [uint_text];
    eexists _, _; (split; [reflexivity|]); (split; [reflexivity|]); cbn;
    first [discriminate | intros _; eexists; reflexivity].
Qed.

Lemma digit_head_not_literal (c : ascii) (r : text) :
  is_digit c = true ->
  Ascii.eqb c dquote = false /\ Ascii.eqb c "{"%char = false /\ Ascii.eqb c "["%char = false
  /\ Ascii.eqb c "-"%char = false
  /\ strip_prefix (T "null") (c :: r) = None /\ strip_prefix (T "true") (c :: r) = None
  /\ strip_prefix (T "false") (c :: r) = None.
Proof.
  destruct c as [[] [] [] [] [] [] [] []]; cbn; intros; try discriminate; repeat split.
Qed.

Lemma scan_number_unsigned (u : Decimal.uint) (neg : bool) (rest : text) :
  follow_ok rest = true ->
  u = Decimal.D0 Decimal.Nil \/ (u <> Decimal.Nil /\ forall u', u <> Decimal.D0 u') ->
  match uint_text u ++ rest with
  | [] => None
  | c :: r =>
      if negb (is_digit c) then None
      else
        let (u0, r') :=
          if Ascii.eqb c "0"%char then (Decimal.D0 Decimal.Nil, r)
          else read_digits (uint_text u ++ rest) in
        if float_follows r' then None
        else Some (JInt (Z.of_int (if neg then Decimal.Neg u0 else Decimal.Pos u0)), r')
  end
  = Some (JInt (Z.of_int (if neg then Decimal.Neg u else Decimal.Pos u)), rest).
Proof.
  intros Hr [->|[Hn Hz]].
  - cbn. rewrite (follow_ok_float rest Hr). reflexivity.
  - pose proof (read_digits_uint_text u rest Hr) as Hrd.
    destruct (uint_text_head u Hn) as (c & r & Hc & Hd & H0).
    rewrite Hc in *. cbn [app]. cbn [app] in Hrd. rewrite Hd. cbn [negb].
    destruct (Ascii.eqb c "0"%char) eqn:E0.
    + destruct (H0 eq_refl) as [u' ->]. exfalso. exact (Hz u' eq_refl).
    + rewrite Hrd, (follow_ok_float rest Hr). reflexivity.
Qed.

Lemma scan_number_encode_int (n : Z) (rest : text) :
  follow_ok rest = true -> scan_number (encode_int n ++ rest) = Some (JInt n, rest).
Proof.
  intros Hr. pose proof (to_int_canonical n) as Hc.
  pose proof (DecimalZ.of_to n) as Hof.
  unfold encode_int, scan_number. destruct (Z.to_int n) as [u|u].
  - assert (exists c r, uint_text u = c :: r /\ is_digit c = true) as (c & r & Hu & Hd).
    { destruct Hc as [->|[Hn _]]; [eexists _, _; split; reflexivity|].
      destruct (uint_text_head u Hn) as (c & r & ? & ? & _). eauto. }
    pose proof (scan_number_unsigned u false rest Hr Hc) as Hs.
    rewrite Hu in *. cbn [app] in *.
    destruct (digit_head_not_literal c r Hd) as (_ & _ & _ & Hm & _). rewrite Hm.
    rewrite <- Hof. exact Hs.
  - cbn [app]. cbn [Ascii.eqb Bool.eqb].
    pose proof (scan_number_unsigned u true rest Hr (or_intror Hc)) as Hs.
    rewrite <- Hof. exact Hs.
Qed.

(** A number begins with a digit or a minus sign. *)
Lemma encode_int_head (n : Z) :
  exists c r, encode_int n = c :: r /\ (is_digit c = true \/ c = "-"%char).
Proof.
  pose proof (to_int_canonical n) as Hc. unfold encode_int.
  destruct (Z.to_int n) as [u|u].
  - destruct Hc as [->|[Hn _]]; [eexists _, _; split; [reflexivity|left; reflexivity]|].
    destruct (uint_text_head u Hn) as (c & r & ? & ? & _). eauto.
  - eexists _, _. split; [reflexivity|right; reflexivity].
Qed.

(** *** Texts of the JSON grammar, with their white space

    A text of the grammar is described by its syntax tree: the values,
    and around them the white space and, after the last item of an array
    or an object, an optional trailing comma (which the grammar does not
    allow, and a hand-edited file may hold). *)

Record element (A : Type) : Type := Element {
  e_before : text;
  e_value : A;
  e_after : text
}.
Arguments Element {A} _ _ _.
Arguments e_before {A} _.
Arguments e_value {A} _.
Arguments e_after {A} _.

Record member (A : Type) : Type := Member {
  m_before : text;
  m_key : string;
  m_colon_l : text;
  m_colon_r : text;
  m_value : A;
  m_after : text
}.
Arguments Member {A} _ _ _ _ _ _.
Arguments m_before {A} _.
Arguments m_key {A} _.
Arguments m_colon_l {A} _.
Arguments m_colon_r {A} _.
Arguments m_value {A} _.
Arguments m_after {A} _.

#[local] Unset Elimination Schemes.
Inductive cst : Type :=
| CNull
| CBool (b : bool)
| CInt (n : Z)
| CStr (s : string)
| CArr (items : list (element cst)) (comma : bool) (gap : text)
| CObj (members : list (member cst)) (comma : bool) (gap : text).
#[local] Set Elimination Schemes.

Definition comma_text (comma : bool) : text := if comma then [","%char] else [].

(** The text of a syntax tree. *)
Fixpoint render (c : cst) : text :=
  match c with
  | CNull => T "null"
  | CBool true => T "true"
  | CBool false => T "false"
  | CInt n => encode_int n
  | CStr s => encode_str s
  | CArr items comma gap =>
      "["%char
      :: join [","%char]
           (map (fun it => e_before it ++ render (e_value it) ++ e_after it) items)
      ++ comma_text comma ++ gap ++ ["]"%char]
  | CObj members comma gap =>
      "{"%char
      :: join [","%char]
           (map (fun m => m_before m ++ encode_str (m_key m) ++ m_colon_l m
                          ++ ":"%char :: m_colon_r m ++ render (m_value m) ++ m_after m)
              members)
      ++ comma_text comma ++ gap ++ ["}"%char]
  end.

(** The value a syntax tree denotes; a key given twice keeps its first
    place and its last value, as in a [dict]. *)
Fixpoint value (c : cst) : json :=
  match c with
  | CNull => JNull
  | CBool b => JBool b
  | CInt n => JInt n
  | CStr s => JStr s
  | CArr items _ _ => JArr (map (fun it => value (e_value it)) items)
  | CObj members _ _ =>
      JObj (fold_left (fun d m => dict_set (m_key m) (value (m_value m)) d) members [])
  end.

Definition all_ws (t : text) : bool := forallb json_ws t.

Definition is_nil {A} (l : list A) : bool := match l with [] => true | _ => false end.

(** Well-formed trees: white space where white space is meant, and a
    trailing comma only after an item. *)
Fixpoint cst_ok (c : cst) : bool :=
  match c with
  | CArr items comma gap =>
      forallb (fun it => all_ws (e_before it) && cst_ok (e_value it) && all_ws (e_after it)) items
      && all_ws gap && (negb comma || negb (is_nil items))
  | CObj members comma gap =>
      forallb (fun m => all_ws (m_before m) && all_ws (m_colon_l m) && all_ws (m_colon_r m)
                        && cst_ok (m_value m) && all_ws (m_after m)) members
      && all_ws gap && (negb comma || negb (is_nil members))
  | _ => true
  end.

(** Trees of the grammar proper: no trailing comma anywhere. *)
Fixpoint strict (c : cst) : bool :=
  match c with
  | CArr items comma _ => forallb (fun it => strict (e_value it)) items && negb comma
  | CObj members comma _ => forallb (fun m => strict (m_value m)) members && negb comma
  | _ => true
  end.

Fixpoint size (c : cst) : nat :=
  match c with
  | CArr items _ _ => S (list_sum (map (fun it => S (size (e_value it))) items))
  | CObj members _ _ => S (list_sum (map (fun m => S (size (m_value m))) members))
  | _ => 1
  end.

Lemma cst_ind (P : cst -> Prop) :
  P CNull -> (forall b, P (CBool b)) -> (forall n, P (CInt n)) -> (forall s, P (CStr s)) ->
  (forall items comma gap, Forall (fun it => P (e_value it)) items -> P (CArr items comma gap)) ->
  (forall members comma gap,
     Forall (fun m => P (m_value m)) members -> P (CObj members comma gap)) ->
  forall c, P c.
Proof.
  intros Hn Hb Hi Hs Ha Ho. fix IH 1. intros [| b | n | s | items comma gap | members comma gap].
  - exact Hn.
  - apply Hb.
  - apply Hi.
  - apply Hs.
  - apply Ha. induction items as [|[b v a] items IHl]; constructor; [apply IH|exact IHl].
  - apply Ho. induction members as [|[b k l r v a] members IHl]; constructor; [apply IH|exact IHl].
Qed.

Lemma skip_ws_app (ws t : text) :
  all_ws ws = true -> skip_ws (ws ++ t) = skip_ws t.
Proof.
  induction ws as [|c ws IH]; [reflexivity|]. cbn. intros H.
  apply andb_true_iff in H as [Hc Hws]. rewrite Hc. apply IH. exact Hws.
Qed.

(** A character that begins a value, or closes or continues a list. *)
Definition not_ws (t : text) : Prop :=
  match t with
  | [] => True
  | c :: _ => json_ws c = false
  end.

Lemma skip_ws_not_ws (t : text) : not_ws t -> skip_ws t = t.
Proof. destruct t as [|c t]; [reflexivity|]. cbn. intros ->. reflexivity. Qed.

Lemma skip_ws_gap (ws t : text) : all_ws ws = true -> not_ws t -> skip_ws (ws ++ t) = t.
Proof. intros H1 H2. rewrite skip_ws_app by exact H1. apply skip_ws_not_ws. exact H2. Qed.

(** What the first character of a value can be. *)
Definition value_start (c : ascii) : bool :=
  is_digit c || Ascii.eqb c "-"%char || Ascii.eqb c dquote || Ascii.eqb c "{"%char
  || Ascii.eqb c "["%char || Ascii.eqb c "n"%char || Ascii.eqb c "t"%char
  || Ascii.eqb c "f"%char.

Lemma render_head (c : cst) : exists a r, render c = a :: r /\ value_start a = true.
Proof.
  destruct c as [| [|] | n | s | items comma gap | members comma gap];
    try (eexists _, _; split; reflexivity).
  cbn [render]. destruct (encode_int_head n) as (a & r & -> & [Hd| ->]).
  - eexists _, _. split; [reflexivity|]. unfold value_start. rewrite Hd. reflexivity.
  - eexists _, _. split; reflexivity.
Qed.

Lemma value_start_facts (a : ascii) :
  value_start a = true ->
  json_ws a = false /\ Ascii.eqb a "]"%char = false /\ Ascii.eqb a "}"%char = false
  /\ Ascii.eqb a ","%char = false /\ re_space a = false.
Proof.
  destruct a as [[] [] [] [] [] [] [] []]; cbn; intros; try discriminate; repeat split.
Qed.

Lemma ws_follow_ok (c : ascii) (t : text) : json_ws c = true -> follow_ok (c :: t) = true.
Proof. destruct c as [[] [] [] [] [] [] [] []]; cbn; intros; try discriminate; reflexivity. Qed.

(** After a value comes white space, a comma or a closing character. *)
Lemma follow_ok_after (ws t : text) :
  all_ws ws = true -> follow_ok t = true -> follow_ok (ws ++ t) = true.
Proof.
  destruct ws as [|c ws]; [intros _ H; exact H|]. cbn [all_ws forallb app].
  intros H _. apply andb_true_iff in H as [Hc _]. apply ws_follow_ok. exact Hc.
Qed.

Lemma join_cons2 (sep p q : text) (ps : list text) :
  join sep (p :: q :: ps) = p ++ sep ++ join sep (q :: ps).
Proof. reflexivity. Qed.

(** What follows the first item of a list of rendered items. *)
Definition items_tail (rs : list text) (closing : text) : text :=
  match rs with
  | [] => closing
  | _ => ","%char :: join [","%char] rs ++ closing
  end.

Lemma join_items (r : text) (rs : list text) (closing : text) :
  join [","%char] (r :: rs) ++ closing = r ++ items_tail rs closing.
Proof.
  destruct rs as [|q rs]; cbn [items_tail].
  - reflexivity.
  - rewrite join_cons2, <- !app_assoc. reflexivity.
Qed.

(** *** The scanner reads back every text of the grammar *)

Definition element_text (it : element cst) : text :=
  e_before it ++ render (e_value it) ++ e_after it.

(** A member, from just after the opening quote of its key. *)
Definition member_body (m : member cst) : text :=
  flat_map escape_char (T (m_key m)) ++ dquote :: m_colon_l m
  ++ ":"%char :: m_colon_r m ++ render (m_value m) ++ m_after m.

Definition member_text (m : member cst) : text :=
  m_before m ++ encode_str (m_key m) ++ m_colon_l m
  ++ ":"%char :: m_colon_r m ++ render (m_value m) ++ m_after m.

Lemma member_text_body (m : member cst) :
  member_text m = m_before m ++ dquote :: member_body m.
Proof.
  unfold member_text, member_body, encode_str. cbn [app]. rewrite <- !app_assoc. reflexivity.
Qed.

Lemma member_body_app (m : member cst) (tail : text) :
  member_body m ++ tail
  = flat_map escape_char (T (m_key m))
    ++ dquote :: (m_colon_l m
    ++ ":"%char :: (m_colon_r m ++ (render (m_value m) ++ (m_after m ++ tail)))).
Proof.
  unfold member_body. rewrite <- app_assoc. cbn [app]. rewrite <- app_assoc. cbn [app].
  rewrite <- !app_assoc. reflexivity.
Qed.

(** The scanner reads the tree [c] back, given fuel for its size. *)
Definition reads_back (c : cst) : Prop :=
  forall fuel rest,
    size c <= fuel -> follow_ok rest = true ->
    scan_once fuel (render c ++ rest) = Some (value c, rest).

Definition element_ok (it : element cst) : bool :=
  all_ws (e_before it) && cst_ok (e_value it) && all_ws (e_after it).

Definition member_ok (m : member cst) : bool :=
  all_ws (m_before m) && all_ws (m_colon_l m) && all_ws (m_colon_r m)
  && cst_ok (m_value m) && all_ws (m_after m).

Lemma follow_ok_closing (gap : text) (closer : ascii) (rest : text) :
  all_ws gap = true -> follow_ok [closer] = true -> follow_ok (gap ++ closer :: rest) = true.
Proof.
  intros Hg Hc. apply follow_ok_after; [exact Hg|]. exact Hc.
Qed.

Lemma follow_ok_items_tail (rs : list text) (gap : text) (closer : ascii) (rest : text) :
  all_ws gap = true -> follow_ok [closer] = true ->
  follow_ok (items_tail rs (gap ++ closer :: rest)) = true.
Proof.
  intros Hg Hc. destruct rs; cbn [items_tail]; [|reflexivity].
  apply follow_ok_closing; assumption.
Qed.

Lemma size_pos (c : cst) : 1 <= size c.
Proof. destruct c; cbn; lia. Qed.

Lemma JSONArray_reads (items : list (element cst)) :
  Forall (fun it => reads_back (e_value it)) items ->
  forallb element_ok items = true ->
  forall (v : cst) (a gap : text) (fuel : nat) (rest : text) (acc : list json),
    reads_back v -> all_ws a = true -> all_ws gap = true ->
    size v + list_sum (map (fun it => S (size (e_value it))) items) < fuel ->
    JSONArray fuel
      (render v ++ a ++ items_tail (map element_text items) (gap ++ "]"%char :: rest)) acc
    = Some (JArr (acc ++ value v :: map (fun it => value (e_value it)) items), rest).
Proof.
  induction 1 as [|it more Hit _ IH]; intros Hok v a gap fuel rest acc Hv Ha Hg Hfuel.
  - destruct fuel as [|f]; [lia|]. cbn [JSONArray map items_tail].
    rewrite Hv; [|cbn in Hfuel; lia|].
    + rewrite skip_ws_app by exact Ha. rewrite skip_ws_gap by (exact Hg || exact eq_refl).
      reflexivity.
    + apply follow_ok_after; [exact Ha|]. apply follow_ok_closing; [exact Hg|reflexivity].
  - destruct fuel as [|f]; [lia|]. cbn [JSONArray map items_tail].
    cbn [forallb] in Hok. apply andb_true_iff in Hok as [Hit_ok Hok].
    unfold element_ok in Hit_ok. apply andb_true_iff in Hit_ok as [Hit_ok Hafter].
    apply andb_true_iff in Hit_ok as [Hbefore _].
    simpl in Hfuel. pose proof (size_pos v) as Hpos.
    rewrite Hv; [|lia|].
    + rewrite skip_ws_gap by (exact Ha || exact eq_refl).
      cbv beta iota delta [Ascii.eqb Bool.eqb].
      rewrite join_items. unfold element_text at 1. rewrite <- !app_assoc.
      rewrite skip_ws_gap; [|exact Hbefore|].
      * rewrite (IH Hok (e_value it) (e_after it) gap f rest (acc ++ [value v]) Hit Hafter Hg)
          by lia.
        rewrite <- app_assoc. reflexivity.
      * destruct (render_head (e_value it)) as (c0 & r0 & -> & Hc0).
        apply value_start_facts in Hc0 as (Hws & _). exact Hws.
    + apply follow_ok_after; [exact Ha|]. reflexivity.
Qed.

Definition members_sum (members : list (member cst)) : nat :=
  list_sum (map (fun m => S (size (m_value m))) members).

Definition members_dict (members : list (member cst)) (acc : pydict json) : pydict json :=
  fold_left (fun d m => dict_set (m_key m) (value (m_value m)) d) members acc.

Lemma JSONObject_reads (members : list (member cst)) :
  Forall (fun m => reads_back (m_value m)) members ->
  forallb member_ok members = true ->
  forall (m : member cst) (gap : text) (fuel : nat) (rest : text) (acc : pydict json),
    reads_back (m_value m) -> member_ok m = true -> all_ws gap = true ->
    size (m_value m) + members_sum members < fuel ->
    JSONObject fuel
      (member_body m ++ items_tail (map member_text members) (gap ++ "}"%char :: rest)) acc
    = Some (JObj (members_dict (m :: members) acc), rest).
Proof.
  induction 1 as [|m' more Hm' _ IH]; intros Hok m gap fuel rest acc Hv Hm Hg Hfuel.
  - destruct fuel as [|f]; [lia|]. cbn [JSONObject map items_tail].
    unfold member_ok in Hm. apply andb_true_iff in Hm as [Hm Hafter].
    apply andb_true_iff in Hm as [Hm _].
    apply andb_true_iff in Hm as [Hm Hcr].
    apply andb_true_iff in Hm as [_ Hcl].
    rewrite member_body_app. rewrite scanstring_escaped.
    rewrite skip_ws_gap by (exact Hcl || exact eq_refl). cbv beta iota delta [Ascii.eqb Bool.eqb].
    rewrite skip_ws_gap; [|exact Hcr|].
    + rewrite Hv; [|unfold members_sum in Hfuel; cbn in Hfuel; lia|].
      * rewrite skip_ws_app by exact Hafter.
        rewrite skip_ws_gap by (exact Hg || exact eq_refl). reflexivity.
      * apply follow_ok_after; [exact Hafter|].
        apply follow_ok_closing; [exact Hg|reflexivity].
    + destruct (render_head (m_value m)) as (c0 & r0 & -> & Hc0).
      apply value_start_facts in Hc0 as (Hws & _). exact Hws.
  - destruct fuel as [|f]; [lia|]. cbn [JSONObject map items_tail].
    cbn [forallb] in Hok. apply andb_true_iff in Hok as [Hm'_ok Hok].
    pose proof Hm'_ok as Hm'_ok2.
    unfold member_ok in Hm. apply andb_true_iff in Hm as [Hm Hafter].
    apply andb_true_iff in Hm as [Hm _].
    apply andb_true_iff in Hm as [Hm Hcr].
    apply andb_true_iff in Hm as [_ Hcl].
    unfold members_sum in Hfuel. simpl in Hfuel. fold (members_sum more) in Hfuel.
    pose proof (size_pos (m_value m)) as Hpos.
    rewrite member_body_app. rewrite scanstring_escaped.
    rewrite skip_ws_gap by (exact Hcl || exact eq_refl). cbv beta iota delta [Ascii.eqb Bool.eqb].
    rewrite skip_ws_gap; [|exact Hcr|].
    + rewrite Hv; [|lia|].
      * rewrite skip_ws_gap by (exact Hafter || exact eq_refl).
        cbv beta iota delta [Ascii.eqb Bool.eqb].
        rewrite join_items. rewrite member_text_body. rewrite <- app_assoc. cbn [app].
        unfold member_ok in Hm'_ok. apply andb_true_iff in Hm'_ok as [Hx _].
        apply andb_true_iff in Hx as [Hx _]. apply andb_true_iff in Hx as [Hx _].
        apply andb_true_iff in Hx as [Hb' _].
        rewrite skip_ws_gap by (exact Hb' || exact eq_refl).
        cbv beta iota delta [Ascii.eqb Bool.eqb dquote].
        rewrite (IH Hok m' gap f rest (dict_set (m_key m) (value (m_value m)) acc)
                   Hm' Hm'_ok2 Hg) by lia.
        reflexivity.
      * apply follow_ok_after; [exact Hafter|]. reflexivity.
    + destruct (render_head (m_value m)) as (c0 & r0 & -> & Hc0).
      apply value_start_facts in Hc0 as (Hws & _). exact Hws.
Qed.

Lemma scan_once_array (f : nat) (r : text) :
  scan_once (S f) ("["%char :: r)
  = match skip_ws r with
    | c1 :: r1 =>
        if Ascii.eqb c1 "]"%char then Some (JArr [], r1) else JSONArray f (c1 :: r1) []
    | [] => None
    end.
Proof. reflexivity. Qed.

Lemma scan_once_object (f : nat) (r : text) :
  scan_once (S f) ("{"%char :: r)
  = match skip_ws r with
    | c1 :: r1 =>
        if Ascii.eqb c1 "}"%char then Some (JObj [], r1)
        else if Ascii.eqb c1 dquote then JSONObject f r1 []
        else None
    | [] => None
    end.
Proof. reflexivity. Qed.

Theorem scan_once_reads_back (c : cst) :
  cst_ok c = true -> strict c = true -> reads_back c.
Proof.
  induction c as [| b | n | s | items comma gap IH | members comma gap IH] using cst_ind;
    intros Hok Hst fuel rest Hfuel Hrest.
  - destruct fuel as [|f]; [cbn in Hfuel; lia|]. reflexivity.
  - destruct fuel as [|f]; [cbn in Hfuel; lia|]. destruct b; reflexivity.
  - destruct fuel as [|f]; [cbn in Hfuel; lia|]. cbn [render value].
    pose proof (scan_number_encode_int n rest Hrest) as Hnum.
    destruct (encode_int_head n) as (a & r & Ha & [Hd| ->]).
    + rewrite Ha in *. cbn [app] in *.
      destruct (digit_head_not_literal a (r ++ rest) Hd) as (E1 & E2 & E3 & _ & E4 & E5 & E6).
      cbn [scan_once]. rewrite E1, E2, E3, E4, E5, E6. exact Hnum.
    + rewrite Ha in *. cbn [app] in *. exact Hnum.
  - destruct fuel as [|f]; [cbn in Hfuel; lia|]. cbn [render value].
    destruct (scanstring_encode_str s rest) as (r & -> & Hr).
    cbn [scan_once]. change (Ascii.eqb dquote dquote) with true. cbv iota. rewrite Hr. reflexivity.
  - destruct fuel as [|f]; [cbn in Hfuel; lia|].
    cbn [cst_ok strict] in Hok, Hst.
    apply andb_true_iff in Hst as [Hst Hcomma]. apply negb_true_iff in Hcomma. subst comma.
    apply andb_true_iff in Hok as [Hok _]. apply andb_true_iff in Hok as [Hitems Hgap].
    assert (Forall (fun it => reads_back (e_value it)) items) as Hall.
    { clear Hfuel. induction IH as [|it more Hit _ IHmore]; [constructor|].
      cbn [forallb] in Hitems, Hst.
      apply andb_true_iff in Hitems as [Hi Hitems]. apply andb_true_iff in Hst as [Hs Hst].
      apply andb_true_iff in Hi as [Hi _]. apply andb_true_iff in Hi as [_ Hi].
      constructor; [apply Hit; assumption|apply IHmore; assumption]. }
    cbn [render value comma_text]. cbn [app]. rewrite <- !app_assoc. cbn [app].
    rewrite scan_once_array.
    destruct items as [|it more].
    + cbn [map join app]. rewrite skip_ws_gap by (exact Hgap || exact eq_refl).
      reflexivity.
    + cbn [map]. rewrite join_items. fold (element_text it). unfold element_text at 1.
      rewrite <- !app_assoc.
      cbn [forallb] in Hitems. apply andb_true_iff in Hitems as [Hit_ok Hitems].
      pose proof Hit_ok as Hit_ok2.
      apply andb_true_iff in Hit_ok as [Hit_ok Hafter].
      apply andb_true_iff in Hit_ok as [Hbefore _].
      apply Forall_cons in Hall as [Hit Hall].
      destruct (render_head (e_value it)) as (c0 & r0 & Hc0 & Hs0).
      rewrite skip_ws_gap; [|exact Hbefore|rewrite Hc0; apply value_start_facts in Hs0; tauto].
      pose proof (JSONArray_reads more Hall Hitems (e_value it) (e_after it) gap f rest []
                    Hit Hafter Hgap) as Hloop.
      change (map (fun it0 => e_before it0 ++ render (e_value it0) ++ e_after it0) more)
        with (map element_text more).
      rewrite Hc0 in *. cbn [app] in *.
      apply value_start_facts in Hs0 as (_ & -> & _).
      apply Hloop. simpl in Hfuel. lia.
  - destruct fuel as [|f]; [cbn in Hfuel; lia|].
    cbn [cst_ok strict] in Hok, Hst.
    apply andb_true_iff in Hst as [Hst Hcomma]. apply negb_true_iff in Hcomma. subst comma.
    apply andb_true_iff in Hok as [Hok _]. apply andb_true_iff in Hok as [Hmembers Hgap].
    assert (Forall (fun m => reads_back (m_value m)) members) as Hall.
    { clear Hfuel. induction IH as [|m more Hm _ IHmore]; [constructor|].
      cbn [forallb] in Hmembers, Hst.
      apply andb_true_iff in Hmembers as [Hi Hmembers]. apply andb_true_iff in Hst as [Hs Hst].
      apply andb_true_iff in Hi as [Hi _]. apply andb_true_iff in Hi as [_ Hi].
      constructor; [apply Hm; assumption|apply IHmore; assumption]. }
    cbn [render value comma_text]. cbn [app]. rewrite <- !app_assoc. cbn [app].
    rewrite scan_once_object.
    destruct members as [|m more].
    + cbn [map join app]. rewrite skip_ws_gap by (exact Hgap || exact eq_refl).
      reflexivity.
    + cbn [map]. rewrite join_items. fold (member_text m). rewrite member_text_body.
      rewrite <- app_assoc. cbn [app].
      cbn [forallb] in Hmembers. apply andb_true_iff in Hmembers as [Hm_ok Hmembers].
      fold (member_ok m) in Hm_ok. pose proof Hm_ok as Hm_ok2.
      unfold member_ok in Hm_ok. apply andb_true_iff in Hm_ok as [Hx _].
      apply andb_true_iff in Hx as [Hx _]. apply andb_true_iff in Hx as [Hx _].
      apply andb_true_iff in Hx as [Hbefore _].
      apply Forall_cons in Hall as [Hm Hall].
      rewrite skip_ws_gap by (exact Hbefore || exact eq_refl).
      change (Ascii.eqb dquote "}"%char) with false. change (Ascii.eqb dquote dquote) with true.
      cbv iota.
      change (map (fun m0 => m_before m0 ++ encode_str (m_key m0) ++ m_colon_l m0
                             ++ ":"%char :: m_colon_r m0 ++ render (m_value m0) ++ m_after m0)
                more)
        with (map member_text more).
      apply (JSONObject_reads more Hall Hmembers m gap f rest [] Hm Hm_ok2 Hgap).
      simpl in Hfuel. unfold members_sum. lia.
Qed.

(** The fuel [decode] gives is enough for every tree. *)
Lemma length_join_items (rs : list text) :
  list_sum (map (fun r => S (length r)) rs) <= S (length (join [","%char] rs)).
Proof.
  induction rs as [|r [|q rs] IH]; [simpl; lia|simpl; lia|].
  rewrite join_cons2, !length_app.
  change (list_sum (map (fun r0 => S (length r0)) (r :: q :: rs)))
    with (S (length r) + list_sum (map (fun r0 => S (length r0)) (q :: rs))).
  cbn [length]. lia.
Qed.

Lemma list_sum_map_le {A} (f g : A -> nat) (l : list A) :
  Forall (fun x => f x <= g x) l -> list_sum (map f l) <= list_sum (map g l).
Proof. induction 1; simpl; lia. Qed.

Lemma size_le_length (c : cst) : size c <= length (render c).
Proof.
  induction c as [| b | n | s | items comma gap IH | members comma gap IH] using cst_ind.
  - simpl. lia.
  - destruct b; simpl; lia.
  - cbn [size render]. destruct (encode_int_head n) as (a & r & -> & _). simpl. lia.
  - cbn [size render]. unfold encode_str. simpl. lia.
  - cbn [size render]. cbn [length]. rewrite !length_app. cbn [length].
    pose proof (length_join_items
                  (map (fun it => e_before it ++ render (e_value it) ++ e_after it) items)) as Hj.
    assert (list_sum (map (fun it => S (size (e_value it))) items)
            <= list_sum (map (fun r => S (length r))
                           (map (fun it => e_before it ++ render (e_value it) ++ e_after it)
                              items))) as Hs.
    { rewrite map_map. apply list_sum_map_le. clear Hj.
      induction IH as [|it more Hit _ IHmore]; constructor; [|exact IHmore].
      rewrite !length_app. lia. }
    lia.
  - cbn [size render]. cbn [length]. rewrite !length_app. cbn [length].
    pose proof (length_join_items
                  (map (fun m => m_before m ++ encode_str (m_key m) ++ m_colon_l m
                                 ++ ":"%char :: m_colon_r m ++ render (m_value m) ++ m_after m)
                     members)) as Hj.
    assert (list_sum (map (fun m => S (size (m_value m))) members)
            <= list_sum (map (fun r => S (length r))
                           (map (fun m => m_before m ++ encode_str (m_key m) ++ m_colon_l m
                                          ++ ":"%char :: m_colon_r m ++ render (m_value m)
                                          ++ m_after m) members))) as Hs.
    { rewrite map_map. apply list_sum_map_le. clear Hj.
      induction IH as [|m more Hm _ IHmore]; constructor; [|exact IHmore].
      rewrite !length_app. cbn [length]. rewrite !length_app. lia. }
    lia.
Qed.

(** [decode] reads every text of the grammar, white space around it
    included, as the value it denotes. *)
Theorem decode_render (c : cst) (lead trail : text) :
  cst_ok c = true -> strict c = true -> all_ws lead = true -> all_ws trail = true ->
  decode (lead ++ render c ++ trail) = Some (value c).
Proof.
  intros Hok Hst Hl Ht. unfold decode.
  destruct (render_head c) as (a & r & Ha & Hs).
  rewrite skip_ws_gap; [|exact Hl|rewrite Ha; apply value_start_facts in Hs; tauto].
  rewrite (scan_once_reads_back c Hok Hst).
  - rewrite <- (app_nil_r trail). rewrite skip_ws_gap by (exact Ht || exact I). reflexivity.
  - pose proof (size_le_length c). rewrite !length_app. lia.
  - rewrite <- (app_nil_r trail). apply follow_ok_after; [exact Ht|reflexivity].
Qed.

(** *** What the encoder writes is a text of the grammar *)

(** The syntax tree of [encode lvl v]. *)
Fixpoint layout (lvl : nat) (v : json) : cst :=
  match v with
  | JNull => CNull
  | JBool b => CBool b
  | JInt n => CInt n
  | JStr s => CStr s
  | JArr [] => CArr [] false []
  | JArr xs =>
      CArr (map (fun x => Element (newline_indent (S lvl)) (layout (S lvl) x) []) xs)
        false (newline_indent lvl)
  | JObj [] => CObj [] false []
  | JObj kvs =>
      CObj (map (fun kv => Member (newline_indent (S lvl)) (fst kv) [] [" "%char]
                             (layout (S lvl) (snd kv)) []) kvs)
        false (newline_indent lvl)
  end.

(** Values as a [dict] can hold them: no key twice in an object. *)
Fixpoint keys_unique (v : json) : bool :=
  match v with
  | JArr xs => forallb keys_unique xs
  | JObj kvs =>
      bool_decide (NoDup (map fst kvs)) && forallb (fun kv => keys_unique (snd kv)) kvs
  | _ => true
  end.

Lemma json_ind (P : json -> Prop) :
  P JNull -> (forall b, P (JBool b)) -> (forall n, P (JInt n)) -> (forall s, P (JStr s)) ->
  (forall xs, Forall P xs -> P (JArr xs)) ->
  (forall kvs, Forall (fun kv => P (snd kv)) kvs -> P (JObj kvs)) ->
  forall v, P v.
Proof.
  intros Hn Hb Hi Hs Ha Ho. fix IH 1. intros [| b | n | s | xs | kvs].
  - exact Hn.
  - apply Hb.
  - apply Hi.
  - apply Hs.
  - apply Ha. induction xs as [|x xs IHl]; constructor; [apply IH|exact IHl].
  - apply Ho. induction kvs as [|[k x] kvs IHl]; constructor; [apply IH|exact IHl].
Qed.

Lemma all_ws_newline_indent (lvl : nat) : all_ws (newline_indent lvl) = true.
Proof.
  unfold newline_indent. cbn [all_ws forallb]. change (json_ws newline) with true. cbn [andb].
  induction (2 * lvl)%nat as [|k IH]; [reflexivity|]. cbn. exact IH.
Qed.

Lemma join_cons_ne (sep p : text) (rs : list text) :
  rs <> [] -> join sep (p :: rs) = p ++ sep ++ join sep rs.
Proof. destruct rs; [contradiction|reflexivity]. Qed.

Lemma join_indent (nl : text) (ps : list text) :
  ps <> [] ->
  nl ++ join (","%char :: nl) ps = join [","%char] (map (fun p => nl ++ p ++ []) ps).
Proof.
  induction ps as [|p ps IH]; intros Hne; [contradiction|].
  destruct ps as [|q ps].
  - cbn. rewrite app_nil_r. reflexivity.
  - rewrite (join_cons_ne (","%char :: nl) p) by discriminate.
    change (map (fun p0 => nl ++ p0 ++ []) (p :: q :: ps))
      with ((nl ++ p ++ []) :: map (fun p0 => nl ++ p0 ++ []) (q :: ps)).
    rewrite (join_cons_ne [","%char] (nl ++ p ++ [])) by (cbn [map]; discriminate).
    rewrite <- IH by discriminate.
    rewrite app_nil_r. cbn [app]. rewrite <- !app_assoc. reflexivity.
Qed.

Lemma render_layout (v : json) : forall lvl, render (layout lvl v) = encode lvl v.
Proof.
  induction v as [| b | n | s | xs IH | kvs IH] using json_ind; intros lvl;
    try reflexivity.
  - destruct xs as [|x xs]; [reflexivity|].
    cbn [layout render encode comma_text]. set (items := x :: xs) in *.
    rewrite map_map. cbn [e_before e_value e_after app].
    rewrite (app_assoc (newline_indent (S lvl))).
    rewrite (join_indent (newline_indent (S lvl)) (map (encode (S lvl)) items))
      by (subst items; discriminate).
    rewrite map_map. f_equal. f_equal. f_equal.
    clear -IH. induction IH as [|y ys Hy _ IHys]; [reflexivity|].
    cbn [map]. rewrite Hy, IHys. reflexivity.
  - destruct kvs as [|kv kvs]; [reflexivity|].
    cbn [layout render encode comma_text]. set (items := kv :: kvs) in *.
    rewrite map_map. cbn [m_before m_key m_colon_l m_colon_r m_value m_after app].
    rewrite (app_assoc (newline_indent (S lvl))).
    rewrite (join_indent (newline_indent (S lvl))
               (map (fun kv0 => encode_str (fst kv0) ++ T ": " ++ encode (S lvl) (snd kv0)) items))
      by (subst items; discriminate).
    rewrite map_map. f_equal. f_equal. f_equal.
    clear -IH. induction IH as [|y ys Hy _ IHys]; [reflexivity|].
    cbn [map]. rewrite IHys. f_equal. rewrite Hy. rewrite <- !app_assoc. reflexivity.
Qed.

Lemma forallb_map_comp {A B} (f : B -> bool) (g : A -> B) (l : list A) :
  forallb f (map g l) = forallb (fun x => f (g x)) l.
Proof. induction l as [|x l IH]; [reflexivity|]. cbn [map forallb]. rewrite IH. reflexivity. Qed.

Lemma cst_ok_layout (v : json) : forall lvl, cst_ok (layout lvl v) = true.
Proof.
  induction v as [| b | n | s | xs IH | kvs IH] using json_ind; intros lvl; try reflexivity.
  - destruct xs as [|x xs]; [reflexivity|].
    cbn [layout cst_ok]. set (items := x :: xs) in *.
    rewrite all_ws_newline_indent. cbn [negb orb andb]. rewrite !andb_true_r.
    rewrite forallb_map_comp. clear -IH.
    induction IH as [|y ys Hy _ IHys]; [reflexivity|].
    cbn [forallb]. rewrite IHys. cbn [e_before e_value e_after all_ws forallb].
    rewrite all_ws_newline_indent, Hy. reflexivity.
  - destruct kvs as [|kv kvs]; [reflexivity|].
    cbn [layout cst_ok]. set (items := kv :: kvs) in *.
    rewrite all_ws_newline_indent. cbn [negb orb andb]. rewrite !andb_true_r.
    rewrite forallb_map_comp. clear -IH.
    induction IH as [|y ys Hy _ IHys]; [reflexivity|].
    cbn [forallb]. rewrite IHys. cbn [m_before m_key m_colon_l m_colon_r m_value m_after].
    rewrite all_ws_newline_indent, Hy. reflexivity.
Qed.

Lemma strict_layout (v : json) : forall lvl, strict (layout lvl v) = true.
Proof.
  induction v as [| b | n | s | xs IH | kvs IH] using json_ind; intros lvl; try reflexivity.
  - destruct xs as [|x xs]; [reflexivity|].
    cbn [layout strict]. set (items := x :: xs) in *.
    cbn [negb]. rewrite andb_true_r. rewrite forallb_map_comp. clear -IH.
    induction IH as [|y ys Hy _ IHys]; [reflexivity|].
    cbn [forallb]. rewrite IHys. cbn [e_value]. rewrite Hy. reflexivity.
  - destruct kvs as [|kv kvs]; [reflexivity|].
    cbn [layout strict]. set (items := kv :: kvs) in *.
    cbn [negb]. rewrite andb_true_r. rewrite forallb_map_comp. clear -IH.
    induction IH as [|y ys Hy _ IHys]; [reflexivity|].
    cbn [forallb]. rewrite IHys. cbn [m_value]. rewrite Hy. reflexivity.
Qed.

Lemma dict_set_fresh {V} (k : string) (v : V) (d : pydict V) :
  k ∉ map fst d -> dict_set k v d = d ++ [(k, v)].
Proof.
  induction d as [|[k' v'] d IH]; [reflexivity|]. cbn [map fst]. intros Hn.
  apply not_elem_of_cons in Hn as [Hne Hn]. cbn [dict_set].
  destruct (String.eqb_spec k' k) as [->|_]; [contradiction|].
  rewrite IH by exact Hn. reflexivity.
Qed.

Lemma fold_dict_set_unique {A V} (key : A -> string) (val : A -> V) (xs : list A)
  (acc : pydict V) :
  NoDup (map fst acc ++ map key xs) ->
  fold_left (fun d x => dict_set (key x) (val x) d) xs acc
  = acc ++ map (fun x => (key x, val x)) xs.
Proof.
  revert acc. induction xs as [|x xs IH]; intros acc Hnd; [rewrite app_nil_r; reflexivity|].
  cbn [fold_left map]. cbn [map] in Hnd.
  rewrite dict_set_fresh.
  - rewrite IH.
    + rewrite <- app_assoc. reflexivity.
    + rewrite map_app. cbn [map fst]. rewrite <- app_assoc. exact Hnd.
  - apply NoDup_app in Hnd as (_ & Hd & _). intros Hin. apply (Hd _ Hin). left.
Qed.

Lemma fold_left_map_comp {A B C} (f : C -> B -> C) (g : A -> B) (l : list A) (acc : C) :
  fold_left f (map g l) acc = fold_left (fun c x => f c (g x)) l acc.
Proof. revert acc. induction l as [|x l IH]; intros acc; [reflexivity|]. cbn [map fold_left]. apply IH. Qed.

Lemma value_layout (v : json) : forall lvl, keys_unique v = true -> value (layout lvl v) = v.
Proof.
  induction v as [| b | n | s | xs IH | kvs IH] using json_ind; intros lvl Hu; try reflexivity.
  - destruct xs as [|x xs]; [reflexivity|].
    cbn [layout value]. set (items := x :: xs) in *. cbn [keys_unique] in Hu.
    rewrite map_map. cbn [e_value]. f_equal. clear -IH Hu.
    induction IH as [|y ys Hy _ IHys]; [reflexivity|].
    cbn [forallb] in Hu. apply andb_true_iff in Hu as [H1 H2].
    cbn [map]. rewrite Hy by exact H1. rewrite IHys by exact H2. reflexivity.
  - destruct kvs as [|kv kvs]; [reflexivity|].
    cbn [layout value]. set (items := kv :: kvs) in *. cbn [keys_unique] in Hu.
    apply andb_true_iff in Hu as [Hnd Hu]. apply bool_decide_eq_true in Hnd.
    f_equal.
    rewrite fold_left_map_comp.
    cbn [m_key m_value].
    rewrite (fold_dict_set_unique fst (fun kv0 => value (layout (S lvl) (snd kv0))) items [])
      by exact Hnd.
    cbn [app]. clear -IH Hu.
    induction IH as [|y ys Hy _ IHys]; [reflexivity|].
    cbn [forallb] in Hu. apply andb_true_iff in Hu as [H1 H2].
    cbn [map]. rewrite Hy by exact H1. rewrite IHys by exact H2. destruct y; reflexivity.
Qed.

(** Round trip of the codec: what [json.dump] writes, [json.loads]
    reads back as the same value. *)
Theorem loads_dumps (v : json) : keys_unique v = true -> loads (dumps v) = Ok v.
Proof.
  intros Hu. unfold loads, dumps. rewrite T_S, <- (render_layout v 0).
  pose proof (decode_render (layout 0 v) [] [] (cst_ok_layout v 0) (strict_layout v 0)
                eq_refl eq_refl) as H.
  cbn [app] in H. rewrite app_nil_r in H. rewrite H, (value_layout v 0 Hu). reflexivity.
Qed.

(** *** The sanitising substitution on the texts of the grammar

    [re.sub(r",\s*}", "}", s)] followed by [re.sub(r",\s*]", "]", s)]
    takes the trailing commas out of a text of the grammar, provided it
    finds nothing to replace inside a string. *)

Definition closer (c : ascii) : bool := Ascii.eqb c "]"%char || Ascii.eqb c "}"%char.

Lemma closer_facts (c : ascii) :
  closer c = true ->
  re_space c = false /\ Ascii.eqb c ","%char = false /\ Ascii.eqb dquote c = false.
Proof.
  destruct c as [[] [] [] [] [] [] [] []]; cbn; intros; try discriminate; repeat split.
Qed.

Definition spaces (t : text) : bool := forallb re_space t.

(** A text without a comma. *)
Definition plain (t : text) : bool := forallb (fun a => negb (Ascii.eqb a ","%char)) t.

Lemma json_ws_facts (a : ascii) :
  json_ws a = true -> re_space a = true /\ Ascii.eqb a ","%char = false.
Proof.
  destruct a as [[] [] [] [] [] [] [] []]; cbn; intros; try discriminate; split; reflexivity.
Qed.

Lemma all_ws_spaces (t : text) : all_ws t = true -> spaces t = true.
Proof.
  induction t as [|a t IH]; [reflexivity|]. cbn [all_ws spaces forallb]. intros H.
  apply andb_true_iff in H as [Ha Ht]. apply json_ws_facts in Ha as [-> _]. apply IH, Ht.
Qed.

Lemma all_ws_plain (t : text) : all_ws t = true -> plain t = true.
Proof.
  induction t as [|a t IH]; [reflexivity|]. cbn [all_ws plain forallb]. intros H.
  apply andb_true_iff in H as [Ha Ht]. apply json_ws_facts in Ha as [_ ->]. apply IH, Ht.
Qed.

Lemma uint_text_plain (d : Decimal.uint) : plain (uint_text d) = true.
Proof. induction d; cbn [uint_text plain forallb]; try reflexivity; exact IHd. Qed.

Lemma encode_int_plain (n : Z) : plain (encode_int n) = true.
Proof. unfold encode_int. destruct (Z.to_int n); cbn [plain forallb]; apply uint_text_plain. Qed.

(** No match of [\s*c] begins at white space followed by another character. *)
Lemma match_ws_then_blocked (c b : ascii) (ws rest : text) :
  spaces ws = true -> re_space c = false -> re_space b = false -> Ascii.eqb b c = false ->
  match_ws_then c (ws ++ b :: rest) = None.
Proof.
  intros Hws Hc Hb Hbc. induction ws as [|a ws IH]; cbn [app match_ws_then].
  - rewrite Hb, Hbc. reflexivity.
  - cbn [spaces forallb] in Hws. apply andb_true_iff in Hws as [Ha Hws].
    rewrite Ha, (IH Hws). destruct (Ascii.eqb_spec a c) as [->|_]; [congruence|reflexivity].
Qed.

(** White space and then [c] is matched to its end. *)
Lemma match_ws_then_hit (c : ascii) (ws rest : text) :
  spaces ws = true -> re_space c = false ->
  match_ws_then c (ws ++ c :: rest) = Some (S (length ws)).
Proof.
  intros Hws Hc. induction ws as [|a ws IH]; cbn [app match_ws_then length].
  - rewrite Hc, Ascii.eqb_refl. reflexivity.
  - cbn [spaces forallb] in Hws. apply andb_true_iff in Hws as [Ha Hws].
    rewrite Ha, (IH Hws). reflexivity.
Qed.

Lemma match_ws_then_last (c q : ascii) (u rest : text) :
  re_space q = false -> Ascii.eqb q c = false ->
  match_ws_then c (u ++ q :: rest) = match_ws_then c (u ++ [q]).
Proof.
  intros Hq Hqc. induction u as [|a u IH]; cbn [app match_ws_then].
  - rewrite Hq, Hqc. reflexivity.
  - rewrite IH. reflexivity.
Qed.

Lemma sub_go_skip (c : ascii) (u r : text) (k : nat) :
  sub_go c (length u + k) (u ++ r) = sub_go c k r.
Proof. induction u as [|a u IH]; [reflexivity|]. cbn [length app Nat.add sub_go]. exact IH. Qed.

Lemma sub_go_plain (c : ascii) (t rest : text) :
  plain t = true -> sub_go c 0 (t ++ rest) = t ++ sub_go c 0 rest.
Proof.
  induction t as [|a t IH]; [reflexivity|]. cbn [plain forallb]. intros H.
  apply andb_true_iff in H as [Ha Ht]. apply negb_true_iff in Ha.
  cbn [app sub_go]. rewrite Ha, (IH Ht). reflexivity.
Qed.

(** A text that ends in a character [q] other than white space and [c],
    and that the substitution leaves as it is, is left as it is in front
    of any text. *)
Lemma sub_go_untouched (c q : ascii) (u rest : text) :
  Ascii.eqb c ","%char = false -> re_space q = false -> Ascii.eqb q c = false ->
  Ascii.eqb q ","%char = false ->
  sub_go c 0 (u ++ [q]) = u ++ [q] ->
  sub_go c 0 (u ++ q :: rest) = u ++ q :: sub_go c 0 rest.
Proof.
  intros Hc Hq Hqc Hq'. induction u as [|a u IH]; cbn [app sub_go].
  - rewrite Hq'. reflexivity.
  - rewrite (match_ws_then_last c q u rest Hq Hqc).
    destruct (Ascii.eqb_spec a ","%char) as [->|_].
    + destruct (match_ws_then c (u ++ [q])) as [n|]; intros H.
      * injection H as Hca _. rewrite Hca in Hc. discriminate.
      * injection H as H. rewrite (IH H). reflexivity.
    + intros H. injection H as H. rewrite (IH H). reflexivity.
Qed.

(** The substitution finds nothing in the text of the string [s]. *)
Definition untouched (c : ascii) (s : string) : bool :=
  bool_decide (sub_go c 0 (encode_str s) = encode_str s).

Fixpoint strings_untouched (c : ascii) (x : cst) : bool :=
  match x with
  | CStr s => untouched c s
  | CArr items _ _ => forallb (fun it => strings_untouched c (e_value it)) items
  | CObj members _ _ =>
      forallb (fun m => untouched c (m_key m) && strings_untouched c (m_value m)) members
  | _ => true
  end.

Lemma sub_go_encode_str (c : ascii) (s : string) (rest : text) :
  closer c = true -> untouched c s = true ->
  sub_go c 0 (encode_str s ++ rest) = encode_str s ++ sub_go c 0 rest.
Proof.
  intros Hc Hs. apply closer_facts in Hc as (_ & Hc & Hq). apply bool_decide_eq_true in Hs.
  assert (E : forall r, encode_str s ++ r
                        = (dquote :: flat_map escape_char (T s)) ++ dquote :: r).
  { intros r. unfold encode_str. cbn [app]. rewrite <- app_assoc. reflexivity. }
  rewrite !E. pose proof (E []) as E0. rewrite app_nil_r in E0. rewrite E0 in Hs.
  apply sub_go_untouched; [exact Hc|reflexivity|exact Hq|reflexivity|exact Hs].
Qed.

(** A string without a comma has nothing to replace. *)
Lemma escape_char_plain (a : ascii) :
  Ascii.eqb a ","%char = false -> plain (escape_char a) = true.
Proof. destruct a as [[] [] [] [] [] [] [] []]; cbn; intros; try discriminate; reflexivity. Qed.

Lemma plain_app (t u : text) : plain (t ++ u) = plain t && plain u.
Proof. unfold plain. apply forallb_app. Qed.

Lemma flat_map_escape_plain (t : text) :
  plain t = true -> plain (flat_map escape_char t) = true.
Proof.
  induction t as [|a t IH]; [reflexivity|]. cbn [plain forallb]. intros H.
  apply andb_true_iff in H as [Ha Ht]. apply negb_true_iff in Ha.
  cbn [flat_map]. rewrite plain_app, (escape_char_plain a Ha). apply IH, Ht.
Qed.

Lemma plain_untouched (c : ascii) (s : string) : plain (T s) = true -> untouched c s = true.
Proof.
  intros Hs. apply bool_decide_eq_true.
  rewrite <- (app_nil_r (encode_str s)) at 1.
  rewrite sub_go_plain; [apply app_nil_r|]. unfold encode_str.
  change (dquote :: flat_map escape_char (T s) ++ [dquote])
    with ([dquote] ++ flat_map escape_char (T s) ++ [dquote]).
  rewrite !plain_app, (flat_map_escape_plain (T s) Hs). reflexivity.
Qed.

(** The tree without the trailing commas in front of [c]. *)
Fixpoint strip (c : ascii) (x : cst) : cst :=
  match x with
  | CArr items comma gap =>
      let items' := map (fun it => Element (e_before it) (strip c (e_value it)) (e_after it))
                      items in
      if comma && Ascii.eqb c "]"%char then CArr items' false [] else CArr items' comma gap
  | CObj members comma gap =>
      let members' := map (fun m => Member (m_before m) (m_key m) (m_colon_l m) (m_colon_r m)
                                      (strip c (m_value m)) (m_after m)) members in
      if comma && Ascii.eqb c "}"%char then CObj members' false [] else CObj members' comma gap
  | _ => x
  end.

Definition strip_element (c : ascii) (it : element cst) : element cst :=
  Element (e_before it) (strip c (e_value it)) (e_after it).

Definition strip_member (c : ascii) (m : member cst) : member cst :=
  Member (m_before m) (m_key m) (m_colon_l m) (m_colon_r m) (strip c (m_value m)) (m_after m).

(** The substitution takes the text of [x] to the text of [strip c x]. *)
Definition carried (c : ascii) (x : cst) : Prop :=
  forall rest, sub_go c 0 (render x ++ rest) = render (strip c x) ++ sub_go c 0 rest.

(** The end of an array or an object: the trailing comma, if any, the
    white space and the closing character [cl]. *)
Lemma sub_go_closing (c cl : ascii) (comma : bool) (gap rest : text) :
  closer c = true -> closer cl = true -> all_ws gap = true ->
  sub_go c 0 (comma_text comma ++ gap ++ cl :: rest)
  = (if comma && Ascii.eqb c cl then [cl] else comma_text comma ++ gap ++ [cl])
    ++ sub_go c 0 rest.
Proof.
  intros Hc Hcl Hgap. pose proof (closer_facts c Hc) as (Hsp & Hcc & _).
  pose proof (closer_facts cl Hcl) as (Hsp' & Hcc' & _).
  assert (Hplain : sub_go c 0 (gap ++ cl :: rest) = gap ++ cl :: sub_go c 0 rest).
  { rewrite (sub_go_plain c gap) by (apply all_ws_plain, Hgap).
    cbn [sub_go]. rewrite Hcc'. reflexivity. }
  destruct comma; cbn [comma_text app andb].
  - cbn [sub_go]. change (Ascii.eqb ","%char ","%char) with true. cbn match.
    destruct (Ascii.eqb_spec c cl) as [<-|Hne].
    + rewrite (match_ws_then_hit c gap rest (all_ws_spaces gap Hgap) Hsp).
      replace (S (length gap)) with (length (gap ++ [c]) + 0)
        by (rewrite length_app; cbn [length]; lia).
      replace (gap ++ c :: rest) with ((gap ++ [c]) ++ rest)
        by (rewrite <- app_assoc; reflexivity).
      rewrite sub_go_skip. reflexivity.
    + rewrite (match_ws_then_blocked c cl gap rest (all_ws_spaces gap Hgap) Hsp Hsp').
      * rewrite Hplain. cbn [app]. rewrite <- app_assoc. reflexivity.
      * destruct (Ascii.eqb_spec cl c) as [->|_]; [contradiction|reflexivity].
  - rewrite Hplain, <- app_assoc. reflexivity.
Qed.

(** No match begins at the comma in front of a value. *)
Lemma match_ws_then_value (c : ascii) (ws : text) (x : cst) (rest : text) :
  closer c = true -> all_ws ws = true ->
  match_ws_then c (ws ++ render x ++ rest) = None.
Proof.
  intros Hc Hws. destruct (render_head x) as (a & r & -> & Ha).
  apply value_start_facts in Ha as (_ & Ha1 & Ha2 & _ & Ha3).
  pose proof (closer_facts c Hc) as (Hsp & _ & _). cbn [app].
  apply match_ws_then_blocked; [apply all_ws_spaces, Hws|exact Hsp|exact Ha3|].
  unfold closer in Hc. apply orb_true_iff in Hc as [Hc|Hc]; apply Ascii.eqb_eq in Hc; subst c;
    assumption.
Qed.

Lemma sub_go_element (c : ascii) (it : element cst) (rest : text) :
  element_ok it = true -> carried c (e_value it) ->
  sub_go c 0 (element_text it ++ rest)
  = element_text (strip_element c it) ++ sub_go c 0 rest.
Proof.
  intros Hok Hx. unfold element_ok in Hok.
  apply andb_true_iff in Hok as [Hok Ha]. apply andb_true_iff in Hok as [Hb _].
  unfold element_text, strip_element. cbn [e_before e_value e_after].
  rewrite <- !app_assoc. rewrite (sub_go_plain c (e_before it)) by (apply all_ws_plain, Hb).
  rewrite Hx. rewrite (sub_go_plain c (e_after it)) by (apply all_ws_plain, Ha). reflexivity.
Qed.

Lemma sub_go_items (c : ascii) (items : list (element cst)) (closing : text) :
  closer c = true ->
  forallb element_ok items = true ->
  Forall (fun it => carried c (e_value it)) items ->
  sub_go c 0 (join [","%char] (map element_text items) ++ closing)
  = join [","%char] (map element_text (map (strip_element c) items)) ++ sub_go c 0 closing.
Proof.
  intros Hc Hok IH. induction IH as [|it items Hit _ IHitems]; [reflexivity|].
  cbn [forallb] in Hok. apply andb_true_iff in Hok as [Hok1 Hok2].
  cbn [map]. rewrite !join_items, (sub_go_element c it _ Hok1 Hit). f_equal.
  destruct items as [|it2 items]; [reflexivity|].
  cbn [map items_tail] in *. cbn [sub_go]. change (Ascii.eqb ","%char ","%char) with true.
  cbn match.
  assert (Hnone : match_ws_then c
                    (join [","%char] (element_text it2 :: map element_text items) ++ closing)
                  = None).
  { rewrite join_items. unfold element_text. rewrite <- !app_assoc.
    apply match_ws_then_value; [exact Hc|].
    cbn [forallb] in Hok2. apply andb_true_iff in Hok2 as [Hok2 _]. unfold element_ok in Hok2.
    apply andb_true_iff in Hok2 as [Hok2 _]. apply andb_true_iff in Hok2 as [Hok2 _].
    exact Hok2. }
  rewrite Hnone. f_equal. apply IHitems, Hok2.
Qed.

Lemma match_ws_then_key (c : ascii) (ws : text) (k : string) (rest : text) :
  closer c = true -> all_ws ws = true ->
  match_ws_then c (ws ++ encode_str k ++ rest) = None.
Proof.
  intros Hc Hws. pose proof (closer_facts c Hc) as (Hsp & _ & Hq). unfold encode_str.
  cbn [app]. apply match_ws_then_blocked; [apply all_ws_spaces, Hws|exact Hsp|reflexivity|exact Hq].
Qed.

Lemma sub_go_member (c : ascii) (m : member cst) (rest : text) :
  closer c = true -> member_ok m = true -> untouched c (m_key m) = true ->
  carried c (m_value m) ->
  sub_go c 0 (member_text m ++ rest)
  = member_text (strip_member c m) ++ sub_go c 0 rest.
Proof.
  intros Hc Hok Hk Hx. unfold member_ok in Hok.
  apply andb_true_iff in Hok as [Hok Ha]. apply andb_true_iff in Hok as [Hok _].
  apply andb_true_iff in Hok as [Hok Hr]. apply andb_true_iff in Hok as [Hb Hl].
  unfold member_text, strip_member.
  cbn [m_before m_key m_colon_l m_colon_r m_value m_after].
  rewrite <- !app_assoc. rewrite (sub_go_plain c (m_before m)) by (apply all_ws_plain, Hb).
  rewrite (sub_go_encode_str c (m_key m) _ Hc Hk).
  rewrite (sub_go_plain c (m_colon_l m)) by (apply all_ws_plain, Hl).
  cbn [app sub_go]. change (Ascii.eqb ":"%char ","%char) with false. cbn match.
  rewrite <- !app_assoc.
  rewrite (sub_go_plain c (m_colon_r m)) by (apply all_ws_plain, Hr).
  rewrite Hx. rewrite (sub_go_plain c (m_after m)) by (apply all_ws_plain, Ha). reflexivity.
Qed.

Lemma sub_go_members (c : ascii) (members : list (member cst)) (closing : text) :
  closer c = true ->
  forallb member_ok members = true ->
  forallb (fun m => untouched c (m_key m)) members = true ->
  Forall (fun m => carried c (m_value m)) members ->
  sub_go c 0 (join [","%char] (map member_text members) ++ closing)
  = join [","%char] (map member_text (map (strip_member c) members)) ++ sub_go c 0 closing.
Proof.
  intros Hc Hok Hkeys IH. induction IH as [|m members Hm _ IHmembers]; [reflexivity|].
  cbn [forallb] in Hok, Hkeys. apply andb_true_iff in Hok as [Hok1 Hok2].
  apply andb_true_iff in Hkeys as [Hk1 Hk2].
  cbn [map]. rewrite !join_items, (sub_go_member c m _ Hc Hok1 Hk1 Hm). f_equal.
  destruct members as [|m2 members]; [reflexivity|].
  cbn [map items_tail] in *. cbn [sub_go]. change (Ascii.eqb ","%char ","%char) with true.
  cbn match.
  assert (Hnone : match_ws_then c
                    (join [","%char] (member_text m2 :: map member_text members) ++ closing)
                  = None).
  { rewrite join_items. unfold member_text. rewrite <- !app_assoc.
    apply match_ws_then_key; [exact Hc|].
    cbn [forallb] in Hok2. apply andb_true_iff in Hok2 as [Hok2 _]. unfold member_ok in Hok2.
    apply andb_true_iff in Hok2 as [Hok2 _]. apply andb_true_iff in Hok2 as [Hok2 _].
    apply andb_true_iff in Hok2 as [Hok2 _]. apply andb_true_iff in Hok2 as [Hok2 _].
    exact Hok2. }
  rewrite Hnone. f_equal. apply IHmembers; [exact Hok2|exact Hk2].
Qed.

Lemma forallb_and {A} (f g : A -> bool) (l : list A) :
  forallb (fun x => f x && g x) l = forallb f l && forallb g l.
Proof.
  induction l as [|x l IH]; [reflexivity|]. cbn [forallb]. rewrite IH.
  destruct (f x), (g x), (forallb f l); reflexivity.
Qed.

(** One pass of the substitution takes the text of a tree to the text of
    the tree without its trailing commas in front of [c]. *)
Theorem sub_go_render (c : ascii) (x : cst) :
  closer c = true -> cst_ok x = true -> strings_untouched c x = true -> carried c x.
Proof.
  intros Hc. induction x as [| b | n | s | items comma gap IH | members comma gap IH]
    using cst_ind; intros Hok Hs rest.
  - reflexivity.
  - destruct b; reflexivity.
  - cbn [render strip]. apply sub_go_plain, encode_int_plain.
  - cbn [render strip]. apply sub_go_encode_str; [exact Hc|exact Hs].
  - cbn [cst_ok] in Hok. apply andb_true_iff in Hok as [Hok _].
    apply andb_true_iff in Hok as [Hitems Hgap]. cbn [strings_untouched] in Hs.
    assert (Hcarried : Forall (fun it => carried c (e_value it)) items).
    { clear -IH Hitems Hs. induction IH as [|it items Hit _ IHl]; [constructor|].
      cbn [forallb] in Hitems, Hs. apply andb_true_iff in Hitems as [H1 H2].
      apply andb_true_iff in Hs as [H3 H4]. constructor; [|apply IHl; assumption].
      apply andb_true_iff in H1 as [H1 _]. apply andb_true_iff in H1 as [_ H1].
      apply Hit; assumption. }
    change (render (CArr items comma gap))
      with ("["%char :: join [","%char] (map element_text items)
                        ++ comma_text comma ++ gap ++ ["]"%char]).
    cbn [app sub_go]. change (Ascii.eqb "["%char ","%char) with false. cbn match.
    rewrite <- !app_assoc. cbn [app].
    rewrite (sub_go_items c items _ Hc Hitems Hcarried).
    rewrite (sub_go_closing c "]"%char comma gap rest Hc eq_refl Hgap).
    cbn [strip].
    change (map (fun it => Element (e_before it) (strip c (e_value it)) (e_after it)) items)
      with (map (strip_element c) items).
    destruct (comma && Ascii.eqb c "]"%char).
    + change (render (CArr (map (strip_element c) items) false []))
        with ("["%char :: join [","%char] (map element_text (map (strip_element c) items))
                          ++ [] ++ [] ++ ["]"%char]).
      cbn [app]. rewrite <- !app_assoc. reflexivity.
    + change (render (CArr (map (strip_element c) items) comma gap))
        with ("["%char :: join [","%char] (map element_text (map (strip_element c) items))
                          ++ comma_text comma ++ gap ++ ["]"%char]).
      cbn [app]. rewrite <- !app_assoc. reflexivity.
  - cbn [cst_ok] in Hok. apply andb_true_iff in Hok as [Hok _].
    apply andb_true_iff in Hok as [Hmembers Hgap]. cbn [strings_untouched] in Hs.
    rewrite forallb_and in Hs. apply andb_true_iff in Hs as [Hkeys Hs].
    assert (Hcarried : Forall (fun m => carried c (m_value m)) members).
    { clear -IH Hmembers Hs. induction IH as [|m members Hm _ IHl]; [constructor|].
      cbn [forallb] in Hmembers, Hs. apply andb_true_iff in Hmembers as [H1 H2].
      apply andb_true_iff in Hs as [H3 H4]. constructor; [|apply IHl; assumption].
      apply andb_true_iff in H1 as [H1 _]. apply andb_true_iff in H1 as [_ H1].
      apply Hm; assumption. }
    change (render (CObj members comma gap))
      with ("{"%char :: join [","%char] (map member_text members)
                        ++ comma_text comma ++ gap ++ ["}"%char]).
    cbn [app sub_go]. change (Ascii.eqb "{"%char ","%char) with false. cbn match.
    rewrite <- !app_assoc. cbn [app].
    rewrite (sub_go_members c members _ Hc Hmembers Hkeys Hcarried).
    rewrite (sub_go_closing c "}"%char comma gap rest Hc eq_refl Hgap).
    cbn [strip].
    change (map (fun m => Member (m_before m) (m_key m) (m_colon_l m) (m_colon_r m)
                            (strip c (m_value m)) (m_after m)) members)
      with (map (strip_member c) members).
    destruct (comma && Ascii.eqb c "}"%char).
    + change (render (CObj (map (strip_member c) members) false []))
        with ("{"%char :: join [","%char] (map member_text (map (strip_member c) members))
                          ++ [] ++ [] ++ ["}"%char]).
      cbn [app]. rewrite <- !app_assoc. reflexivity.
    + change (render (CObj (map (strip_member c) members) comma gap))
        with ("{"%char :: join [","%char] (map member_text (map (strip_member c) members))
                          ++ comma_text comma ++ gap ++ ["}"%char]).
      cbn [app]. rewrite <- !app_assoc. reflexivity.
Qed.

(** Taking the trailing commas out changes neither the value nor the
    well-formedness of a tree, nor its strings. *)
Lemma value_strip (c : ascii) (x : cst) : value (strip c x) = value x.
Proof.
  induction x as [| b | n | s | items comma gap IH | members comma gap IH] using cst_ind;
    try reflexivity.
  - assert (E : map (fun it => value (e_value it))
                  (map (fun it => Element (e_before it) (strip c (e_value it)) (e_after it))
                     items)
                = map (fun it => value (e_value it)) items).
    { induction IH as [|it items Hit _ IHl]; [reflexivity|].
      cbn [map e_value]. rewrite Hit, IHl. reflexivity. }
    cbn [strip]. destruct (comma && Ascii.eqb c "]"%char); cbn [value]; rewrite E; reflexivity.
  - assert (E : forall acc,
               fold_left (fun d m => dict_set (m_key m) (value (m_value m)) d)
                 (map (fun m => Member (m_before m) (m_key m) (m_colon_l m) (m_colon_r m)
                                  (strip c (m_value m)) (m_after m)) members) acc
               = fold_left (fun d m => dict_set (m_key m) (value (m_value m)) d) members acc).
    { induction IH as [|m members Hm _ IHl]; intros acc; [reflexivity|].
      cbn [map fold_left m_key m_value]. rewrite Hm. apply IHl. }
    cbn [strip]. destruct (comma && Ascii.eqb c "}"%char); cbn [value]; rewrite E; reflexivity.
Qed.

Lemma is_nil_map {A B} (f : A -> B) (l : list A) : is_nil (map f l) = is_nil l.
Proof. destruct l; reflexivity. Qed.

Lemma cst_ok_strip (c : ascii) (x : cst) : cst_ok x = true -> cst_ok (strip c x) = true.
Proof.
  induction x as [| b | n | s | items comma gap IH | members comma gap IH] using cst_ind;
    try (intros; reflexivity).
  - cbn [cst_ok]. intros H. apply andb_true_iff in H as [H Hc].
    apply andb_true_iff in H as [Hitems Hgap].
    assert (E : forallb (fun it => all_ws (e_before it) && cst_ok (e_value it)
                                   && all_ws (e_after it))
                  (map (fun it => Element (e_before it) (strip c (e_value it)) (e_after it))
                     items) = true).
    { clear -IH Hitems. induction IH as [|it items Hit _ IHl]; [reflexivity|].
      cbn [forallb] in Hitems. apply andb_true_iff in Hitems as [H1 H2].
      apply andb_true_iff in H1 as [H1 Ha]. apply andb_true_iff in H1 as [Hb H1].
      cbn [map forallb e_before e_value e_after]. rewrite Hb, Ha, (Hit H1), (IHl H2).
      reflexivity. }
    cbn [strip]. destruct (comma && Ascii.eqb c "]"%char); cbn [cst_ok]; rewrite E.
    + reflexivity.
    + rewrite Hgap, is_nil_map, Hc. reflexivity.
  - cbn [cst_ok]. intros H. apply andb_true_iff in H as [H Hc].
    apply andb_true_iff in H as [Hmembers Hgap].
    assert (E : forallb (fun m => all_ws (m_before m) && all_ws (m_colon_l m)
                                  && all_ws (m_colon_r m) && cst_ok (m_value m)
                                  && all_ws (m_after m))
                  (map (fun m => Member (m_before m) (m_key m) (m_colon_l m) (m_colon_r m)
                                   (strip c (m_value m)) (m_after m)) members) = true).
    { clear -IH Hmembers. induction IH as [|m members Hm _ IHl]; [reflexivity|].
      cbn [forallb] in Hmembers. apply andb_true_iff in Hmembers as [H1 H2].
      apply andb_true_iff in H1 as [H1 Ha]. apply andb_true_iff in H1 as [H1 Hv].
      apply andb_true_iff in H1 as [H1 Hr]. apply andb_true_iff in H1 as [Hb Hl].
      cbn [map forallb m_before m_colon_l m_colon_r m_value m_after].
      rewrite Hb, Hl, Hr, Ha, (Hm Hv), (IHl H2). reflexivity. }
    cbn [strip]. destruct (comma && Ascii.eqb c "}"%char); cbn [cst_ok]; rewrite E.
    + reflexivity.
    + rewrite Hgap, is_nil_map, Hc. reflexivity.
Qed.

Lemma strings_untouched_strip (c c' : ascii) (x : cst) :
  strings_untouched c' (strip c x) = strings_untouched c' x.
Proof.
  induction x as [| b | n | s | items comma gap IH | members comma gap IH] using cst_ind;
    try reflexivity.
  - assert (E : forallb (fun it => strings_untouched c' (e_value it))
                  (map (fun it => Element (e_before it) (strip c (e_value it)) (e_after it))
                     items)
                = forallb (fun it => strings_untouched c' (e_value it)) items).
    { induction IH as [|it items Hit _ IHl]; [reflexivity|].
      cbn [map forallb e_value]. rewrite Hit, IHl. reflexivity. }
    cbn [strip]. destruct (comma && Ascii.eqb c "]"%char); cbn [strings_untouched]; exact E.
  - assert (E : forallb (fun m => untouched c' (m_key m) && strings_untouched c' (m_value m))
                  (map (fun m => Member (m_before m) (m_key m) (m_colon_l m) (m_colon_r m)
                                   (strip c (m_value m)) (m_after m)) members)
                = forallb (fun m => untouched c' (m_key m)
                                    && strings_untouched c' (m_value m)) members).
    { induction IH as [|m members Hm _ IHl]; [reflexivity|].
      cbn [map forallb m_key m_value]. rewrite Hm, IHl. reflexivity. }
    cbn [strip]. destruct (comma && Ascii.eqb c "}"%char); cbn [strings_untouched]; exact E.
Qed.

(** After both passes no trailing comma is left. *)
Lemma strict_strip (x : cst) : strict (strip "]"%char (strip "}"%char x)) = true.
Proof.
  induction x as [| b | n | s | items comma gap IH | members comma gap IH] using cst_ind;
    try reflexivity.
  - cbn [strip]. change (Ascii.eqb "}"%char "]"%char) with false. rewrite andb_false_r.
    cbn [strip]. change (Ascii.eqb "]"%char "]"%char) with true. rewrite andb_true_r.
    rewrite map_map. cbn [e_before e_value e_after].
    assert (E : forallb (fun it => strict (e_value it))
                  (map (fun it => Element (e_before it)
                                    (strip "]"%char (strip "}"%char (e_value it)))
                                    (e_after it)) items) = true).
    { induction IH as [|it items Hit _ IHl]; [reflexivity|].
      cbn [map forallb e_value]. rewrite Hit, IHl. reflexivity. }
    destruct comma; cbn [strict]; rewrite E; reflexivity.
  - cbn [strip]. change (Ascii.eqb "}"%char "}"%char) with true. rewrite andb_true_r.
    assert (E : forallb (fun m => strict (m_value m))
                  (map (fun m => Member (m_before m) (m_key m) (m_colon_l m) (m_colon_r m)
                                   (strip "]"%char (strip "}"%char (m_value m)))
                                   (m_after m)) members) = true).
    { induction IH as [|m members Hm _ IHl]; [reflexivity|].
      cbn [map forallb m_value]. rewrite Hm, IHl. reflexivity. }
    destruct comma; cbn [strip]; change (Ascii.eqb "]"%char "}"%char) with false;
      cbn [andb]; rewrite ?andb_false_r; rewrite map_map;
      cbn [m_before m_key m_colon_l m_colon_r m_value m_after strict]; rewrite E; reflexivity.
Qed.

(** *** The scanner rejects a trailing comma *)










(** ** Loading an index *)

(** The records a parsed document holds under [key]; none when the
    document did not parse or has another shape. *)
Definition records_under (key : string) (doc : result json) : list json :=
  match doc with
  | Ok (JObj d) =>
      match dict_get key d with
      | Some (JArr recs) => recs
      | _ => []
      end
  | _ => []
  end.

(** The two substitutions of [load_arweave_index], in their order. *)
Definition sanitised (s : string) : string :=
  re_sub_trailing "]" (re_sub_trailing "}" s).

(** What [load_arweave_index] returns, in every world. *)
Lemma load_arweave_index_returns (index_file : string) (w : world) :
  fst (load_arweave_index index_file w)
  = Ok match files w !! index_file, head_fault w with
       | Some s, Pass => records_under "files" (loads (sanitised s))
       | _, _ => []
       end.
Proof.
  destruct w as [fs sn lg nt cl ft].
  unfold load_arweave_index, sanitised. io_norm.
  destruct (fs !! index_file) as [s|] eqn:Hs.
  - rewrite (bool_decide_eq_true_2 (is_Some (Some s))) by eauto. io_norm.
    rewrite read_text_eq. io_norm. rewrite Hs.
    destruct ft as [|[|k] ft]; io_norm; try reflexivity.
    all: destruct (loads _) as [[| | | | |d]|x]; try reflexivity.
    all: cbn [records_under]; destruct (dict_get "files" d) as [[| | | |entries|]|];
      reflexivity.
  - rewrite (bool_decide_eq_false_2 (is_Some None)) by (apply is_Some_None). reflexivity.
Qed.

(** What [load_atproto_posts_index] returns, in every world: the text
    of the file is parsed as it is. *)
Lemma load_atproto_posts_index_returns (index_file : string) (w : world) :
  fst (load_atproto_posts_index index_file w)
  = Ok match files w !! index_file, head_fault w with
       | Some s, Pass => records_under "posts" (loads s)
       | _, _ => []
       end.
Proof.
  destruct w as [fs sn lg nt cl ft].
  unfold load_atproto_posts_index. io_norm.
  destruct (fs !! index_file) as [s|] eqn:Hs.
  - rewrite (bool_decide_eq_true_2 (is_Some (Some s))) by eauto. io_norm.
    rewrite read_text_eq. io_norm. rewrite Hs.
    destruct ft as [|[|k] ft]; io_norm; try reflexivity.
    all: destruct (loads _) as [[| | | | |d]|x]; try reflexivity.
    all: cbn [records_under]; destruct (dict_get "posts" d) as [[| | | |entries|]|];
      reflexivity.
  - rewrite (bool_decide_eq_false_2 (is_Some None)) by (apply is_Some_None). reflexivity.
Qed.

(** Both substitutions on a text of the grammar: the trailing commas
    go, the rest stays, and the decoder reads the value. *)
Theorem loads_sanitised (x : cst) (lead trail : text) :
  cst_ok x = true -> all_ws lead = true -> all_ws trail = true ->
  strings_untouched "}"%char x = true -> strings_untouched "]"%char x = true ->
  sanitised (S_ (lead ++ render x ++ trail))
  = S_ (lead ++ render (strip "]"%char (strip "}"%char x)) ++ trail)
  /\ loads (sanitised (S_ (lead ++ render x ++ trail))) = Ok (value x).
Proof.
  intros Hok Hlead Htrail Hs1 Hs2.
  assert (Hpass : forall c y, closer c = true -> cst_ok y = true ->
                              strings_untouched c y = true ->
                              sub_go c 0 (lead ++ render y ++ trail)
                              = lead ++ render (strip c y) ++ trail).
  { intros c y Hc Hy Hsy. rewrite (sub_go_plain c lead) by (apply all_ws_plain, Hlead).
    rewrite (sub_go_render c y Hc Hy Hsy trail).
    rewrite <- (app_nil_r trail) at 1.
    rewrite (sub_go_plain c trail) by (apply all_ws_plain, Htrail).
    cbn [sub_go]. rewrite app_nil_r. reflexivity. }
  assert (E : sanitised (S_ (lead ++ render x ++ trail))
              = S_ (lead ++ render (strip "]"%char (strip "}"%char x)) ++ trail)).
  { unfold sanitised, re_sub_trailing. rewrite !T_S, (Hpass "}"%char x eq_refl Hok Hs1).
    rewrite (Hpass "]"%char); [reflexivity|reflexivity|apply cst_ok_strip, Hok|].
    rewrite strings_untouched_strip. exact Hs2. }
  split; [exact E|]. rewrite E. unfold loads. rewrite T_S.
  rewrite (decode_render _ lead trail); [|apply cst_ok_strip, cst_ok_strip, Hok
                                          |apply strict_strip|exact Hlead|exact Htrail].
  rewrite !value_strip. reflexivity.
Qed.

(** *** Saving, then loading *)

(** The strings of a value in which the substitution finds nothing. *)
Fixpoint quiet (c : ascii) (v : json) : bool :=
  match v with
  | JStr s => untouched c s
  | JArr xs => forallb (quiet c) xs
  | JObj kvs => forallb (fun kv => untouched c (fst kv) && quiet c (snd kv)) kvs
  | _ => true
  end.

Lemma strings_untouched_layout (c : ascii) (v : json) :
  forall lvl, strings_untouched c (layout lvl v) = quiet c v.
Proof.
  induction v as [| b | n | s | xs IH | kvs IH] using json_ind; intros lvl; try reflexivity.
  - destruct xs as [|x xs]; [reflexivity|].
    cbn [layout strings_untouched quiet]. set (items := x :: xs) in *.
    rewrite forallb_map_comp. cbn [e_value]. clear -IH.
    induction IH as [|y ys Hy _ IHys]; [reflexivity|].
    cbn [forallb]. rewrite Hy, IHys. reflexivity.
  - destruct kvs as [|kv kvs]; [reflexivity|].
    cbn [layout strings_untouched quiet]. set (items := kv :: kvs) in *.
    rewrite forallb_map_comp. cbn [m_key m_value]. clear -IH.
    induction IH as [|y ys Hy _ IHys]; [reflexivity|].
    cbn [forallb]. rewrite Hy, IHys. reflexivity.
Qed.

(** The substitutions leave alone a document written by [json.dump]
    whose strings they leave alone. *)
Lemma loads_sanitised_dumps (v : json) :
  keys_unique v = true -> quiet "}"%char v = true -> quiet "]"%char v = true ->
  loads (sanitised (dumps v)) = Ok v.
Proof.
  intros Hu H1 H2. unfold dumps. rewrite <- (render_layout v 0).
  pose proof (loads_sanitised (layout 0 v) [] [] (cst_ok_layout v 0) eq_refl eq_refl) as H.
  rewrite !strings_untouched_layout in H. destruct (H H1 H2) as [_ E].
  cbn [app] in E. rewrite app_nil_r in E. rewrite E, (value_layout v 0 Hu). reflexivity.
Qed.

(** X18.  The social index comes back as it was saved: after a save
    that returned true, the load of the same file returns the records
    that were saved, whatever they hold. *)
Theorem atproto_round_trip (posts_data : list json) (index_file : string) (w : world) :
  let saved := save_atproto_posts_index posts_data index_file w in
  forallb keys_unique posts_data = true ->
  fst saved = Ok true -> head_fault (snd saved) = Pass ->
  fst (load_atproto_posts_index index_file (snd saved)) = Ok posts_data.
Proof.
  cbv zeta. intros Hu Hsaved Hpass.
  pose proof (save_atproto_posts_index_contract posts_data index_file w) as H.
  cbv zeta in H. destruct H as (_ & Hfile & _). specialize (Hfile Hsaved).
  rewrite load_atproto_posts_index_returns, Hfile, Hpass. unfold posts_text.
  rewrite loads_dumps; [reflexivity|]. cbn [keys_unique forallb map fst snd].
  rewrite Hu. reflexivity.
Qed.

(** X19.  The archive comes back as it was saved when the substitutions
    find nothing in the strings of its records. *)
Theorem arweave_round_trip (index_data : list json) (index_file bak tmp : string) (w : world) :
  let saved := save_arweave_index index_data index_file w in
  siblings index_file bak tmp ->
  forallb keys_unique index_data = true ->
  forallb (quiet "}"%char) index_data = true -> forallb (quiet "]"%char) index_data = true ->
  fst saved = Ok true -> head_fault (snd saved) = Pass ->
  fst (load_arweave_index index_file (snd saved)) = Ok index_data.
Proof.
  cbv zeta. intros Hsib Hu Hq1 Hq2 Hsaved Hpass.
  pose proof (save_arweave_index_contract index_data index_file bak tmp w Hsib) as H.
  cbv zeta in H. destruct H as (_ & Hfile & _). destruct (Hfile Hsaved) as [Hdoc _].
  rewrite load_arweave_index_returns, Hdoc, Hpass. unfold archive_text.
  rewrite loads_sanitised_dumps; [reflexivity| | |].
  - cbn [keys_unique forallb map fst snd]. rewrite Hu. reflexivity.
  - cbn [quiet forallb fst snd]. rewrite Hq1. reflexivity.
  - cbn [quiet forallb fst snd]. rewrite Hq2. reflexivity.
Qed.


(** A record whose title ends in a comma and a closing bracket. *)
Definition draft_record : json :=
  JObj [("uuid", JStr "u1"); ("title", JStr "Drafts [a, b,]")].

(** C1, at the record [draft_record]: the save of the archive reports
    success, and the load that follows returns a record with another
    title, the comma in front of the closing bracket taken out by the
    second substitution; the social index returns the record it was
    given. *)
Theorem C1_archive_round_trip_alters_title :
  let saved := save_arweave_index [draft_record] archive_path empty_world in
  let posted := save_atproto_posts_index [draft_record] posts_path empty_world in
  fst saved = Ok true
  /\ fst (load_arweave_index archive_path (snd saved))
     = Ok [JObj [("uuid", JStr "u1"); ("title", JStr "Drafts [a, b]")]]
  /\ fst posted = Ok true
  /\ fst (load_atproto_posts_index posts_path (snd posted)) = Ok [draft_record].
Proof. vm_compute. repeat split. Qed.

(** *** Hand-edited documents *)






(** * Further properties *)

(** ** Frame rules

    A relation between the state before and the state after, kept by
    every step of a computation, is kept by the computation. *)

Section Frames.

Context {S : Type} (P : S -> S -> Prop) `{!Reflexive P, !Transitive P}.

Definition keeps {A} (m : St S A) : Prop := forall s, P s (snd (m s)).

Lemma keeps_ret {A} (a : A) : keeps (ret a).
Proof. intros s. reflexivity. Qed.

Lemma keeps_raise {A} (x : exn) : keeps (@raise S A x).
Proof. intros s. reflexivity. Qed.

Lemma keeps_lift {A} (r : result A) : keeps (@lift S A r).
Proof. intros s. reflexivity. Qed.

Lemma keeps_bind {A B} (m : St S A) (k : A -> St S B) :
  keeps m -> (forall a, keeps (k a)) -> keeps (bind m k).
Proof.
  intros Hm Hk s. unfold bind. specialize (Hm s).
  destruct (m s) as [[a|x] s']; cbn [snd] in *; [|exact Hm].
  transitivity s'; [exact Hm|apply Hk].
Qed.

Lemma keeps_bind_lift {A B} (r : result A) (k : A -> St S B) :
  (forall a, r = Ok a -> keeps (k a)) -> keeps (bind (lift r) k).
Proof.
  intros Hk s. unfold bind, lift. destruct r as [a|x]; [apply (Hk a eq_refl)|reflexivity].
Qed.

Lemma keeps_try_except {A} (m : St S A) (h : exn -> St S A) :
  keeps m -> (forall x, keeps (h x)) -> keeps (try_except m h).
Proof.
  intros Hm Hh s. unfold try_except. specialize (Hm s).
  destruct (m s) as [[a|x] s']; cbn [snd] in *; [exact Hm|].
  transitivity s'; [exact Hm|apply Hh].
Qed.

End Frames.

(** Code that returns, whatever the state. *)
Definition total {S A} (m : St S A) : Prop := forall s, exists a, fst (m s) = Ok a.

Lemma total_ret {S A} (a : A) : total (@ret S A a).
Proof. intros s. eexists. reflexivity. Qed.

Lemma total_bind {S A B} (m : St S A) (k : A -> St S B) :
  total m -> (forall a, total (k a)) -> total (bind m k).
Proof.
  intros Hm Hk s. unfold bind. destruct (Hm s) as [a Ha].
  destruct (m s) as [[a'|x] s']; cbn [fst] in Ha; [|discriminate]. apply Hk.
Qed.

Lemma total_try_except {S A} (m : St S A) (h : exn -> St S A) :
  (forall x, total (h x)) -> total (try_except m h).
Proof.
  intros Hh s. unfold try_except. destruct (m s) as [[a|x] s']; [eexists; reflexivity|apply Hh].
Qed.

Lemma total_logger (l : level) (msg : string) : total (logger l msg).
Proof. intros s. eexists. reflexivity. Qed.

Lemma total_app_notify (cb : bool) (msg : string) : total (app_notify cb msg).
Proof. intros s. unfold app_notify. destruct cb; eexists; reflexivity. Qed.

Lemma total_path_exists (p : string) : total (path_exists p).
Proof. intros s. eexists. reflexivity. Qed.

Lemma total_zoom {A} (m : M A) : total m -> total (zoom m).
Proof.
  intros Hm [w l]. unfold zoom. cbn [fst snd]. destruct (Hm w) as [a Ha].
  destruct (m w) as [r w']. cbn [fst] in *. subst r. eexists. reflexivity.
Qed.

Lemma total_with_locals {A} (m : L A) (l : locals) : total m -> total (with_locals m l).
Proof.
  intros Hm w. unfold with_locals. destruct (Hm (w, l)) as [a Ha].
  destruct (m (w, l)) as [[a'|x] [w' l']]; cbn [fst] in Ha; [|discriminate].
  eexists. reflexivity.
Qed.

(** A relation on worlds, on the states of a batch; and one on the
    locals. *)
Definition on_world (P : world -> world -> Prop) (s s' : world * locals) : Prop :=
  P (fst s) (fst s').

Definition on_locals (Q : locals -> locals -> Prop) (s s' : world * locals) : Prop :=
  Q (snd s) (snd s').

#[local] Instance on_world_refl (P : world -> world -> Prop) `{!Reflexive P} :
  Reflexive (on_world P).
Proof. intros s. unfold on_world. reflexivity. Qed.

#[local] Instance on_world_trans (P : world -> world -> Prop) `{!Transitive P} :
  Transitive (on_world P).
Proof. intros a b c. unfold on_world. apply transitivity. Qed.

#[local] Instance on_locals_refl (Q : locals -> locals -> Prop) `{!Reflexive Q} :
  Reflexive (on_locals Q).
Proof. intros s. unfold on_locals. reflexivity. Qed.

#[local] Instance on_locals_trans (Q : locals -> locals -> Prop) `{!Transitive Q} :
  Transitive (on_locals Q).
Proof. intros a b c. unfold on_locals. apply transitivity. Qed.

Lemma keeps_zoom (P : world -> world -> Prop) {A} (m : M A) :
  keeps P m -> keeps (on_world P) (zoom m).
Proof.
  intros Hm [w l]. unfold zoom, on_world. cbn [fst snd]. specialize (Hm w).
  destruct (m w) as [r w']. exact Hm.
Qed.

Lemma keeps_zoom_locals (Q : locals -> locals -> Prop) `{!Reflexive Q} {A} (m : M A) :
  keeps (on_locals Q) (zoom m).
Proof.
  intros [w l]. unfold zoom, on_locals. cbn [fst snd].
  destruct (m w) as [r w']. reflexivity.
Qed.

Lemma keeps_locals_step (P : world -> world -> Prop) `{!Reflexive P} {A} (m : L A) :
  (forall s, fst (snd (m s)) = fst s) -> keeps (on_world P) m.
Proof. intros Hm s. unfold on_world. rewrite Hm. reflexivity. Qed.

Lemma keeps_with_locals (P : world -> world -> Prop) {A} (m : L A) (l : locals) :
  keeps (on_world P) m -> keeps P (with_locals m l).
Proof.
  intros Hm w. unfold with_locals. specialize (Hm (w, l)). unfold on_world in Hm.
  destruct (m (w, l)) as [[a|x] [w' l']]; exact Hm.
Qed.

(** *** Relations on worlds that the system calls keep *)

(** [P] holds from a world to the same world with more records in its
    log, more notifications, or fewer pending faults. *)
Class WorldFrame (P : world -> world -> Prop) : Prop := {
  frame_refl : forall w, P w w;
  frame_trans : forall a b c, P a b -> P b c -> P a c;
  frame_log : forall w l msg, P w (logged w l msg);
  frame_note : forall w msg, P w (noted w true msg);
  frame_pop : forall w, P w (popped w)
}.

#[local] Instance frame_reflexive (P : world -> world -> Prop) `{!WorldFrame P} : Reflexive P.
Proof. exact frame_refl. Qed.

#[local] Instance frame_transitive (P : world -> world -> Prop) `{!WorldFrame P} : Transitive P.
Proof. exact frame_trans. Qed.

(** [P] holds across a change of the files in [X]. *)
Definition may_write (P : world -> world -> Prop) (X : gset string) : Prop :=
  forall w fs',
    (forall q, q ∉ X -> fs' !! q = files w !! q) ->
    P w (World fs' (fs' :: seen w) (log w) (notes w) (calls w) (faults w)).

(** [P] holds across the start of a subprocess. *)
Definition may_call (P : world -> world -> Prop) : Prop :=
  forall w argv, P w (called w argv).

Section SystemCalls.

Context (P : world -> world -> Prop) `{!WorldFrame P}.

Lemma keeps_logger (l : level) (msg : string) : keeps P (logger l msg).
Proof. intros w. apply frame_log. Qed.

Lemma keeps_app_notify (cb : bool) (msg : string) : keeps P (app_notify cb msg).
Proof. intros w. unfold app_notify. destruct cb; [apply frame_note|apply frame_refl]. Qed.

Lemma keeps_path_exists (p : string) : keeps P (path_exists p).
Proof. intros w. apply frame_refl. Qed.

Lemma keeps_mkdir_parents (p : string) : keeps P (mkdir_parents p).
Proof. intros w. rewrite mkdir_parents_eq. destruct (head_fault w); apply frame_pop. Qed.

Lemma keeps_read_text (p : string) : keeps P (read_text p).
Proof.
  intros w. rewrite read_text_eq.
  destruct (head_fault w); [destruct (files w !! p)|]; apply frame_pop.
Qed.

Lemma keeps_subprocess_exec (e : env) (argv : list string) :
  may_call P -> keeps P (subprocess_exec e argv).
Proof.
  intros Hc w. unfold subprocess_exec. cbv zeta.
  destruct (run e (length (calls w)) argv); apply Hc.
Qed.

Context (X : gset string) (HX : may_write P X).

Lemma keeps_write_text (p s : string) : p ∈ X -> keeps P (write_text p s).
Proof.
  intros Hp w. rewrite write_text_eq. destruct (head_fault w); [|apply frame_pop].
  cbv zeta.
  assert (P w (put (popped w) p "")) as H1.
  { apply (frame_trans _ (popped w)); [apply frame_pop|].
    apply HX. intros q Hq. cbn [files popped]. apply lookup_insert_ne. set_solver. }
  destruct (head_fault (put (popped w) p "")).
  - apply (frame_trans _ _ _ H1). apply (frame_trans _ (popped (put (popped w) p ""))).
    + apply frame_pop.
    + pose proof (HX (popped (put (popped w) p "")) (<[p:=s]> (files w))) as H2.
      apply H2. intros q Hq. cbn [files popped put].
      rewrite !lookup_insert_ne by set_solver. reflexivity.
  - apply (frame_trans _ _ _ H1). apply (frame_trans _ (popped (put (popped w) p ""))).
    + apply frame_pop.
    + pose proof (HX (popped (put (popped w) p "")) (<[p:=S_ (take written (T s))]> (files w)))
        as H2.
      apply H2. intros q Hq. cbn [files popped put].
      rewrite !lookup_insert_ne by set_solver. reflexivity.
Qed.

Lemma keeps_copy2 (src dst : string) : dst ∈ X -> keeps P (copy2 src dst).
Proof.
  intros Hp w. rewrite copy2_eq. destruct (head_fault w); [|apply frame_pop].
  destruct (files w !! src) as [s|]; [|apply frame_pop].
  apply (frame_trans _ (popped w)); [apply frame_pop|].
  apply HX. intros q Hq. cbn [files popped]. apply lookup_insert_ne. set_solver.
Qed.

Lemma keeps_os_replace (src dst : string) : src ∈ X -> dst ∈ X -> keeps P (os_replace src dst).
Proof.
  intros Hs Hd w. rewrite os_replace_eq. destruct (head_fault w); [|apply frame_pop].
  destruct (files w !! src) as [s|]; [|apply frame_pop].
  apply (frame_trans _ (popped w)); [apply frame_pop|].
  apply (HX (popped w)). intros q Hq. cbn [files popped].
  rewrite lookup_insert_ne by set_solver. apply lookup_delete_ne. set_solver.
Qed.

End SystemCalls.

(** No subprocess is started. *)
Definition same_calls (w w' : world) : Prop := calls w' = calls w.

(** The files outside [X] are as they were. *)
Definition untouched_outside (X : gset string) (w w' : world) : Prop :=
  forall q, q ∉ X -> files w' !! q = files w !! q.

#[local] Instance same_calls_frame : WorldFrame same_calls.
Proof.
  split; unfold same_calls.
  - reflexivity.
  - intros a b c H1 H2. congruence.
  - reflexivity.
  - reflexivity.
  - reflexivity.
Qed.

Lemma same_calls_may_write (X : gset string) : may_write same_calls X.
Proof. intros w fs' _. reflexivity. Qed.

#[local] Instance untouched_outside_frame (X : gset string) : WorldFrame (untouched_outside X).
Proof.
  split; unfold untouched_outside.
  - reflexivity.
  - intros a b c H1 H2 q Hq. rewrite (H2 q Hq). apply H1, Hq.
  - reflexivity.
  - reflexivity.
  - reflexivity.
Qed.

Lemma untouched_outside_may_write (X Y : gset string) :
  X ⊆ Y -> may_write (untouched_outside Y) X.
Proof. intros HXY w fs' H q Hq. cbn [files]. apply H. set_solver. Qed.

Lemma untouched_outside_may_call (X : gset string) : may_call (untouched_outside X).
Proof. intros w argv q Hq. reflexivity. Qed.

Lemma untouched_outside_empty (w w' : world) : untouched_outside ∅ w w' -> files w' = files w.
Proof. intros H. apply map_eq. intros q. apply H. set_solver. Qed.

(** The files [save_arweave_index] works on: the index, its backup and
    the temporary file. *)
Definition index_siblings (index_file : string) : gset string :=
  {[index_file]}
  ∪ match with_suffix index_file ".json.bak" with Ok b => {[b]} | Raise _ => ∅ end
  ∪ match with_suffix index_file ".tmp" with Ok t => {[t]} | Raise _ => ∅ end.

(** Breaks a computation into its steps. *)
Ltac frame_instances := try (solve [apply _]).

Ltac keeps_go :=
  repeat first
    [ progress cbv zeta
    | apply keeps_ret; frame_instances | apply keeps_raise; frame_instances
    | apply keeps_lift; frame_instances
    | apply keeps_logger; frame_instances | apply keeps_app_notify; frame_instances
    | apply keeps_path_exists; frame_instances
    | apply keeps_mkdir_parents; frame_instances | apply keeps_read_text; frame_instances
    | apply keeps_zoom
    | match goal with
      | |- keeps _ (set_result _ _) =>
          apply keeps_locals_step; frame_instances; intros [? ?]; reflexivity
      | |- keeps _ (set_index _) =>
          apply keeps_locals_step; frame_instances; intros [? ?]; reflexivity
      | |- keeps _ get_index =>
          apply keeps_locals_step; frame_instances; intros [? ?]; reflexivity
      end
    | match goal with
      | |- keeps _ (bind (lift _) _) => apply keeps_bind_lift; frame_instances; intros ? ?
      | |- keeps _ (bind _ _) => apply keeps_bind; frame_instances; [|intros ?]
      | |- keeps _ (try_except _ _) => apply keeps_try_except; frame_instances; [|intros ?]
      | |- keeps _ (match ?x with _ => _ end) => destruct x
      end ].

Section StoreFrames.

Context (P : world -> world -> Prop) `{!WorldFrame P}.

Lemma keeps_load_arweave_index (index_file : string) : keeps P (load_arweave_index index_file).
Proof. unfold load_arweave_index. keeps_go. Qed.

Lemma keeps_load_atproto_posts_index (index_file : string) :
  keeps P (load_atproto_posts_index index_file).
Proof. unfold load_atproto_posts_index. keeps_go. Qed.

Lemma keeps_find_wallet_path (e : env) : keeps P (_find_wallet_path e).
Proof.
  assert (forall paths, keeps P (default_wallet_loop e paths)) as Hloop.
  { induction paths as [|p ps IH]; cbn [default_wallet_loop]; keeps_go. exact IH. }
  unfold _find_wallet_path, env_wallet_path. keeps_go; apply Hloop.
Qed.

Lemma keeps_load_atproto_credentials (e : env) (creds_file : string) :
  keeps P (load_atproto_credentials e creds_file).
Proof. unfold load_atproto_credentials. keeps_go. Qed.

Lemma keeps_save_arweave_index (index_data : list json) (index_file : string)
  (X : gset string) :
  may_write P X -> index_siblings index_file ⊆ X ->
  keeps P (save_arweave_index index_data index_file).
Proof.
  intros HX Hsub. unfold save_arweave_index.
  assert (index_file ∈ X) as H1 by (apply Hsub; unfold index_siblings; set_solver).
  assert (forall b, with_suffix index_file ".json.bak" = Ok b -> b ∈ X) as H2.
  { intros b Hb. apply Hsub. unfold index_siblings. rewrite Hb. set_solver. }
  assert (forall t, with_suffix index_file ".tmp" = Ok t -> t ∈ X) as H3.
  { intros t Ht. apply Hsub. unfold index_siblings. rewrite Ht. set_solver. }
  keeps_go;
    first [ apply (keeps_copy2 P X HX); auto
          | apply (keeps_write_text P X HX); auto
          | apply (keeps_os_replace P X HX); auto ].
Qed.

Lemma keeps_save_atproto_posts_index (posts_data : list json) (index_file : string)
  (X : gset string) :
  may_write P X -> index_file ∈ X ->
  keeps P (save_atproto_posts_index posts_data index_file).
Proof.
  intros HX H1. unfold save_atproto_posts_index.
  keeps_go. apply (keeps_write_text P X HX); assumption.
Qed.

End StoreFrames.

(** *** The batches, step by step *)

Section BatchFrames.

Context (P : world -> world -> Prop) `{!WorldFrame P}.
Context (e : env) (cb : bool).

Lemma keeps_check_bsky_cli_installed : may_call P -> keeps P (check_bsky_cli_installed e).
Proof.
  intros Hc. unfold check_bsky_cli_installed. keeps_go.
  apply keeps_subprocess_exec; assumption.
Qed.

Lemma keeps_execute_arkb_deploy (file_path : string) (tags : list (string * string))
  (wallet_path : string) :
  may_call P -> keeps P (_execute_arkb_deploy e file_path tags wallet_path).
Proof.
  intros Hc. unfold _execute_arkb_deploy. keeps_go.
  all: try (apply keeps_subprocess_exec; assumption).
Qed.

Lemma keeps_upload_to_arweave (file_path : string) (tags : list (string * string))
  (wallet_path : option string) (i : nat) :
  arweave_TEST_MODE e = true \/ may_call P ->
  keeps P (upload_to_arweave e file_path tags wallet_path i).
Proof.
  intros Hc. unfold upload_to_arweave.
  destruct (arweave_TEST_MODE e); [keeps_go|].
  destruct Hc as [Hc|Hc]; [discriminate|].
  keeps_go; first [apply keeps_find_wallet_path; apply _
                  |apply keeps_execute_arkb_deploy; assumption].
Qed.

Lemma keeps_post_to_atproto (file_path : string) (credentials : option ATProtoCredentials)
  (user_text : string) :
  atproto_TEST_MODE e = true \/ may_call P ->
  keeps P (post_to_atproto e file_path credentials cb user_text).
Proof.
  intros Hc. unfold post_to_atproto.
  destruct (atproto_TEST_MODE e); [keeps_go|].
  destruct Hc as [Hc|Hc]; [discriminate|].
  keeps_go;
    first [apply keeps_load_atproto_credentials; apply _
          |apply keeps_check_bsky_cli_installed; assumption
          |apply keeps_subprocess_exec; assumption].
Qed.

Context (X : gset string) (HX : may_write P X).

Lemma keeps_upload_one (index_file : string) (wallet_path : option string)
  (i : nat) (file_path : string) :
  arweave_TEST_MODE e = true \/ may_call P -> index_siblings index_file ⊆ X ->
  keeps (on_world P) (upload_one e cb index_file wallet_path i file_path).
Proof.
  intros Hc H1. unfold upload_one. keeps_go;
    first [apply keeps_upload_to_arweave; assumption
          |apply (keeps_save_arweave_index P _ index_file X); assumption].
Qed.

Lemma keeps_upload_loop (index_file : string) (wallet_path : option string)
  (files_to_upload : list string) :
  arweave_TEST_MODE e = true \/ may_call P -> index_siblings index_file ⊆ X ->
  forall i, keeps (on_world P) (upload_loop e cb index_file wallet_path i files_to_upload).
Proof.
  intros Hc H1.
  induction files_to_upload as [|f fs IH]; intros i; cbn [upload_loop]; keeps_go.
  - apply keeps_upload_one; assumption.
  - apply IH.
Qed.

Lemma keeps_upload_files_to_arweave (index_file : string) (files_to_upload : list string) :
  arweave_TEST_MODE e = true \/ may_call P -> index_siblings index_file ⊆ X ->
  keeps P (upload_files_to_arweave e files_to_upload cb index_file).
Proof.
  intros Hc H1. unfold upload_files_to_arweave.
  destruct files_to_upload as [|f fs]; keeps_go;
    first [apply keeps_find_wallet_path; apply _
          |apply keeps_load_arweave_index; apply _
          |apply keeps_with_locals, keeps_upload_loop; assumption].
Qed.

Lemma keeps_post_one (index_file : string) (credentials : option ATProtoCredentials)
  (user_text : string) (i : nat) (file_path : string) :
  atproto_TEST_MODE e = true \/ may_call P -> index_file ∈ X ->
  keeps (on_world P) (post_one e cb index_file credentials user_text i file_path).
Proof.
  intros Hc H1. unfold post_one. keeps_go;
    first [apply keeps_post_to_atproto; assumption
          |apply (keeps_save_atproto_posts_index P _ index_file X); assumption].
Qed.

Lemma keeps_post_loop (index_file : string) (credentials : option ATProtoCredentials)
  (user_text : string) (files_to_post : list string) :
  atproto_TEST_MODE e = true \/ may_call P -> index_file ∈ X ->
  forall i, keeps (on_world P) (post_loop e cb index_file credentials user_text i files_to_post).
Proof.
  intros Hc H1.
  induction files_to_post as [|f fs IH]; intros i; cbn [post_loop]; keeps_go.
  - apply keeps_post_one; assumption.
  - apply IH.
Qed.

Lemma keeps_post_files_to_atproto (index_file user_text : string)
  (files_to_post : list string) :
  atproto_TEST_MODE e = true \/ may_call P -> index_file ∈ X ->
  keeps P (post_files_to_atproto e files_to_post cb index_file user_text).
Proof.
  intros Hc H1. unfold post_files_to_atproto.
  destruct files_to_post as [|f fs]; keeps_go;
    first [apply keeps_load_atproto_credentials; apply _
          |apply keeps_load_atproto_posts_index; apply _
          |apply keeps_with_locals, keeps_post_loop; assumption].
Qed.

End BatchFrames.

(** *** The batches return, with one result for each file *)

Ltac total_go :=
  repeat first
    [ progress cbv zeta
    | apply total_ret | apply total_logger | apply total_app_notify | apply total_path_exists
    | apply total_zoom
    | match goal with
      | |- total (bind _ _) => apply total_bind; [|intros ?]
      | |- total (try_except _ _) => apply total_try_except; intros ?
      | |- total (match ?x with _ => _ end) => destruct x
      end ].




Lemma total_load_atproto_credentials (e : env) (creds_file : string) :
  total (load_atproto_credentials e creds_file).
Proof. unfold load_atproto_credentials. total_go. Qed.









(** The result dictionary keeps its keys once it has the key [f]. *)
Definition keys_kept (f : string) (s s' : world * locals) : Prop :=
  f ∈ dict_keys (results (snd s)) ->
  dict_keys (results (snd s')) = dict_keys (results (snd s)).

#[local] Instance keys_kept_refl (f : string) : Reflexive (keys_kept f).
Proof. intros s _. reflexivity. Qed.

#[local] Instance keys_kept_trans (f : string) : Transitive (keys_kept f).
Proof.
  intros a b c H1 H2 Hin. specialize (H1 Hin). rewrite <- H1 in Hin.
  rewrite (H2 Hin). exact H1.
Qed.










Lemma fst_bind {S A B} (m : St S A) (k : A -> St S B) (s : S) :
  fst (bind m k s)
  = match fst (m s) with
    | Ok a => fst (k a (snd (m s)))
    | Raise x => Raise x
    end.
Proof. unfold bind. destruct (m s) as [[a|x] s']; reflexivity. Qed.

Lemma snd_bind {S A B} (m : St S A) (k : A -> St S B) (s : S) :
  snd (bind m k s)
  = match fst (m s) with
    | Ok a => snd (k a (snd (m s)))
    | Raise x => snd (m s)
    end.
Proof. unfold bind. destruct (m s) as [[a|x] s']; reflexivity. Qed.









(** *** What a batch leaves alone *)

(** An environment with both test modes on. *)
Definition rehearsal_env : env :=
  {| environ := fun _ => None;
     resolve := fun p => p; home := "/home/op";
     arweave_TEST_MODE := true; atproto_TEST_MODE := true;
     run := fun _ _ => Missing;
     frontmatter_load := fun content => Ok [("uuid", content)];
     now := fun _ => "2024-02-01T00:00:00+00:00";
     random_tx_id := fun _ => "abcdefghijklmnopqrstuvwxyzABCDEFGHIJKLMNOPQ";
     py_repr := fun _ => ""; format_6f := fun f => match f with Float lit => lit end;
     search_arweave_url := fun _ => None; findall_tx_ids := fun _ => [];
     search_bsky_url := fun _ => None; search_at_uri := fun _ => None |}.

(** X3.  A batch of uploads writes the index file, its [.json.bak] and
    its [.tmp] sibling and no other file: every other path, the notes of
    the batch among them, holds after the batch what it held before. *)
Theorem upload_files_to_arweave_touches_only_index
  (e : env) (files_to_upload : list string) (cb : bool) (index_file : string) (w : world)
  (p : string) :
  p ∉ index_siblings index_file ->
  files (snd (upload_files_to_arweave e files_to_upload cb index_file w)) !! p = files w !! p.
Proof.
  intros Hp.
  apply (keeps_upload_files_to_arweave (untouched_outside (index_siblings index_file))
           e cb (index_siblings index_file)); [| |reflexivity|exact Hp].
  - apply untouched_outside_may_write. reflexivity.
  - right. apply untouched_outside_may_call.
Qed.

Lemma upload_files_to_arweave_touches_only_index_witness :
  index_siblings archive_path = {[archive_path; "data/archive.json.bak"; "data/archive.tmp"]}
  /\ files (snd (upload_files_to_arweave rehearsal_env two_notes true archive_path
                   two_notes_world)) !! "notes/a.md" = Some "id-a"
  /\ files (snd (upload_files_to_arweave rehearsal_env two_notes true archive_path
                   two_notes_world)) !! archive_path <> None.
Proof.
  assert (index_siblings archive_path
          = {[archive_path; "data/archive.json.bak"; "data/archive.tmp"]}) as Hs.
  { unfold index_siblings. cbn. set_solver. }
  split; [exact Hs|]. split.
  - rewrite (upload_files_to_arweave_touches_only_index rehearsal_env two_notes true
               archive_path two_notes_world "notes/a.md"); [reflexivity|].
    rewrite Hs. set_solver.
  - vm_compute. discriminate.
Defined.

(** X4.  A batch of posts writes the index file and no other file. *)
Theorem post_files_to_atproto_touches_only_index
  (e : env) (files_to_post : list string) (cb : bool) (index_file user_text : string)
  (w : world) (p : string) :
  p <> index_file ->
  files (snd (post_files_to_atproto e files_to_post cb index_file user_text w)) !! p
  = files w !! p.
Proof.
  intros Hp.
  apply (keeps_post_files_to_atproto (untouched_outside {[index_file]})
           e cb {[index_file]}); [| |set_solver|set_solver].
  - apply untouched_outside_may_write. reflexivity.
  - right. apply untouched_outside_may_call.
Qed.

Lemma post_files_to_atproto_touches_only_index_witness :
  files (snd (post_files_to_atproto rehearsal_env two_notes true posts_path "hello"
                two_notes_world)) !! "notes/b.md" = Some "id-b"
  /\ files (snd (post_files_to_atproto rehearsal_env two_notes true posts_path "hello"
                   two_notes_world)) !! posts_path <> None.
Proof.
  split.
  - rewrite (post_files_to_atproto_touches_only_index rehearsal_env two_notes true
               posts_path "hello" two_notes_world "notes/b.md"); [reflexivity|discriminate].
  - vm_compute. discriminate.
Defined.

(** X5.  In test mode a batch of uploads starts no subprocess, whatever
    the batch and the files are. *)
Theorem upload_files_to_arweave_test_mode_runs_nothing
  (e : env) (files_to_upload : list string) (cb : bool) (index_file : string) (w : world) :
  arweave_TEST_MODE e = true ->
  calls (snd (upload_files_to_arweave e files_to_upload cb index_file w)) = calls w.
Proof.
  intros Ht.
  apply (keeps_upload_files_to_arweave same_calls e cb (index_siblings index_file));
    [apply same_calls_may_write|left; exact Ht|reflexivity].
Qed.

Lemma upload_files_to_arweave_test_mode_runs_nothing_witness :
  calls (snd (upload_files_to_arweave rehearsal_env two_notes true archive_path
                two_notes_world)) = []
  /\ fst (upload_files_to_arweave rehearsal_env two_notes true archive_path two_notes_world)
     = Ok [("notes/a.md", Some "abcdefghijklmnopqrstuvwxyzABCDEFGHIJKLMNOPQ");
           ("notes/b.md", Some "abcdefghijklmnopqrstuvwxyzABCDEFGHIJKLMNOPQ")].
Proof.
  split.
  - apply (upload_files_to_arweave_test_mode_runs_nothing rehearsal_env two_notes true
             archive_path two_notes_world). reflexivity.
  - vm_compute. reflexivity.
Defined.

(** X6.  In test mode a batch of posts starts no subprocess. *)
Theorem post_files_to_atproto_test_mode_runs_nothing
  (e : env) (files_to_post : list string) (cb : bool) (index_file user_text : string)
  (w : world) :
  atproto_TEST_MODE e = true ->
  calls (snd (post_files_to_atproto e files_to_post cb index_file user_text w)) = calls w.
Proof.
  intros Ht.
  apply (keeps_post_files_to_atproto same_calls e cb {[index_file]});
    [apply same_calls_may_write|left; exact Ht|set_solver].
Qed.

Lemma post_files_to_atproto_test_mode_runs_nothing_witness :
  calls (snd (post_files_to_atproto rehearsal_env two_notes true posts_path "hello"
                two_notes_world)) = [].
Proof.
  apply (post_files_to_atproto_test_mode_runs_nothing rehearsal_env two_notes true
           posts_path "hello" two_notes_world). reflexivity.
Defined.

(** *** The wallet file *)







(** *** The deploy command *)


(** *** Posting *)

Lemma subprocess_exec_eq (e : env) (argv : list string) (w : world) :
  subprocess_exec e argv w
  = (match run e (length (calls w)) argv with
     | Missing => Raise (Exn FileNotFoundError "No such file or directory")
     | Broken x => Raise x
     | Exited rc out err => Ok (rc, out, err)
     end, called w argv).
Proof. unfold subprocess_exec. cbv zeta. destruct (run e _ argv); reflexivity. Qed.

(** Is the [bsky] tool there?  The version check exits with 0 and its
    output can be decoded. *)
Definition bsky_installed (e : env) (done : list (list string)) : bool :=
  match run e (length done) ["bsky"; "--version"] with
  | Exited rc (Ok _) _ => (rc =? 0)%Z
  | _ => false
  end.

Lemma check_bsky_cli_installed_eq (e : env) (w : world) :
  exists msg,
    check_bsky_cli_installed e w
    = (Ok (bsky_installed e (calls w), msg), called w ["bsky"; "--version"]).
Proof.
  unfold check_bsky_cli_installed, bsky_installed, try_except, bind.
  rewrite subprocess_exec_eq.
  destruct (run e (length (calls w)) ["bsky"; "--version"]) as [|x|rc out err].
  - eexists. reflexivity.
  - cbv beta iota. destruct (is_file_not_found x); eexists; reflexivity.
  - cbv beta iota. destruct (rc =? 0)%Z; [|destruct out; eexists; reflexivity].
    destruct out as [s|x]; [eexists; reflexivity|].
    cbn. destruct (is_file_not_found x); eexists; reflexivity.
Qed.

Lemma calls_keeps {A} (m : M A) (w : world) :
  keeps same_calls m -> calls (snd (m w)) = calls w.
Proof. intros H. apply H. Qed.

Lemma calls_try_except {A} (m : M A) (h : exn -> M A) (w : world) :
  (forall x, keeps same_calls (h x)) ->
  calls (snd (try_except m h w)) = calls (snd (m w)).
Proof.
  intros Hh. unfold try_except. destruct (m w) as [[a|x] w']; [reflexivity|].
  cbn [snd]. apply Hh.
Qed.

(** The commands [post_to_atproto] runs after [done] were run: the
    version check, then the session check when the tool is there, then
    the post when the session check exits with 0. *)
Definition post_commands (e : env) (done : list (list string)) (user_text : string)
  : list (list string) :=
  let version := ["bsky"; "--version"] in
  let session := ["bsky"; "show-session"] in
  version ::
  (if bsky_installed e done then
     session ::
     match run e (length (done ++ [version])) session with
     | Exited rc (Ok _) (Ok _) => if (rc =? 0)%Z then [["bsky"; "post"; user_text]] else []
     | _ => []
     end
   else []).

Ltac post_simpl :=
  cbn [logger ret lift called noted fst snd calls files seen log notes faults].

Lemma post_to_atproto_calls
  (e : env) (file_path : string) (c : ATProtoCredentials) (cb : bool) (user_text : string)
  (w : world) :
  atproto_TEST_MODE e = false -> user_text <> "" ->
  calls (snd (post_to_atproto e file_path (Some c) cb user_text w))
  = calls w ++ post_commands e (calls w) user_text.
Proof.
  intros Ht Hu. unfold post_to_atproto, post_commands. cbv zeta. rewrite Ht.
  destruct (String.eqb_spec user_text "") as [|_]; [contradiction|].
  destruct w as [fs sn lg nt cl ft].
  rewrite snd_bind. post_simpl. rewrite snd_bind. post_simpl.
  rewrite calls_try_except by (intros x; keeps_go).
  rewrite snd_bind. post_simpl. rewrite snd_bind.
  match goal with |- context [check_bsky_cli_installed e ?w1] =>
    destruct (check_bsky_cli_installed_eq e w1) as [msg ->] end.
  post_simpl. rewrite snd_bind. post_simpl.
  destruct (bsky_installed e cl); cbn [negb].
  2: { rewrite calls_keeps by keeps_go. post_simpl. rewrite <- ?app_assoc. reflexivity. }
  rewrite snd_bind. post_simpl. rewrite snd_bind, subprocess_exec_eq.
  post_simpl. rewrite length_app.
  destruct (run e (length cl + length [["bsky"; "--version"]]) ["bsky"; "show-session"])
    as [|x|rc out err]; post_simpl; rewrite <- ?app_assoc; try reflexivity.
  rewrite snd_bind. destruct out as [out|x]; post_simpl;
    [|rewrite <- ?app_assoc; reflexivity].
  rewrite snd_bind. destruct err as [err|x]; post_simpl;
    [|rewrite <- ?app_assoc; reflexivity].
  rewrite snd_bind. post_simpl.
  destruct (rc =? 0)%Z; cbn [negb].
  2: { rewrite calls_keeps by keeps_go. post_simpl. rewrite <- ?app_assoc. reflexivity. }
  rewrite snd_bind. post_simpl. rewrite snd_bind.
  rewrite app_notify_noted. post_simpl. rewrite snd_bind, subprocess_exec_eq.
  post_simpl.
  match goal with |- context [run e ?n ["bsky"; "post"; user_text]] =>
    destruct (run e n ["bsky"; "post"; user_text]) as [|x|prc pout perr] end;
    post_simpl; rewrite <- ?app_assoc; try reflexivity.
  all: try (destruct cb; post_simpl; rewrite <- ?app_assoc; reflexivity).
  rewrite calls_keeps by keeps_go.
  destruct cb; post_simpl; rewrite <- ?app_assoc; reflexivity.
Qed.

Lemma total_post_to_atproto (e : env) (file_path : string)
  (credentials : option ATProtoCredentials) (cb : bool) (user_text : string) :
  total (post_to_atproto e file_path credentials cb user_text).
Proof.
  unfold post_to_atproto. cbv zeta. apply total_bind; [apply total_logger|intros _].
  destruct (atproto_TEST_MODE e); [total_go|].
  apply total_bind; [destruct credentials; [apply total_ret|apply total_load_atproto_credentials]|].
  intros [c|]; total_go.
Qed.

(** X9.  Outside test mode, with credentials and a text, [post_to_atproto]
    never raises, touches no file, and starts its subprocesses in a
    fixed order: the version check; then, only when that check exited
    with 0 and its output could be decoded, the session check; then,
    only when the session check exited with 0 and its output could be
    decoded, the post command with the text as its one argument.
    Nothing else is started. *)
Theorem post_to_atproto_protocol
  (e : env) (file_path : string) (c : ATProtoCredentials) (cb : bool) (user_text : string)
  (w : world) :
  atproto_TEST_MODE e = false -> user_text <> "" ->
  let r := post_to_atproto e file_path (Some c) cb user_text w in
  (exists res, fst r = Ok res)
  /\ calls (snd r) = calls w ++ post_commands e (calls w) user_text
  /\ files (snd r) = files w.
Proof.
  intros Ht Hu. cbv zeta. split; [apply total_post_to_atproto|].
  split; [apply post_to_atproto_calls; assumption|].
  apply untouched_outside_empty.
  apply (keeps_post_to_atproto (untouched_outside ∅) e cb).
  right. apply untouched_outside_may_call.
Qed.

(** An environment in which the session check fails: the tool is
    installed but nobody is logged in. *)
Definition logged_out_env : env :=
  {| environ := fun _ => None;
     resolve := fun p => p; home := "/home/op";
     arweave_TEST_MODE := false; atproto_TEST_MODE := false;
     run := fun _ argv =>
       if existsb (String.eqb "--version") argv then Exited 0 (Ok "bsky 0.0.70") (Ok "")
       else Exited 1 (Ok "") (Ok "not logged in");
     frontmatter_load := fun content => Ok [("uuid", content)];
     now := fun _ => "2024-02-01T00:00:00+00:00";
     random_tx_id := fun _ => "";
     py_repr := fun _ => ""; format_6f := fun f => match f with Float lit => lit end;
     search_arweave_url := fun _ => None; findall_tx_ids := fun _ => [];
     search_bsky_url := fun _ => None; search_at_uri := fun _ => None |}.

Definition sample_credentials : ATProtoCredentials :=
  Credentials (JStr "me.bsky.social") (JStr "me@example.org") (JStr "secret").

Lemma post_to_atproto_protocol_witness :
  let r := post_to_atproto logged_out_env "notes/a.md" (Some sample_credentials) true
             "hello" two_notes_world in
  (exists res, fst r = Ok res)
  /\ calls (snd r) = [["bsky"; "--version"]; ["bsky"; "show-session"]]
  /\ files (snd r) = files two_notes_world.
Proof.
  exact (post_to_atproto_protocol logged_out_env "notes/a.md" sample_credentials true
           "hello" two_notes_world eq_refl ltac:(discriminate)).
Defined.

(** X10.  When the post command succeeded and printed no web address
    but an [at://] address with exactly four [/]-separated parts, the
    test [len(parts) >= 4] passes and [parts[4]] is out of range: the
    error is caught, and [post_to_atproto] returns [None] although the
    post was made. *)
Theorem post_to_atproto_short_at_uri
  (e : env) (file_path : string) (c : ATProtoCredentials) (cb : bool) (user_text : string)
  (w : world) (v so se out err at_uri : string) (verr : result string) :
  let n := length (calls w) in
  atproto_TEST_MODE e = false -> user_text <> "" ->
  run e n ["bsky"; "--version"] = Exited 0 (Ok v) verr ->
  run e (n + 1) ["bsky"; "show-session"] = Exited 0 (Ok so) (Ok se) ->
  run e (n + 2) ["bsky"; "post"; user_text] = Exited 0 (Ok out) (Ok err) ->
  search_bsky_url e out = None -> search_at_uri e out = Some at_uri ->
  length (py_split "/" at_uri) = 4 ->
  let r := post_to_atproto e file_path (Some c) cb user_text w in
  fst r = Ok None
  /\ calls (snd r)
     = calls w ++ [["bsky"; "--version"]; ["bsky"; "show-session"]; ["bsky"; "post"; user_text]]
  /\ notes (snd r)
     = notes w ++ (if cb then ["Posting to Bluesky...";
                               "Error posting to AT Protocol: list index out of range"]
                   else []).
Proof.
  cbv zeta. intros Ht Hu Hv Hs Hp Hurl Hat Hlen.
  unfold post_to_atproto. cbv zeta. rewrite Ht.
  destruct (String.eqb_spec user_text "") as [|_]; [contradiction|].
  destruct w as [fs sn lg nt cl ft]. cbn [calls] in Hv, Hs, Hp.
  unfold check_bsky_cli_installed, app_notify.
  destruct cb.
  all: cbv beta iota zeta delta [bind try_except lift ret raise logger subprocess_exec
                                 calls files seen log notes faults fst snd].
  all: rewrite Hv; cbv beta iota zeta; cbn [Z.eqb negb].
  all: rewrite length_app; cbn [length]; rewrite Hs; cbv beta iota zeta; cbn [Z.eqb negb].
  all: rewrite !length_app; cbn [length]; rewrite <- Nat.add_assoc; cbn [Nat.add].
  all: rewrite Hp; cbv beta iota zeta; cbn [Z.eqb negb].
  all: rewrite Hurl, Hat.
  all: destruct (py_split "/" at_uri) as [|p0 [|p1 [|p2 [|p3 [|p4 ps]]]]]; try discriminate Hlen.
  all: cbn [length Nat.leb py_index lookup list_lookup].
  all: destruct (String.eqb err ""); cbv beta iota zeta;
    rewrite <- ?app_assoc, ?app_nil_r; repeat split.
Qed.

(** An environment in which every command succeeds and the post command
    prints an [at://] address without a record key. *)
Definition short_uri_env : env :=
  {| environ := fun _ => None;
     resolve := fun p => p; home := "/home/op";
     arweave_TEST_MODE := false; atproto_TEST_MODE := false;
     run := fun _ argv =>
       Exited 0
         (Ok (if existsb (String.eqb "post") argv
              then "at://did:plc:abc/app.bsky.feed.post" else "ok"))
         (Ok "");
     frontmatter_load := fun content => Ok [("uuid", content)];
     now := fun _ => "2024-02-01T00:00:00+00:00";
     random_tx_id := fun _ => "";
     py_repr := fun _ => ""; format_6f := fun f => match f with Float lit => lit end;
     search_arweave_url := fun _ => None; findall_tx_ids := fun _ => [];
     search_bsky_url := fun _ => None;
     search_at_uri := fun s => if is_prefix (T "at://") (T s) then Some s else None |}.

Lemma post_to_atproto_short_at_uri_witness :
  py_split "/" "at://did:plc:abc/app.bsky.feed.post"
  = ["at:"; ""; "did:plc:abc"; "app.bsky.feed.post"]
  /\ let r := post_to_atproto short_uri_env "notes/a.md" (Some sample_credentials) true
                "hello" two_notes_world in
     fst r = Ok None
     /\ calls (snd r)
        = [["bsky"; "--version"]; ["bsky"; "show-session"]; ["bsky"; "post"; "hello"]]
     /\ notes (snd r)
        = ["Posting to Bluesky..."; "Error posting to AT Protocol: list index out of range"].
Proof.
  split; [reflexivity|].
  exact (post_to_atproto_short_at_uri short_uri_env "notes/a.md" sample_credentials true
           "hello" two_notes_world "ok" "ok" "" "at://did:plc:abc/app.bsky.feed.post" ""
           "at://did:plc:abc/app.bsky.feed.post" (Ok "")
           eq_refl ltac:(discriminate) eq_refl eq_refl eq_refl eq_refl eq_refl eq_refl).
Defined.

(** *** A batch without a wallet *)



(** *** Credentials *)

(** The credentials a parsed document gives: it must be an object with
    the three keys. *)
Definition credentials_of (doc : result json) : option ATProtoCredentials :=
  match doc with
  | Ok (JObj d) =>
      match dict_get "handle" d, dict_get "email" d, dict_get "password" d with
      | Some h, Some m, Some p => Some (Credentials h m p)
      | _, _, _ => None
      end
  | _ => None
  end.

(** One of the two environment variables is unset or empty. *)
Definition no_env_credentials (e : env) : Prop :=
  falsy (environ e "BSKY_USER") || falsy (environ e "BSKY_PASSWORD") = true.

Lemma load_atproto_credentials_returns (e : env) (creds_file : string) (w : world) :
  no_env_credentials e ->
  fst (load_atproto_credentials e creds_file w)
  = Ok match files w !! creds_file, head_fault w with
       | Some s, Pass => credentials_of (loads s)
       | _, _ => None
       end.
Proof.
  intros Hn. unfold load_atproto_credentials, no_env_credentials in *.
  destruct (falsy (environ e "BSKY_USER")), (falsy (environ e "BSKY_PASSWORD"));
    try discriminate Hn; cbn [negb andb].
  all: destruct w as [fs sn lg nt cl ft]; io_norm.
  all: destruct (fs !! creds_file) as [s|] eqn:Hs;
    [|rewrite (bool_decide_eq_false_2 (is_Some None)) by (apply is_Some_None); reflexivity].
  all: rewrite (bool_decide_eq_true_2 (is_Some (Some s))) by eauto; io_norm.
  all: rewrite read_text_eq; io_norm; rewrite Hs.
  all: destruct ft as [|[|k] ft]; io_norm; try reflexivity.
  all: destruct (loads s) as [[| | | | |d]|x]; try reflexivity.
  all: cbn [py_all_in py_in py_getitem credentials_of].
  all: try (destruct (existsb _ _); [|reflexivity]; destruct (existsb _ _); [|reflexivity];
            destruct (existsb _ _); reflexivity).
  all: try (destruct (contains _ _); [|reflexivity]; destruct (contains _ _); [|reflexivity];
            destruct (contains _ _); reflexivity).
  all: destruct (dict_get "handle" d), (dict_get "email" d), (dict_get "password" d);
    reflexivity.
Qed.


(** What [save_atproto_credentials] writes. *)
Definition credentials_text (c : ATProtoCredentials) : string := dumps (credentials_json c).

Lemma save_atproto_credentials_returns (e : env) (c : ATProtoCredentials)
  (creds_file : string) (w : world) :
  let r := save_atproto_credentials e c creds_file w in
  (forall x, fst r <> Raise x)
  /\ (fst r = Ok true -> files (snd r) !! creds_file = Some (credentials_text c))
  /\ (passing 3 w -> fst r = Ok true).
Proof.
  cbv zeta.
  destruct (save_atproto_credentials e c creds_file w) as [r w'] eqn:E. cbn [fst snd].
  revert E. unfold save_atproto_credentials. fold (credentials_text c).
  destruct w as [fs sn lg nt cl ft].
  unfold passing. cbn [faults files seen log].
  io_run.
  all: intros [= <- <-].
  all: split; [intros x Hx; discriminate Hx|].
  all: split; [intros Hx; first [discriminate Hx | simplify_map_eq; done]|].
  all: intros Hx; first [discriminate Hx | reflexivity].
Qed.

Lemma keeps_save_atproto_credentials (P : world -> world -> Prop) `{!WorldFrame P}
  (e : env) (c : ATProtoCredentials) (creds_file : string) (X : gset string) :
  may_write P X -> creds_file ∈ X -> keeps P (save_atproto_credentials e c creds_file).
Proof.
  intros HX Hin. unfold save_atproto_credentials. keeps_go.
  apply (keeps_write_text P X HX); assumption.
Qed.

(** X13.  [save_atproto_credentials] never raises, starts no subprocess
    and writes no file but the credentials file.  When it returns true
    the file holds the three fields as a JSON document, and, the
    environment variables not being set, [load_atproto_credentials]
    reads the same credentials back. *)
Theorem save_atproto_credentials_round_trip
  (e : env) (c : ATProtoCredentials) (creds_file : string) (w : world) :
  let saved := save_atproto_credentials e c creds_file w in
  (exists b, fst saved = Ok b)
  /\ calls (snd saved) = calls w
  /\ (forall p, p <> creds_file -> files (snd saved) !! p = files w !! p)
  /\ (passing 3 w -> fst saved = Ok true)
  /\ (fst saved = Ok true ->
      files (snd saved) !! creds_file = Some (credentials_text c)
      /\ (keys_unique (credentials_json c) = true -> no_env_credentials e ->
          head_fault (snd saved) = Pass ->
          fst (load_atproto_credentials e creds_file (snd saved)) = Ok (Some c))).
Proof.
  cbv zeta.
  pose proof (save_atproto_credentials_returns e c creds_file w) as H. cbv zeta in H.
  destruct H as (Hraise & Hfile & Hpass). split; [|split; [|split; [|split]]].
  - destruct (fst (save_atproto_credentials e c creds_file w)) as [b|x] eqn:E.
    + eexists. reflexivity.
    + destruct (Hraise x eq_refl).
  - apply (keeps_save_atproto_credentials same_calls e c creds_file {[creds_file]}).
    + apply same_calls_may_write.
    + set_solver.
  - intros p Hp.
    apply (keeps_save_atproto_credentials (untouched_outside {[creds_file]}) e c creds_file
             {[creds_file]}).
    + apply untouched_outside_may_write. reflexivity.
    + set_solver.
    + set_solver.
  - exact Hpass.
  - intros Hok. specialize (Hfile Hok). split; [exact Hfile|].
    intros Hu Hn Hp. rewrite (load_atproto_credentials_returns e creds_file _ Hn).
    rewrite Hfile, Hp. unfold credentials_text. rewrite (loads_dumps _ Hu).
    destruct c as [h m p]. reflexivity.
Qed.

(** X14.  [save_env_credentials_to_file] writes nothing and returns
    false when one of the two environment variables is unset or empty.
    When both are set and it returns true, the file holds what
    [load_atproto_credentials] takes from the environment: read back
    where the variables are not set, the file gives the same
    credentials. *)
Theorem save_env_credentials_to_file_persists
  (e : env) (creds_file : string) (w : world) :
  let saved := save_env_credentials_to_file e creds_file w in
  (no_env_credentials e -> fst saved = Ok false /\ only_logged w (snd saved))
  /\ (forall e',
        fst saved = Ok true -> head_fault (snd saved) = Pass -> no_env_credentials e' ->
        fst (load_atproto_credentials e' creds_file (snd saved))
        = fst (load_atproto_credentials e creds_file w)).
Proof.
  cbv zeta. unfold save_env_credentials_to_file, no_env_credentials. cbv zeta. split.
  - intros ->. cbn. repeat split.
  - intros e' Hok Hp Hn'.
    destruct (environ e "BSKY_USER") as [user|] eqn:Eu; cbn [falsy orb] in *;
      [|discriminate Hok].
    destruct (String.eqb user "") eqn:Enu; cbn [orb] in *; [discriminate Hok|].
    destruct (environ e "BSKY_PASSWORD") as [pw|] eqn:Ep; cbn [falsy] in *;
      [|discriminate Hok].
    destruct (String.eqb pw "") eqn:Enp; [discriminate Hok|].
    cbn [or_default] in *.
    set (c := Credentials (JStr user) (JStr user) (JStr pw)) in *.
    pose proof (save_atproto_credentials_returns e c creds_file w) as H. cbv zeta in H.
    destruct H as (_ & Hfile & _). specialize (Hfile Hok).
    rewrite (load_atproto_credentials_returns e' creds_file _ Hn'), Hfile, Hp.
    unfold credentials_text. rewrite (loads_dumps (credentials_json c)) by reflexivity.
    unfold load_atproto_credentials. rewrite Eu, Ep. cbn [falsy]. rewrite Enu, Enp.
    reflexivity.
Qed.

Lemma keeps_check_atproto_connection (P : world -> world -> Prop) `{!WorldFrame P}
  (e : env) (credentials : option ATProtoCredentials) :
  keeps P (check_atproto_connection e credentials).
Proof.
  unfold check_atproto_connection. keeps_go.
  apply keeps_load_atproto_credentials; apply _.
Qed.

(** X15.  [check_atproto_connection] checks nothing: it starts no
    subprocess and changes no file; it returns true in test mode and
    whenever credentials are passed, and otherwise true exactly when
    [load_atproto_credentials] finds credentials at the default place. *)
Theorem check_atproto_connection_checks_nothing
  (e : env) (credentials : option ATProtoCredentials) (w : world) :
  let r := check_atproto_connection e credentials w in
  calls (snd r) = calls w /\ files (snd r) = files w
  /\ (atproto_TEST_MODE e = true \/ is_Some credentials -> fst r = Ok true)
  /\ (atproto_TEST_MODE e = false -> credentials = None ->
      exists found,
        fst (load_atproto_credentials e atproto_default_creds w) = Ok found
        /\ fst r = Ok (bool_decide (is_Some found))).
Proof.
  cbv zeta. split; [|split; [|split]].
  - apply (keeps_check_atproto_connection same_calls).
  - apply untouched_outside_empty.
    apply (keeps_check_atproto_connection (untouched_outside ∅)).
  - unfold check_atproto_connection. intros [->|[c ->]]; [reflexivity|].
    destruct (atproto_TEST_MODE e); reflexivity.
  - intros Ht ->. unfold check_atproto_connection. rewrite Ht.
    destruct (total_load_atproto_credentials e atproto_default_creds w) as [found Hf].
    exists found. split; [exact Hf|]. rewrite fst_bind, Hf.
    destruct found as [c|]; reflexivity.
Qed.

(** *** The selection *)

Section SelectionProperties.

Variable is_dir : string -> bool.

(** The files under a node are files. *)
Lemma child_file_nodes_are_files (node : TreeNode) :
  Forall (fun n => exists p, node_data n = Some p /\ is_dir p = false)
    (_find_child_file_nodes is_dir node).
Proof.
  revert node. fix IH 1. intros [d children]. cbn [_find_child_file_nodes].
  induction children as [|c cs IHcs]; cbn [flat_map]; [constructor|].
  apply Forall_app. split; [|exact IHcs].
  destruct (node_data c) as [p|] eqn:Ec; [|constructor].
  destruct (is_dir p) eqn:Ed; cbn [negb].
  - apply IH.
  - constructor; [exists p; split; assumption|constructor].
Qed.

Lemma child_file_paths_are_files (node : TreeNode) (p : string) :
  p ∈ child_file_paths is_dir node -> is_dir p = false.
Proof.
  unfold child_file_paths. intros Hp. apply list_elem_of_omap in Hp as (n & Hn & Hd).
  pose proof (child_file_nodes_are_files node) as H.
  rewrite Forall_forall in H. destruct (H n Hn) as (q & Hq & Hfile). congruence.
Qed.

(** Only files are selected. *)
Definition files_only (queued_files : gset string) : Prop :=
  forall p, p ∈ queued_files -> is_dir p = false.

(** X16.  Toggling a file twice gives back the selection, whatever it
    was; one toggle changes the membership of the path of the node and
    of no other path; and on a directory node or an error leaf the
    toggle does nothing. *)
Theorem toggle_file_selection_involution (q : gset string) (node : TreeNode) :
  toggle_file_selection is_dir (toggle_file_selection is_dir q node) node = q
  /\ (forall path, node_data node = Some path -> is_dir path = false ->
        (path ∈ toggle_file_selection is_dir q node <-> path ∉ q)
        /\ forall p, p <> path -> (p ∈ toggle_file_selection is_dir q node <-> p ∈ q))
  /\ ((forall path, node_data node = Some path -> is_dir path = true) ->
      toggle_file_selection is_dir q node = q).
Proof.
  unfold toggle_file_selection. split; [|split].
  - destruct (node_data node) as [path|]; [|reflexivity].
    destruct (is_dir path); cbn [negb]; [reflexivity|].
    destruct (decide (path ∈ q)) as [Hin|Hout].
    + rewrite (bool_decide_eq_true_2 _ Hin).
      rewrite bool_decide_eq_false_2 by set_solver.
      apply set_eq. intros x. destruct (decide (x = path)); set_solver.
    + rewrite (bool_decide_eq_false_2 _ Hout).
      rewrite bool_decide_eq_true_2 by set_solver. set_solver.
  - intros path -> ->. cbn [negb].
    destruct (decide (path ∈ q)) as [Hin|Hout].
    + rewrite (bool_decide_eq_true_2 _ Hin). set_solver.
    + rewrite (bool_decide_eq_false_2 _ Hout). set_solver.
  - intros H. destruct (node_data node) as [path|]; [|reflexivity].
    rewrite (H path eq_refl). reflexivity.
Qed.

(** X17.  The selection holds files only: when no selected path is a
    directory, none is after a toggle of a file node or of a directory
    node, whatever the node is.  A toggle of a directory changes the
    membership of the files under it and of no other path. *)
Theorem toggles_select_files_only (q : gset string) (node : TreeNode) :
  files_only q ->
  files_only (toggle_file_selection is_dir q node)
  /\ files_only (toggle_directory_selection is_dir q node)
  /\ forall p, p ∉ child_file_paths is_dir node ->
       (p ∈ toggle_directory_selection is_dir q node <-> p ∈ q).
Proof.
  intros Hq. split; [|split].
  - unfold toggle_file_selection. destruct (node_data node) as [path|]; [|exact Hq].
    destruct (is_dir path) eqn:Ed; cbn [negb]; [exact Hq|].
    destruct (bool_decide (path ∈ q)); intros p Hp.
    + apply Hq. set_solver.
    + apply elem_of_union in Hp as [Hp|Hp]; [apply Hq, Hp|].
      apply elem_of_singleton in Hp. subst p. exact Ed.
  - unfold toggle_directory_selection.
    destruct (_find_child_file_nodes is_dir node); [exact Hq|]. cbv zeta.
    destruct (forallb _ _); intros p Hp.
    + apply Hq. set_solver.
    + apply elem_of_union in Hp as [Hp|Hp]; [apply Hq, Hp|].
      apply elem_of_list_to_set in Hp. apply (child_file_paths_are_files node p Hp).
  - intros p Hp. unfold toggle_directory_selection.
    destruct (_find_child_file_nodes is_dir node); [reflexivity|]. cbv zeta.
    destruct (forallb _ _); set_solver.
Qed.

End SelectionProperties.

Lemma toggles_select_files_only_witness :
  let q := toggle_directory_selection only_notes_is_dir {[ "notes/a.md" ]} two_files in
  q = {[ "notes/a.md"; "notes/b.md" ]} /\ files_only only_notes_is_dir q.
Proof.
  assert (files_only only_notes_is_dir {[ "notes/a.md" ]}) as H.
  { intros p Hp. apply elem_of_singleton in Hp. subst p. reflexivity. }
  split.
  - vm_compute. reflexivity.
  - apply (toggles_select_files_only only_notes_is_dir {[ "notes/a.md" ]} two_files H).
Defined.

(** *** The round trips, on the sample snapshot *)

Lemma atproto_round_trip_witness :
  fst (load_atproto_posts_index posts_path
         (snd (save_atproto_posts_index (map JObj sample_snapshot) posts_path empty_world)))
  = Ok (map JObj sample_snapshot).
Proof.
  apply (atproto_round_trip (map JObj sample_snapshot) posts_path empty_world); reflexivity.
Defined.

Lemma arweave_round_trip_witness :
  fst (load_arweave_index archive_path
         (snd (save_arweave_index (map JObj sample_snapshot) archive_path old_archive_world)))
  = Ok (map JObj sample_snapshot).
Proof.
  apply (arweave_round_trip (map JObj sample_snapshot) archive_path
           "data/archive.json.bak" "data/archive.tmp" old_archive_world);
    first [reflexivity | repeat split; discriminate].
Defined.

(** *** The status, read from the index file *)

